(** * invbt: the balance-simulation engine of [src/utils.py]

    A shallow embedding of the portfolio backtester: the cost model
    ([calculate_rebalance_cost], [calculate_leverage_costs], [get_costs],
    [get_net_balance]), the balance depletion guard
    ([check_negative_balance]), the period simulator ([port_balance_calc])
    and the rebalancing loop ([get_balance]).

    Numbers.  The program computes on IEEE doubles held in pandas objects.
    The embedding keeps the three special values that steer the control
    flow (NaN and the two infinities) and takes the finite values as exact
    rationals: rounding error, overflow, underflow and the sign of zero are
    not modelled.  Every arithmetic result is stored reduced ([Qred]), so
    that equal numbers are equal terms.  Where a claim turns on what the
    rationals leave out, a quotient that underflows to 0, the function is
    embedded once more on binary64 numbers ([Binary64]).

    Labels.  The asset labels of a weight vector and the dates of a
    trajectory are taken to be unique, as the description has them; on
    repeated labels pandas aligns and slices differently, or raises. *)

From Stdlib Require Import QArith Qround Qabs Qreduction ZArith List Bool Lia String.
From Stdlib Require SpecFloat.
Import ListNotations.

Set Implicit Arguments.

(** ** Numbers *)

Inductive float : Type :=
| Fin (q : Q)
| PInf
| NInf
| NaN.

Declare Scope float_scope.
Delimit Scope float_scope with float.
Bind Scope float_scope with float.

Definition fin (q : Q) : float := Fin (Qred q).

Definition f0 : float := Fin 0%Q.
Definition f1 : float := Fin 1%Q.

(** Sign of a rational: its numerator against zero. *)
Definition Qsgn (q : Q) : comparison := (Qnum q ?= 0)%Z.

Definition isnan (x : float) : bool :=
  match x with NaN => true | _ => false end.

Definition isinf (x : float) : bool :=
  match x with PInf | NInf => true | _ => false end.

Definition fopp (x : float) : float :=
  match x with
  | Fin q => fin (- q)
  | PInf => NInf
  | NInf => PInf
  | NaN => NaN
  end.

Definition fabs (x : float) : float :=
  match x with
  | Fin q => fin (Qabs q)
  | PInf | NInf => PInf
  | NaN => NaN
  end.

Definition fadd (x y : float) : float :=
  match x, y with
  | NaN, _ | _, NaN => NaN
  | Fin a, Fin b => fin (a + b)
  | PInf, NInf | NInf, PInf => NaN
  | PInf, _ | _, PInf => PInf
  | NInf, _ | _, NInf => NInf
  end.

Definition fsub (x y : float) : float := fadd x (fopp y).

(** An infinity times a finite number: the sign of the finite factor
    decides, and zero gives NaN. *)
Definition inf_times (pos : bool) (q : Q) : float :=
  match Qsgn q with
  | Eq => NaN
  | Gt => if pos then PInf else NInf
  | Lt => if pos then NInf else PInf
  end.

Definition fmul (x y : float) : float :=
  match x, y with
  | NaN, _ | _, NaN => NaN
  | Fin a, Fin b => fin (a * b)
  | PInf, Fin b => inf_times true b
  | NInf, Fin b => inf_times false b
  | Fin a, PInf => inf_times true a
  | Fin a, NInf => inf_times false a
  | PInf, PInf | NInf, NInf => PInf
  | PInf, NInf | NInf, PInf => NInf
  end.

(** Division of array values (numpy): a zero divisor gives an infinity or
    NaN and raises nothing. *)
Definition fdiv (x y : float) : float :=
  match x, y with
  | NaN, _ | _, NaN => NaN
  | Fin a, Fin b =>
      match Qsgn b with
      | Eq => inf_times true a
      | _ => fin (a / b)
      end
  | Fin _, (PInf | NInf) => f0
  | (PInf | NInf), (PInf | NInf) => NaN
  | PInf, Fin b => match Qsgn b with Lt => NInf | _ => PInf end
  | NInf, Fin b => match Qsgn b with Lt => PInf | _ => NInf end
  end.

(** Comparisons: every comparison with NaN is false. *)
Definition fltb (x y : float) : bool :=
  match x, y with
  | NaN, _ | _, NaN => false
  | Fin a, Fin b => negb (Qle_bool b a)
  | _, NInf => false
  | NInf, _ => true
  | PInf, _ => false
  | _, PInf => true
  end.

Definition fleb (x y : float) : bool :=
  match x, y with
  | NaN, _ | _, NaN => false
  | Fin a, Fin b => Qle_bool a b
  | NInf, _ => true
  | _, NInf => false
  | _, PInf => true
  | PInf, _ => false
  end.

Definition feqb (x y : float) : bool :=
  match x, y with
  | Fin a, Fin b => Qeq_bool a b
  | PInf, PInf | NInf, NInf => true
  | _, _ => false
  end.

Notation "x + y" := (fadd x y) : float_scope.
Notation "x - y" := (fsub x y) : float_scope.
Notation "x * y" := (fmul x y) : float_scope.
Notation "x / y" := (fdiv x y) : float_scope.
Notation "x <? y" := (fltb x y) : float_scope.
Notation "x <=? y" := (fleb x y) : float_scope.
Notation "x =? y" := (feqb x y) : float_scope.

(** Rounding to [n] decimals, ties to the even neighbour (Python's [round]
    with [ndigits] and pandas' [round]); NaN and the infinities are left as
    they are. *)
Definition round_half_even (q : Q) : Z :=
  let f := Qfloor q in
  match ((q - inject_Z f) ?= (1 # 2))%Q with
  | Lt => f
  | Gt => (f + 1)%Z
  | Eq => if Z.even f then f else (f + 1)%Z
  end.

Definition pow10 (n : nat) : positive := Pos.pow 10 (Pos.of_nat n).

Definition scale10 (n : nat) : Q :=
  match n with O => 1%Q | _ => inject_Z (Zpos (pow10 n)) end.

Definition round (x : float) (n : nat) : float :=
  match x with
  | Fin q => fin (inject_Z (round_half_even (q * scale10 n)) / scale10 n)
  | _ => x
  end.

(** ** pandas objects

    A [Series] is an index of labels with one value each, in index order.
    A [Frame] is a table with a date index: the column labels and, per
    date, one value for each column. *)

Definition asset := string.
Definition date := Z.

Definition Series (K : Type) := list (K * float).

Definition index {K} (s : Series K) : list K := map fst s.
Definition values {K} (s : Series K) : list float := map snd s.

(** [pd.Series(v, index=idx)]: the same value at every label. *)
Definition constant {K} (v : float) (idx : list K) : Series K :=
  map (fun k => (k, v)) idx.

(** Position [-1]; an empty object raises [IndexError]. *)
Definition iloc_last {A} (l : list A) : option A :=
  match rev l with
  | [] => None
  | x :: _ => Some x
  end.

(** [sum()] with pandas' default [skipna=True]: NaN entries are left out,
    and the sum of nothing is 0. *)
Definition nansum (l : list float) : float :=
  fold_left (fun acc x => if isnan x then acc else acc + x)%float l f0.

Record Frame : Type := mkFrame {
  columns : list asset;
  rows : list (date * list float)
}.

Definition dates (f : Frame) : list date := map fst (rows f).

(** ** Cost model *)

Definition mem_asset (a : asset) (l : list asset) : bool :=
  existsb (String.eqb a) l.

Definition lookup (s : Series asset) (a : asset) : option float :=
  option_map snd (find (fun kv => String.eqb a (fst kv)) s).

(** [align(fill_value=0)]: both vectors are reindexed over the union of
    the two indexes and then filled with 0, so that a label one side lacks
    gets 0 there and a weight that is NaN becomes 0 as well.  The union
    lists the labels of the first vector, then the new ones of the second
    (pandas sorts a union of different indexes; the only consumer is an
    order-blind sum).  The labels of a weight vector are taken to be
    unique. *)
Definition union_index (a b : Series asset) : list asset :=
  index a ++ filter (fun k => negb (mem_asset k (index a))) (index b).

(** [reindex]: a label the Series lacks gets NaN. *)
Definition reindex (idx : list asset) (s : Series asset) : Series asset :=
  map (fun k => (k, match lookup s k with Some v => v | None => NaN end)) idx.

(** [fillna(v)]. *)
Definition fillna {K} (v : float) (s : Series K) : Series K :=
  map (fun e => (fst e, if isnan (snd e) then v else snd e)) s.

Definition align (a b : Series asset) : Series asset * Series asset :=
  let idx := union_index a b in
  (fillna f0 (reindex idx a), fillna f0 (reindex idx b)).

(** Elementwise operation on two Series that carry the same index. *)
Definition zip_with (f : float -> float -> float)
  (a b : Series asset) : Series asset :=
  map (fun p => (fst (fst p), f (snd (fst p)) (snd (snd p)))) (combine a b).

Definition calculate_rebalance_cost
  (current_portfolio prev_portfolio : Series asset)
  (transaction_cost : float) : float :=
  let '(current_portfolio, prev_portfolio) :=
    align current_portfolio prev_portfolio in
  let weight_difference :=
    zip_with (fun c p => fabs (c - p)) current_portfolio prev_portfolio in
  let reb_cost :=
    round (nansum (map (fun d => d * transaction_cost)%float
                       (values weight_difference))) 6 in
  reb_cost.

(** [days_in_year] counts days: a positive integer, so that the division
    of the two scalars has a non-zero divisor. *)
Definition calculate_leverage_costs (annual_cost_of_debt : float)
  (portfolio_weights : Series asset) (days_in_year : positive) : float :=
  let leverage_cost := f0 in
  if (f0 <? annual_cost_of_debt)%float then
    let total_debt :=
      fabs (nansum (filter (fun w => w <? f0)%float
                           (values portfolio_weights))) in
    if (f0 <? total_debt)%float then
      let daily_cost_of_debt :=
        (annual_cost_of_debt / Fin (inject_Z (Zpos days_in_year)))%float in
      (daily_cost_of_debt * total_debt)%float
    else leverage_cost
  else leverage_cost.

Definition default_days_in_year : positive := 360%positive.

Definition get_costs (trans_cost : float)
  (portfolio_weights last_weights : Series asset) (annual_kd : float)
  : float * float :=
  let reb_cost :=
    if (trans_cost <=? f0)%float then f0
    else calculate_rebalance_cost portfolio_weights last_weights trans_cost in
  let lev_cost :=
    calculate_leverage_costs annual_kd portfolio_weights
      default_days_in_year in
  (reb_cost, lev_cost).

Definition get_net_balance (balance reb_cost : float) : float :=
  if (f0 <? balance)%float then round (balance * (f1 - reb_cost)) 2
  else f0.

(** The cost model in the words of its description.  The weight of an
    asset in a weight vector, a missing or undefined weight counting as
    0. *)
Definition defined_or_zero (x : float) : float :=
  match x with NaN => f0 | _ => x end.

Fixpoint weight_or_zero (s : Series asset) (a : asset) : float :=
  match s with
  | [] => f0
  | (k, v) :: s' =>
      if String.eqb k a then defined_or_zero v else weight_or_zero s' a
  end.

Definition holds_asset (s : Series asset) (a : asset) : bool :=
  existsb (fun e => String.eqb (fst e) a) s.

(** The absolute weight differences over the union of the asset
    identifiers: one for each asset of the current vector, then one for
    each asset that the previous vector alone holds. *)
Definition weight_differences (current previous : Series asset)
  : list float :=
  map (fun e => fabs (defined_or_zero (snd e)
                      - weight_or_zero previous (fst e))%float) current
  ++ map (fun e => fabs (f0 - defined_or_zero (snd e))%float)
       (filter (fun e => negb (holds_asset current (fst e))) previous).

(** Turnover: the sum of the absolute weight differences. *)
Definition turnover (current previous : Series asset) : float :=
  nansum (weight_differences current previous).

(** Exposure: the sum of the absolute values of the negative weights. *)
Definition exposure (weights : Series asset) : float :=
  nansum (map fabs (filter (fun w => w <? f0)%float (values weights))).

(** ** The leverage cost on binary64 numbers

    [calculate_leverage_costs] once more, on the numbers the program
    computes with: IEEE binary64, through the specification of the
    Standard Library ([SpecFloat], precision 53, largest exponent 1024).
    It shows what the rational numbers above cannot: a quotient that
    underflows to 0.  The sum adds in index order. *)
Module Binary64.

Definition double : Type := SpecFloat.spec_float.

Definition zero : double := SpecFloat.S754_zero false.

(** An integer as a double. *)
Definition of_Z (n : Z) : double :=
  SpecFloat.binary_normalize 53 1024 n 0 false.

(** [m * 2^e], rounded to a double. *)
Definition of_scaled (m e : Z) : double :=
  SpecFloat.binary_normalize 53 1024 m e false.

Definition ltb (x y : double) : bool := SpecFloat.SFltb x y.
Definition add (x y : double) : double := SpecFloat.SFadd 53 1024 x y.
Definition mul (x y : double) : double := SpecFloat.SFmul 53 1024 x y.
Definition div (x y : double) : double := SpecFloat.SFdiv 53 1024 x y.
Definition abs (x : double) : double := SpecFloat.SFabs x.

Definition is_nan (x : double) : bool :=
  match x with SpecFloat.S754_nan => true | _ => false end.

(** [sum()], NaN entries left out. *)
Definition sum (l : list double) : double :=
  fold_left (fun acc x => if is_nan x then acc else add acc x) l zero.

Definition calculate_leverage_costs (annual_cost_of_debt : double)
  (portfolio_weights : list (asset * double)) (days_in_year : Z) : double :=
  let leverage_cost := zero in
  if ltb zero annual_cost_of_debt then
    let total_debt :=
      abs (sum (filter (fun w => ltb w zero) (map snd portfolio_weights))) in
    if ltb zero total_debt then
      let daily_cost_of_debt := div annual_cost_of_debt (of_Z days_in_year) in
      mul daily_cost_of_debt total_debt
    else leverage_cost
  else leverage_cost.

(** The smallest positive double, [2^-1074] (about 4.9e-324). *)
Definition smallest_positive : double := of_scaled 1 (-1074).

End Binary64.

(** ** Balance depletion guard

    [check_negative_balance] writes into the Series object it is given and
    returns a flag only.  Objects live in a store addressed by references;
    a reference that was never written holds the empty Series. *)

Definition Trajectory := Series date.

Definition ref := nat.
Definition Store := ref -> Trajectory.

Definition empty_store : Store := fun _ => [].

Definition store_set (h : Store) (r : ref) (s : Trajectory) : Store :=
  fun r' => if Nat.eqb r' r then s else h r'.

(** [series[label:] = v] on a date index: every entry from the first
    position that carries the label, to the end.  The dates of a
    trajectory are unique; on a label that occurs again further down,
    not next to itself, pandas raises [KeyError] instead. *)
Fixpoint set_from_label (label : date) (v : float) (s : Trajectory)
  : Trajectory :=
  match s with
  | [] => []
  | (d, x) :: s' =>
      if Z.eqb d label then constant v (d :: index s')
      else (d, x) :: set_from_label label v s'
  end.

Definition check_negative_balance (series : ref) (h : Store)
  : bool * Store :=
  match filter (fun e => snd e <=? f0)%float (h series) with
  | (first_zero_or_negative, _) :: _ =>
      (false,
       store_set h series (set_from_label first_zero_or_negative f0 (h series)))
  | [] => (true, h)
  end.

(** ** Period balance simulator *)

(** [cumsum()] with [skipna=True]: a NaN entry yields NaN at its place and
    is left out of the running sum. *)
Fixpoint cumsum_from (acc : float) (l : list float) : list float :=
  match l with
  | [] => []
  | x :: l' =>
      if isnan x then NaN :: cumsum_from acc l'
      else (acc + x)%float :: cumsum_from (acc + x)%float l'
  end.

Definition cumsum (l : list float) : list float := cumsum_from f0 l.

(** [pct_change()]: undefined at the first entry, then the ratio to the
    previous entry minus one.  A NaN entry is not filled from the entry
    before it (the behaviour of [fill_method=None]); the two behaviours
    differ only on a Series that already holds NaN. *)
Fixpoint pct_from (prev : float) (l : list float) : list float :=
  match l with
  | [] => []
  | x :: l' => (x / prev - f1)%float :: pct_from x l'
  end.

Definition pct_change (l : list float) : list float :=
  match l with
  | [] => []
  | x :: l' => NaN :: pct_from x l'
  end.

Definition map_values {K} (f : float -> float) (s : Series K) : Series K :=
  map (fun e => (fst e, f (snd e))) s.

Definition with_values {K} (s : Series K) (vs : list float) : Series K :=
  combine (index s) vs.

Definition frame_map (f : float -> float) (fr : Frame) : Frame :=
  mkFrame (columns fr) (map (fun r => (fst r, map f (snd r))) (rows fr)).

(** Column-wise [cumsum()] of a table, row by row, with one running sum
    per column. *)
Definition cumsum_cell (acc x : float) : float * float :=
  if isnan x then (acc, NaN) else ((acc + x)%float, (acc + x)%float).

Fixpoint cumsum_rows (acc : list float) (rs : list (date * list float))
  : list (date * list float) :=
  match rs with
  | [] => []
  | (d, r) :: rs' =>
      let cells := map (fun p => cumsum_cell (fst p) (snd p)) (combine acc r) in
      (d, map snd cells) :: cumsum_rows (map fst cells) rs'
  end.

Definition frame_cumsum (fr : Frame) : Frame :=
  mkFrame (columns fr) (cumsum_rows (map (fun _ => f0) (columns fr)) (rows fr)).

(** [series * table]: the Series is matched to the table's columns by
    label.  A column the Series lacks, and a label of the Series the table
    lacks, give a column of NaN. *)
Definition weight_of (s : Series asset) (a : asset) : float :=
  match lookup s a with Some v => v | None => NaN end.

Definition mul_columns (s : Series asset) (fr : Frame) : Frame :=
  let extra := filter (fun k => negb (mem_asset k (columns fr))) (index s) in
  mkFrame (columns fr ++ extra)
    (map (fun r =>
            (fst r,
             map (fun p => (weight_of s (fst p) * snd p)%float)
                 (combine (columns fr) (snd r))
             ++ map (fun _ => NaN) extra))
         (rows fr)).

Definition frame_round (fr : Frame) (n : nat) : Frame :=
  frame_map (fun x => round x n) fr.

(** [sum(axis=1)]: one sum per date, NaN cells left out. *)
Definition sum_axis1 (fr : Frame) : Trajectory :=
  map (fun r => (fst r, nansum (snd r))) (rows fr).

(** The leverage adjustment of lines 61-63. *)
Definition leverage_adjust (np_log np_exp : float -> float)
  (balance kd : float) (balance_over_time : Trajectory) : Trajectory :=
  let balance_net_pct :=
    map (fun p => p - kd)%float (pct_change (values balance_over_time)) in
  let log_net_pct := map (fun p => np_log (f1 + p)%float) balance_net_pct in
  with_values balance_over_time
    (map (fun c => balance * np_exp c)%float (cumsum log_net_pct)).

Definition count_nan (l : list float) : nat := List.length (filter isnan l).

(** The object [balance_over_time] of one call. *)
Definition balance_ref : ref := 0%nat.

Section Simulator.

(** [np.log] and [np.exp]: library functions on doubles, kept abstract. *)
Variables np_log np_exp : float -> float.

Definition position_NAV_of (portfolio_weights : Series asset)
  (balance : float) (date_filtered_returns : Frame) : Frame :=
  let initial_portfolio :=
    map_values (fun w => w * balance)%float portfolio_weights in
  let cumulative_log_returns :=
    frame_cumsum (frame_map (fun r => np_log (f1 + r)%float)
                            date_filtered_returns) in
  frame_round (mul_columns initial_portfolio
                 (frame_map np_exp cumulative_log_returns)) 2.

(** [None] is the path through [except]: the error is logged and the
    function returns nothing. *)
Definition port_balance_calc (portfolio_weights : Series asset)
  (balance : float) (date_filtered_returns : Frame) (kd : float)
  : option (Trajectory * Series asset) :=
  if negb (Nat.eqb (List.length portfolio_weights)
                   (count_nan (values portfolio_weights))) then
    let position_NAV :=
      position_NAV_of portfolio_weights balance date_filtered_returns in
    let h := store_set empty_store balance_ref (sum_axis1 position_NAV) in
    let '(neg_check, h) := check_negative_balance balance_ref h in
    let balance_over_time :=
      if (f0 <? kd)%float && neg_check
      then leverage_adjust np_log np_exp balance kd (h balance_ref)
      else h balance_ref in
    match iloc_last balance_over_time with
    | None => None
    | Some (_, final_balance) =>
        match iloc_last (rows position_NAV) with
        | None => None
        | Some (_, last_row) =>
            let final_portfolio :=
              combine (columns position_NAV)
                      (map (fun v => v / final_balance)%float last_row) in
            Some (balance_over_time, final_portfolio)
        end
    end
  else
    let dates_index := dates date_filtered_returns in
    let balance_over_time := constant balance dates_index in
    let final_portfolio := constant f0 (index portfolio_weights) in
    Some (balance_over_time, final_portfolio).

End Simulator.

(** ** Rebalancing loop *)

(** [portfolios]: one column per rebalance, named by its timestamp, with a
    weight (possibly NaN) for every asset. *)
Definition Portfolios := list (date * Series asset).

Definition dropna {K} (s : Series K) : Series K :=
  filter (fun e => negb (isnan (snd e))) s.

(** [s[s != 0]]. *)
Definition nonzero {K} (s : Series K) : Series K :=
  filter (fun e => negb (snd e =? f0)%float) s.

Fixpoint position (a : asset) (cols : list asset) : option nat :=
  match cols with
  | [] => None
  | c :: cols' =>
      if String.eqb a c then Some O else option_map S (position a cols')
  end.

Fixpoint positions (labels cols : list asset) : option (list nat) :=
  match labels with
  | [] => Some []
  | a :: labels' =>
      match position a cols, positions labels' cols with
      | Some p, Some ps => Some (p :: ps)
      | _, _ => None
      end
  end.

(** [table[labels]]: the named columns in the order asked for; a label
    that is no column raises [KeyError]. *)
Definition select_columns (labels : list asset) (fr : Frame) : option Frame :=
  match positions labels (columns fr) with
  | None => None
  | Some ps =>
      Some (mkFrame labels
              (map (fun r => (fst r, map (fun p => nth p (snd r) NaN) ps))
                   (rows fr)))
  end.

(** [table.loc[a : b]] on a sorted date index: both ends included. *)
Definition loc_dates (a b : date) (fr : Frame) : Frame :=
  mkFrame (columns fr)
    (filter (fun r => (a <=? fst r)%Z && (fst r <=? b)%Z) (rows fr)).

(** [pct_change(fill_method=None)] of a table, column by column. *)
Fixpoint pct_rows (prev : list float) (rs : list (date * list float))
  : list (date * list float) :=
  match rs with
  | [] => []
  | (d, r) :: rs' =>
      (d, map (fun p => snd p / fst p - f1)%float (combine prev r))
      :: pct_rows r rs'
  end.

Definition frame_pct_change (fr : Frame) : Frame :=
  mkFrame (columns fr)
    match rows fr with
    | [] => []
    | (d, r) :: rs => (d, map (fun _ => NaN) r) :: pct_rows r rs
    end.

(** [dropna()] of a table: a row goes when any of its cells is NaN. *)
Definition frame_dropna (fr : Frame) : Frame :=
  mkFrame (columns fr)
    (filter (fun r => forallb (fun x => negb (isnan x)) (snd r)) (rows fr)).

(** [d[k] = v] on a dict: a new key goes last. *)
Fixpoint dict_set {V} (d : list (nat * V)) (k : nat) (v : V)
  : list (nat * V) :=
  match d with
  | [] => [(k, v)]
  | (k', v') :: d' =>
      if Nat.eqb k' k then (k, v) :: d' else (k', v') :: dict_set d' k v
  end.

(** The variables the loop of [get_balance] assigns.  [date_to] is unbound
    until its first assignment. *)
Record LoopState : Type := mkLoopState {
  all_dates_balance : list (nat * Trajectory);
  balance : float;
  returns_start_date : date;
  last_weights : Series asset;
  date_to : option date
}.

(** The variables a pass of the loop assigns on lines 125-133:
    [portfolio_weights], [date_filtered_returns], [reb_cost], [lev_cost]
    and [net_balance]. *)
Record PassLocals : Type := mkPassLocals {
  pass_weights : Series asset;
  pass_returns : Frame;
  pass_reb_cost : float;
  pass_lev_cost : float;
  pass_net_balance : float
}.

(** How one pass through the loop body ends: at its last statement, at
    [break], or in an exception nothing catches. *)
Inductive Flow : Type :=
| Next (st : LoopState)
| Break (st : LoopState)
| Crash.

Inductive DateStep : Type :=
| DateBreak
| DateTo (d : option date).

Section Orchestrator.

Variables np_log np_exp : float -> float.
Variable portfolios : Portfolios.
Variable end_date : date.
Variable sim_price_data : Frame.
Variables trans_cost annual_kd : float.
Variable n_rebalances : nat.

(** Lines 110-122.  Reading a column past the last one raises inside the
    [try]: the error is logged and [date_to] keeps what it had. *)
Definition set_date_to (reb_n : nat) (st : LoopState) : DateStep :=
  if (reb_n + 1 <? n_rebalances)%nat then
    match nth_error portfolios (reb_n + 1) with
    | Some next_port => DateTo (Some (fst next_port))
    | None => DateTo (date_to st)
    end
  else if Z.eqb (returns_start_date st) end_date then DateBreak
  else DateTo (Some end_date).

(** Line 107 and line 125: the target weights of rebalance [reb_n]. *)
Definition target_weights (col : date * Series asset) : Series asset :=
  nonzero (dropna (snd col)).

(** Line 126. *)
Definition returns_between (labels : list asset) (a b : date)
  : option Frame :=
  option_map
    (fun selected => frame_dropna (frame_pct_change (loc_dates a b selected)))
    (select_columns labels sim_price_data).

(** Lines 125-133: what a pass computes before it calls the simulator.
    [None]: the column selection raises. *)
Definition pass_locals (col : date * Series asset) (date_to : date)
  (st : LoopState) : option PassLocals :=
  let portfolio_weights := target_weights col in
  match returns_between (index portfolio_weights)
          (returns_start_date st) date_to with
  | None => None
  | Some date_filtered_returns =>
      let '(reb_cost, lev_cost) :=
        get_costs trans_cost portfolio_weights (last_weights st)
          annual_kd in
      let net_balance := get_net_balance (balance st) reb_cost in
      Some (mkPassLocals portfolio_weights date_filtered_returns
              reb_cost lev_cost net_balance)
  end.

Definition loop_body (reb_n : nat) (st : LoopState) : Flow :=
  match nth_error portfolios reb_n with
  | None => Crash
  | Some col =>
      match set_date_to reb_n st with
      | DateBreak => Break st
      | DateTo None => Crash
      | DateTo (Some date_to) =>
          match pass_locals col date_to st with
          | None => Crash
          | Some v =>
              match port_balance_calc np_log np_exp (pass_weights v)
                      (pass_net_balance v) (pass_returns v)
                      (pass_lev_cost v) with
              | None => Crash
              | Some (balance_df, last_weights) =>
                  match iloc_last balance_df with
                  | None => Crash
                  | Some (_, balance) =>
                      Next (mkLoopState
                              (dict_set (all_dates_balance st) reb_n balance_df)
                              balance date_to last_weights (Some date_to))
                  end
              end
          end
      end
  end.

Fixpoint for_loop (range : list nat) (st : LoopState) : option LoopState :=
  match range with
  | [] => Some st
  | reb_n :: range' =>
      match loop_body reb_n st with
      | Next st' => for_loop range' st'
      | Break st' => Some st'
      | Crash => None
      end
  end.

End Orchestrator.

(** [None]: the run ends in an exception and returns nothing.  Dates are
    plain dates throughout, so that the conversions [.date()] of lines 93
    and 113 do nothing. *)
Definition get_balance (np_log np_exp : float -> float)
  (starting_balance : float) (rebalance_dates : list date)
  (portfolios : Portfolios) (end_date : date) (sim_price_data : Frame)
  (trans_cost annual_kd : float) : option (list (nat * Trajectory)) :=
  match rebalance_dates with
  | [] => None
  | first_date :: _ =>
      let n_rebalances := List.length rebalance_dates in
      let st :=
        mkLoopState [] starting_balance first_date
          (constant f0 (columns sim_price_data)) None in
      option_map all_dates_balance
        (for_loop np_log np_exp portfolios end_date sim_price_data
           trans_cost annual_kd n_rebalances (seq 0 n_rebalances) st)
  end.

(** ** Stand-ins for [np.log] and [np.exp]

    To run the simulator on concrete inputs the two library functions are
    replaced by functions that return the binary64 number nearest to the
    logarithm and to the exponential of their argument, as a correctly
    rounded library does, with the library's special values:
    [log 0 = -inf], [log] of a negative number is NaN, [exp (-inf) = 0],
    NaN goes to NaN, and the exponential underflows to 0 and overflows to
    [inf] where the binary64 format does.  The functions are computed
    from their series in fixed point, to 200 binary digits, and rounded
    with the rounding of the IEEE specification of the Standard Library
    ([SpecFloat], precision 53, largest exponent 1024). *)

(** Fixed point: the integer [n] stands for [n / 2^200]. *)
Definition fx_bits : Z := 200.
Definition fx_one : Z := Z.shiftl 1 fx_bits.
Definition fx_mul (a b : Z) : Z := Z.shiftr (a * b) fx_bits.
Definition fx_of_Q (q : Q) : Z :=
  (Z.shiftl (Qnum q) fx_bits / Zpos (Qden q))%Z.

(** [z + z^3/3 + z^5/5 + ...], the inverse hyperbolic tangent; [zpow] is
    the current odd power of [z] and [k] its exponent. *)
Fixpoint atanh_series (fuel : nat) (k : Z) (zpow z2 : Z) : Z :=
  match fuel with
  | O => 0%Z
  | S fuel' =>
      (zpow / k + atanh_series fuel' (k + 2) (fx_mul zpow z2) z2)%Z
  end.

(** [log 2 = 2 atanh (1/3)]. *)
Definition fx_ln2 : Z :=
  Eval vm_compute in (2 * atanh_series 70 1 (fx_one / 3) (fx_one / 9))%Z.

(** The logarithm of a positive rational: [q = m * 2^k] with [m] between
    2/3 and 4/3, and [log q = k log 2 + 2 atanh ((m - 1) / (m + 1))]. *)
Definition fx_log (q : Q) : Z :=
  let n := Qnum q in
  let d := Zpos (Qden q) in
  let k0 := (Z.log2 n - Z.log2 d)%Z in
  let scale (k : Z) :=
    if (0 <=? k)%Z then (n, d * 2 ^ k)%Z else (n * 2 ^ (- k), d)%Z in
  let k :=
    if (3 * fst (scale k0) <? 2 * snd (scale k0))%Z then (k0 - 1)%Z
    else if (4 * snd (scale k0) <? 3 * fst (scale k0))%Z then (k0 + 1)%Z
    else k0 in
  let '(mn, md) := scale k in
  let z := (Z.shiftl (mn - md) fx_bits / (mn + md))%Z in
  (k * fx_ln2 + 2 * atanh_series 50 1 z (fx_mul z z))%Z.

(** [1 + r/i (1 + r/(i+1) (1 + ...))]: the exponential series from term
    [i] on. *)
Fixpoint exp_series (fuel : nat) (i : Z) (r : Z) : Z :=
  match fuel with
  | O => fx_one
  | S fuel' => (fx_one + fx_mul r (exp_series fuel' (i + 1) r) / i)%Z
  end.

(** The exponential of a rational [y = k log 2 + r] with [r] between
    [-(log 2)/2] and [(log 2)/2]: the pair [(e, k)] stands for
    [e * 2^(k - 200)]. *)
Definition fx_exp (y : Q) : Z * Z :=
  let yf := fx_of_Q y in
  let k := ((2 * yf + fx_ln2) / (2 * fx_ln2))%Z in
  let r := (yf - k * fx_ln2)%Z in
  (exp_series 60 1 r, k).

(** A binary64 number as a number of the model. *)
Definition of_binary64 (x : SpecFloat.spec_float) : float :=
  match x with
  | SpecFloat.S754_zero _ => f0
  | SpecFloat.S754_infinity s => if s then NInf else PInf
  | SpecFloat.S754_nan => NaN
  | SpecFloat.S754_finite s m e =>
      let v := match e with
               | Zneg p => Qmake (Zpos m) (Pos.shiftl 1 (Npos p))
               | _ => inject_Z (Zpos m * 2 ^ e)
               end in
      fin (if s then - v else v)
  end.

(** The binary64 number nearest to [m * 2^e], ties to even. *)
Definition to_binary64 (m e : Z) : float :=
  of_binary64 (SpecFloat.binary_normalize 53 1024 m e false).

Definition log_model (x : float) : float :=
  match x with
  | Fin q =>
      match Qsgn q with
      | Lt => NaN
      | Eq => NInf
      | Gt => to_binary64 (fx_log q) (- fx_bits)
      end
  | PInf => PInf
  | NInf => NaN
  | NaN => NaN
  end.

(** Below -746 the exponential is under half the smallest binary64
    number, above 710 it is over the largest. *)
Definition exp_model (x : float) : float :=
  match x with
  | Fin q =>
      if Qle_bool q (- 746) then f0
      else if Qle_bool 710 q then PInf
      else let '(e, k) := fx_exp q in to_binary64 e (k - fx_bits)
  | PInf => PInf
  | NInf => f0
  | NaN => NaN
  end.

(** ** The orchestrator as a fold

    The description of the loop: a state of three components, one
    transition per period, and the result the transitions build up. *)

Record OrchState : Type := mkOrchState {
  current_balance : float;
  current_weights : Series asset;
  period_start_date : date
}.

Inductive Orch : Type :=
| Running (st : OrchState) (result : list (nat * Trajectory))
| Finished (result : list (nat * Trajectory))
| Failed.

Section OrchestratorFold.

Variables np_log np_exp : float -> float.
Variable rebalance_dates : list date.
Variable portfolios : Portfolios.
Variable end_date : date.
Variable sim_price_data : Frame.
Variables trans_cost annual_kd : float.

(** The date of rebalance [i + 1] if there is one, else the end date of
    the simulation. *)
Definition period_end_date (i : nat) : date :=
  match nth_error rebalance_dates (S i) with
  | Some d => d
  | None => end_date
  end.

Definition is_final_period (i : nat) : bool :=
  Nat.eqb (S i) (List.length rebalance_dates).

Definition transition (acc : Orch) (i : nat) : Orch :=
  match acc with
  | Running st result =>
      let period_end := period_end_date i in
      if is_final_period i && Z.eqb (period_start_date st) period_end
      then Finished result
      else
        match nth_error portfolios i with
        | None => Failed
        | Some col =>
            let filtered_weights := nonzero (dropna (snd col)) in
            match returns_between sim_price_data (index filtered_weights)
                    (period_start_date st) period_end with
            | None => Failed
            | Some sliced_returns =>
                let costs :=
                  get_costs trans_cost filtered_weights (current_weights st)
                    annual_kd in
                let net_balance :=
                  get_net_balance (current_balance st) (fst costs) in
                match port_balance_calc np_log np_exp filtered_weights
                        net_balance sliced_returns (snd costs) with
                | None => Failed
                | Some (trajectory, ending_weights) =>
                    match iloc_last trajectory with
                    | None => Failed
                    | Some (_, last_value) =>
                        Running
                          (mkOrchState last_value ending_weights period_end)
                          (result ++ [(i, trajectory)])
                    end
                end
            end
        end
  | _ => acc
  end.

Definition orchestrate (starting_balance : float)
  : option (list (nat * Trajectory)) :=
  match rebalance_dates with
  | [] => None
  | first_rebalance_date :: _ =>
      let init :=
        mkOrchState starting_balance (constant f0 (columns sim_price_data))
          first_rebalance_date in
      match fold_left transition (seq 0 (List.length rebalance_dates))
              (Running init []) with
      | Running _ result | Finished result => Some result
      | Failed => None
      end
  end.

End OrchestratorFold.

(** ** Properties of trajectories *)

(** "Exactly 0": the test [x == 0]. *)
Definition is_zero (x : float) : Prop := (x =? f0)%float = true.

(** Once a value is [<= 0], every later value is exactly 0. *)
Definition ruin_permanent (l : list float) : Prop :=
  forall i j x y,
    nth_error l i = Some x -> nth_error l j = Some y -> (i < j)%nat ->
    (x <=? f0)%float = true -> is_zero y.

(** The cleaned trajectory in the words of its description: every value
    from the first one [<= 0] onward is 0. *)
Fixpoint zero_from_first_nonpos (s : Trajectory) : Trajectory :=
  match s with
  | [] => []
  | (d, x) :: s' =>
      if (x <=? f0)%float then constant f0 (d :: index s')
      else (d, x) :: zero_from_first_nonpos s'
  end.

(** The trajectory of a period before the leverage adjustment, as the
    guard leaves it, and the guard's flag. *)
Definition guarded_balance (np_log np_exp : float -> float)
  (portfolio_weights : Series asset) (balance : float)
  (date_filtered_returns : Frame) : bool * Trajectory :=
  let position_NAV :=
    position_NAV_of np_log np_exp portfolio_weights balance
      date_filtered_returns in
  let h := store_set empty_store balance_ref (sum_axis1 position_NAV) in
  let '(neg_check, h) := check_negative_balance balance_ref h in
  (neg_check, h balance_ref).

(** Every entry of the weight vector is undefined. *)
Definition all_nan (portfolio_weights : Series asset) : Prop :=
  Forall (fun w => isnan w = true) (values portfolio_weights).

(** An undefined weight: NaN or an infinity. *)
Definition undefined_weight (x : float) : bool := isnan x || isinf x.

(** ** Auxiliary notions of the proofs *)

(** The weight [align] leaves at a label. *)
Definition aligned_weight (s : Series asset) (k : asset) : float :=
  match lookup s k with
  | Some v => if isnan v then f0 else v
  | None => f0
  end.

(** One step of [nansum]. *)
Definition nansum_step (acc x : float) : float :=
  if isnan x then acc else (acc + x)%float.

(** A running sum of negative numbers is never positive. *)
Definition nonpos (x : float) : Prop :=
  x = NInf \/ exists q, x = Fin q /\ q <= 0.

(** What the guard leaves in the Series it was given. *)
Definition guard_clean (s : Trajectory) : Trajectory :=
  match filter (fun e => snd e <=? f0)%float s with
  | (first_zero_or_negative, _) :: _ =>
      set_from_label first_zero_or_negative f0 s
  | [] => s
  end.

(** [ruin_permanent], by recursion on the trajectory. *)
Fixpoint ruin_permanent_rec (l : list float) : Prop :=
  match l with
  | [] => True
  | x :: l' =>
      ((x <=? f0)%float = true -> Forall is_zero l') /\ ruin_permanent_rec l'
  end.

(** The trajectory a period returns is the leverage-adjusted one. *)
Definition leverage_adjusted (np_log np_exp : float -> float)
  (portfolio_weights : Series asset) (balance : float)
  (date_filtered_returns : Frame) (kd : float) : bool :=
  negb (Nat.eqb (List.length portfolio_weights)
                (count_nan (values portfolio_weights)))
  && (f0 <? kd)%float
  && fst (guarded_balance np_log np_exp portfolio_weights balance
            date_filtered_returns).

(** The last value of a trajectory is not [> 0]: it is [<= 0] or NaN. *)
Definition ends_ruined (t : Trajectory) : Prop :=
  exists d v, iloc_last t = Some (d, v) /\ (f0 <? v)%float = false.

(** A value the zero balance leaves in the NAV table: 0 or NaN. *)
Definition zero_or_nan (x : float) : Prop := x = f0 \/ x = NaN.

(** Ruin monotonicity of a whole result: in every trajectory a value
    [<= 0] is followed by zeros only, and a trajectory that holds a value
    [<= 0] is followed by trajectories of zeros only. *)
Definition ruin_monotone (result : list (nat * Trajectory)) : Prop :=
  (forall i t, In (i, t) result -> ruin_permanent (values t))
  /\ (forall i j ti tj,
        In (i, ti) result -> In (j, tj) result -> (i < j)%nat ->
        Exists (fun x => (x <=? f0)%float = true) (values ti) ->
        Forall is_zero (values tj)).

(** The loop variables and the state of the fold hold the same data, and
    the result so far has the keys [0 .. k-1] in this order. *)
Definition agrees (st : LoopState) (ost : OrchState)
  (res : list (nat * Trajectory)) (k : nat) : Prop :=
  balance st = current_balance ost
  /\ last_weights st = current_weights ost
  /\ returns_start_date st = period_start_date ost
  /\ all_dates_balance st = res
  /\ map fst res = seq 0 k.

Definition result_of (o : Orch) : option (list (nat * Trajectory)) :=
  match o with
  | Running _ result | Finished result => Some result
  | Failed => None
  end.

(** Every trajectory recorded after one that ends ruined is zero at every
    date. *)
Definition zero_after (res : list (nat * Trajectory)) : Prop :=
  forall i j ti tj,
    In (i, ti) res -> In (j, tj) res -> (i < j)%nat -> ends_ruined ti ->
    Forall (fun x => x = f0) (values tj).

(** The invariant of the loop for ruin: the keys recorded are
    [0 .. k-1], [zero_after] holds of the result so far, and once a
    recorded trajectory has ended ruined the balance carried on is not
    [> 0]. *)
Definition ruin_invariant (k : nat) (st : LoopState) : Prop :=
  map fst (all_dates_balance st) = seq 0 k
  /\ zero_after (all_dates_balance st)
  /\ (forall i ti, In (i, ti) (all_dates_balance st) -> ends_ruined ti ->
        (f0 <? balance st)%float = false).

(** ** Example inputs *)

Definition asset_A : asset := "A"%string.
Definition asset_B : asset := "B"%string.

(** Long 1.5, short 0.5. *)
Definition long_short : Series asset :=
  [(asset_A, Fin (3 # 2)); (asset_B, Fin (- (1 # 2)))].

Definition long_only : Series asset := [(asset_A, f1)].

(** Two dates, one asset: +10% then -50%. *)
Definition returns_up_down : Frame :=
  mkFrame [asset_A] [(1%Z, [Fin (1 # 10)]); (2%Z, [Fin (- (1 # 2))])].

(** One date on which the only asset loses everything. *)
Definition returns_wipeout : Frame :=
  mkFrame [asset_A] [(1%Z, [Fin (- (1))])].

(** Three dates, two assets; the second asset does not move. *)
Definition returns_falling : Frame :=
  mkFrame [asset_A; asset_B]
    [(1%Z, [f0; f0]);
     (2%Z, [Fin (- (1 # 4)); f0]);
     (3%Z, [Fin (- (4 # 15)); f0])].

(** A store with two objects. *)
Definition demo_store : Store :=
  store_set
    (store_set empty_store 1%nat [(1%Z, Fin 5)])
    0%nat [(1%Z, Fin 100); (2%Z, Fin (- (5))); (3%Z, Fin 7)].

(** Prices over five dates: asset A halves and then goes to nothing,
    asset B does not move. *)
Definition crash_prices : Frame :=
  mkFrame [asset_A; asset_B]
    [(0%Z, [Fin 100; Fin 100]);
     (1%Z, [Fin 50; Fin 100]);
     (2%Z, [f0; Fin 100]);
     (3%Z, [f0; Fin 100]);
     (4%Z, [f0; Fin 100])].

(** All in A at date 0, all in B at date 2. *)
Definition switch_portfolios : Portfolios :=
  [(0%Z, [(asset_A, f1); (asset_B, NaN)]);
   (2%Z, [(asset_A, NaN); (asset_B, f1)])].

(** Prices that do not move. *)
Definition flat_prices : Frame :=
  mkFrame [asset_A; asset_B]
    [(0%Z, [Fin 100; Fin 100]);
     (1%Z, [Fin 100; Fin 100]);
     (2%Z, [Fin 100; Fin 100]);
     (3%Z, [Fin 100; Fin 100]);
     (4%Z, [Fin 100; Fin 100])].

(** Long 12, short 11.5 at date 0; no position at date 2. *)
Definition leveraged_portfolios : Portfolios :=
  [(0%Z, [(asset_A, Fin 12); (asset_B, Fin (- (23 # 2)))]);
   (2%Z, [(asset_A, NaN); (asset_B, NaN)])].

(** ** Notions of the further properties *)

(** A number that is neither NaN nor negative. *)
Definition nonneg_num (x : float) : Prop :=
  isnan x = false /\ (x <? f0)%float = false.

(** A store with a clean price series and one of NaN only. *)
Definition guard_store : Store :=
  store_set
    (store_set empty_store 1%nat [(1%Z, NaN); (2%Z, NaN)])
    0%nat [(1%Z, Fin 3); (2%Z, NaN); (3%Z, Fin (- (2))); (4%Z, Fin 9)].

(** One date, two assets that do not move. *)
Definition returns_one_day : Frame :=
  mkFrame [asset_A; asset_B] [(1%Z, [f0; f0])].

(** A table with columns and no date. *)
Definition returns_no_date : Frame := mkFrame [asset_A; asset_B] [].

(** Every row of the table has one cell per column. *)
Definition well_shaped (fr : Frame) : Prop :=
  Forall (fun r => List.length (snd r) = List.length (columns fr)) (rows fr).

(** The dates of the price table between two dates, both included. *)
Definition window (prices : Frame) (a b : date) : list date :=
  filter (fun d => (a <=? d)%Z && (d <=? b)%Z) (dates prices).



(** A column that asks for an asset without prices. *)
Definition unknown_asset_portfolios : Portfolios :=
  [(0%Z, [(asset_A, f1); ("C"%string, f1)]);
   (2%Z, [(asset_A, f1); (asset_B, NaN)])].

(** The date at which period [k] of a run starts: the first rebalance
    date for the first period, the name of column [k] after it. *)
Definition period_start (rebalance_dates : list date)
  (portfolios : Portfolios) (k : nat) : option date :=
  match k with
  | O => hd_error rebalance_dates
  | S _ => option_map fst (nth_error portfolios k)
  end.

(** The date at which it ends: the name of the next column, and
    [end_date] for the last period. *)
Definition period_end (rebalance_dates : list date)
  (portfolios : Portfolios) (end_date : date) (k : nat) : option date :=
  if (k + 1 <? List.length rebalance_dates)%nat
  then option_map fst (nth_error portfolios (k + 1))
  else Some end_date.

(** The dates of the trajectory [t] are price dates of period [k]. *)
Definition within_period (rebalance_dates : list date)
  (portfolios : Portfolios) (end_date : date) (sim_price_data : Frame)
  (k : nat) (t : Trajectory) : Prop :=
  exists a b,
    period_start rebalance_dates portfolios k = Some a
    /\ period_end rebalance_dates portfolios end_date k = Some b
    /\ forall d, In d (index t) ->
         In d (dates sim_price_data) /\ (a <= d <= b)%Z.

(** What holds of the loop variables before pass [k]. *)
Definition run_shape (rebalance_dates : list date)
  (portfolios : Portfolios) (end_date : date) (sim_price_data : Frame)
  (k : nat) (st : LoopState) : Prop :=
  map fst (all_dates_balance st) = seq 0 k
  /\ ((k < List.length rebalance_dates)%nat ->
      period_start rebalance_dates portfolios k
      = Some (returns_start_date st))
  /\ (k = List.length rebalance_dates ->
      period_start rebalance_dates portfolios
        (List.length rebalance_dates - 1) <> Some end_date)
  /\ (forall i t, In (i, t) (all_dates_balance st) ->
        t <> []
        /\ within_period rebalance_dates portfolios end_date
             sim_price_data i t).

(** ** The leverage adjustment in the words of its description

    The net log return of a date: the percent change from the value of
    the date before, less the daily leverage cost, in log space. *)
Definition net_log_return (np_log : float -> float)
  (kd previous current : float) : float :=
  np_log (f1 + ((current / previous - f1) - kd))%float.

(** The net log returns of a trajectory, date by date.  The first date
    has no date before it: its percent change is undefined. *)
Definition net_log_returns (np_log : float -> float) (kd : float)
  (vs : list float) : list float :=
  map (fun i =>
         match i with
         | O => np_log (f1 + (NaN - kd))%float
         | S j => net_log_return np_log kd (nth j vs NaN) (nth i vs NaN)
         end)
      (seq 0 (List.length vs)).

(** The recomputed value of date [i]: the starting balance times the
    exponential of the sum of the net log returns up to that date, the
    undefined ones left out; where the net log return of the date itself
    is undefined, so is the sum. *)
Definition recomputed_value (np_log np_exp : float -> float)
  (balance kd : float) (vs : list float) (i : nat) : float :=
  let steps := net_log_returns np_log kd vs in
  (balance
   * np_exp (if isnan (nth i steps NaN) then NaN
             else nansum (firstn (S i) steps)))%float.

Definition recomputed (np_log np_exp : float -> float)
  (balance kd : float) (t : Trajectory) : Trajectory :=
  combine (index t)
    (map (recomputed_value np_log np_exp balance kd (values t))
       (seq 0 (List.length t))).

(** Long one asset and short the other for the same amount, then long
    only: the positions of the first period add up to nothing. *)
Definition hedged_portfolios : Portfolios :=
  [(0%Z, [(asset_A, f1); (asset_B, Fin (- (1)))]);
   (2%Z, [(asset_A, f1); (asset_B, NaN)])].

(** * Theorems *)

(** ** Arithmetic of the number model *)

Unset Implicit Arguments.

(** The loop body with the local variables of the pass written out. *)
Lemma loop_body_unfold (np_log np_exp : float -> float)
  (portfolios : Portfolios) (end_date : date) (sim_price_data : Frame)
  (trans_cost annual_kd : float) (n_rebalances reb_n : nat)
  (st : LoopState) :
  loop_body np_log np_exp portfolios end_date sim_price_data trans_cost
    annual_kd n_rebalances reb_n st
  = match nth_error portfolios reb_n with
    | None => Crash
    | Some col =>
        match set_date_to portfolios end_date n_rebalances reb_n st with
        | DateBreak => Break st
        | DateTo None => Crash
        | DateTo (Some date_to) =>
            match returns_between sim_price_data
                    (index (target_weights col))
                    (returns_start_date st) date_to with
            | None => Crash
            | Some date_filtered_returns =>
                let '(reb_cost, lev_cost) :=
                  get_costs trans_cost (target_weights col)
                    (last_weights st) annual_kd in
                match port_balance_calc np_log np_exp (target_weights col)
                        (get_net_balance (balance st) reb_cost)
                        date_filtered_returns lev_cost with
                | None => Crash
                | Some (balance_df, last_weights) =>
                    match iloc_last balance_df with
                    | None => Crash
                    | Some (_, balance) =>
                        Next (mkLoopState
                                (dict_set (all_dates_balance st) reb_n
                                   balance_df)
                                balance date_to last_weights (Some date_to))
                    end
                end
            end
        end
    end.
Proof.
  unfold loop_body, pass_locals.
  destruct (nth_error portfolios reb_n) as [col|]; [|reflexivity].
  destruct (set_date_to _ _ _ _ _) as [|[d|]]; try reflexivity.
  destruct (returns_between _ _ _ _) as [fr|]; [|reflexivity].
  now destruct (get_costs _ _ _ _) as [reb_cost lev_cost].
Qed.

#[local] Arguments Qred : simpl never.
#[local] Arguments Qplus : simpl never.
#[local] Arguments Qmult : simpl never.
#[local] Arguments Qopp : simpl never.
#[local] Arguments Qinv : simpl never.
#[local] Arguments Qabs : simpl never.
#[local] Arguments Qle_bool : simpl never.
#[local] Arguments Qeq_bool : simpl never.
#[local] Arguments inject_Z : simpl never.

Lemma fin_eq (a b : Q) : a == b -> fin a = fin b.
Proof. intro H. unfold fin. f_equal. now apply Qred_complete. Qed.

Lemma fin_zero (a : Q) : a == 0 -> fin a = f0.
Proof. intro H. now rewrite (fin_eq _ _ H). Qed.

Lemma Qsgn_gt (q : Q) : Qsgn q = Gt <-> 0 < q.
Proof.
  unfold Qsgn, Qlt. destruct q as [n d]. simpl.
  rewrite Z.compare_gt_iff. lia.
Qed.

Lemma Qsgn_lt (q : Q) : Qsgn q = Lt <-> q < 0.
Proof.
  unfold Qsgn, Qlt. destruct q as [n d]. simpl.
  rewrite Z.compare_lt_iff. lia.
Qed.

Lemma Qsgn_eq (q : Q) : Qsgn q = Eq <-> q == 0.
Proof.
  unfold Qsgn, Qeq. destruct q as [n d]. simpl.
  rewrite Z.compare_eq_iff. lia.
Qed.

Lemma Qsgn_comp (a b : Q) : a == b -> Qsgn a = Qsgn b.
Proof.
  intro H. destruct (Qsgn b) eqn:E.
  - apply Qsgn_eq. apply Qsgn_eq in E. now rewrite H.
  - apply Qsgn_lt. apply Qsgn_lt in E. now rewrite H.
  - apply Qsgn_gt. apply Qsgn_gt in E. now rewrite H.
Qed.

Lemma Qle_bool_false (a b : Q) : Qle_bool a b = false <-> b < a.
Proof.
  split; intro H.
  - apply Qnot_le_lt. intro L. apply Qle_bool_iff in L. congruence.
  - destruct (Qle_bool a b) eqn:E; [|reflexivity].
    apply Qle_bool_iff in E. exfalso. exact (Qlt_not_le _ _ H E).
Qed.

Lemma fltb_fin (a b : Q) : (Fin a <? Fin b)%float = true <-> a < b.
Proof.
  simpl. rewrite negb_true_iff. apply Qle_bool_false.
Qed.

Lemma fleb_fin (a b : Q) : (Fin a <=? Fin b)%float = true <-> a <= b.
Proof. simpl. apply Qle_bool_iff. Qed.

(** A value that is [<= 0] is not [> 0]. *)
Lemma fleb_not_fltb (x : float) :
  (x <=? f0)%float = true -> (f0 <? x)%float = false.
Proof.
  destruct x as [q| | |]; simpl; try reflexivity; try discriminate.
  intro H. now rewrite H.
Qed.

Lemma round_half_even_comp (a b : Q) :
  a == b -> round_half_even a = round_half_even b.
Proof.
  intro H. unfold round_half_even.
  rewrite (Qfloor_comp _ _ H).
  assert (E : a - inject_Z (Qfloor b) == b - inject_Z (Qfloor b))
    by now rewrite H.
  now rewrite (Qcompare_comp _ _ E _ _ (Qeq_refl (1 # 2))).
Qed.

Lemma round_comp (a b : Q) (n : nat) :
  a == b -> round (Fin a) n = round (Fin b) n.
Proof.
  intro H. unfold round.
  assert (E : a * scale10 n == b * scale10 n) by now rewrite H.
  now rewrite (round_half_even_comp _ _ E).
Qed.

Lemma round_zero (n : nat) : round f0 n = f0.
Proof.
  unfold round, f0. apply fin_zero.
  assert (E : 0 * scale10 n == 0) by ring.
  rewrite (round_half_even_comp _ _ E).
  unfold Qdiv. change (round_half_even 0) with 0%Z. ring.
Qed.

(** ** Cost model *)

Lemma one_minus_zero : (f1 - f0)%float = f1.
Proof. reflexivity. Qed.

Lemma fmul_one (x : float) (n : nat) :
  round (x * f1) n = round x n.
Proof.
  destruct x as [q| | |]; try reflexivity.
  unfold fmul, f1, fin. apply round_comp.
  rewrite Qred_correct. ring.
Qed.

(** C7. [get_net_balance] returns [round(balance * (1 - cost), 2)] for
    every balance [> 0] and exactly 0 for every balance [<= 0], whatever
    the cost; in particular a zero cost gives [round(balance, 2)] for every
    balance [> 0]. *)
Theorem get_net_balance_spec (balance cost_fraction : float) :
  ((f0 <? balance)%float = true ->
     get_net_balance balance cost_fraction
     = round (balance * (f1 - cost_fraction)) 2)
  /\ ((balance <=? f0)%float = true ->
        get_net_balance balance cost_fraction = f0)
  /\ ((f0 <? balance)%float = true ->
        get_net_balance balance f0 = round balance 2).
Proof.
  unfold get_net_balance. repeat split; intro H.
  - now rewrite H.
  - now rewrite (fleb_not_fltb _ H).
  - rewrite H, one_minus_zero. apply fmul_one.
Qed.

Lemma get_net_balance_spec_witness :
  get_net_balance (Fin 550) (Fin (1 # 50)) = Fin 539
  /\ get_net_balance (Fin (-3)) (Fin (1 # 50)) = f0
  /\ get_net_balance (Fin (1234567 # 1000)) f0 = Fin (123457 # 100).
Proof.
  destruct (get_net_balance_spec (Fin 550) (Fin (1 # 50))) as [H1 _].
  destruct (get_net_balance_spec (Fin (-3)) (Fin (1 # 50))) as [_ [H2 _]].
  destruct (get_net_balance_spec (Fin (1234567 # 1000)) f0) as [_ [_ H3]].
  split; [|split].
  - rewrite H1; reflexivity.
  - rewrite H2; reflexivity.
  - rewrite H3; reflexivity.
Defined.

Lemma nansum_fold (l : list float) : nansum l = fold_left nansum_step l f0.
Proof. reflexivity. Qed.

Lemma fpos_cases (x : float) :
  (f0 <? x)%float = true <-> x = PInf \/ exists q, x = Fin q /\ 0 < q.
Proof.
  split.
  - destruct x as [q| | |]; try discriminate; [|now left].
    intro H. right. exists q. split; [reflexivity|]. now apply fltb_fin.
  - intros [->|[q [-> H]]]; [reflexivity|]. now apply fltb_fin.
Qed.

Lemma fneg_cases (x : float) :
  (x <? f0)%float = true <-> x = NInf \/ exists q, x = Fin q /\ q < 0.
Proof.
  split.
  - destruct x as [q| | |]; try discriminate; [|now left].
    intro H. right. exists q. split; [reflexivity|]. now apply fltb_fin.
  - intros [->|[q [-> H]]]; [reflexivity|]. now apply fltb_fin.
Qed.

Lemma fneg_nonpos (x : float) : (x <? f0)%float = true -> nonpos x.
Proof.
  intro H. apply fneg_cases in H. destruct H as [->|[q [-> H]]].
  - now left.
  - right. exists q. split; [reflexivity|]. now apply Qlt_le_weak.
Qed.

Lemma fadd_nonpos_neg (acc x : float) :
  nonpos acc -> (x <? f0)%float = true -> ((acc + x) <? f0)%float = true.
Proof.
  intros Ha Hx. apply fneg_cases in Hx. apply fneg_cases.
  destruct Ha as [->|[a [-> Ha]]], Hx as [->|[b [-> Hb]]];
    try (now left).
  right. exists (Qred (a + b)). split; [reflexivity|].
  rewrite Qred_correct.
  apply Qlt_le_trans with (a + 0).
  - apply Qplus_lt_r. exact Hb.
  - rewrite Qplus_0_r. exact Ha.
Qed.

Lemma fabs_fadd_nonpos (acc x : float) :
  nonpos acc -> (x <? f0)%float = true ->
  fabs (acc + x) = (fabs acc + fabs x)%float.
Proof.
  intros Ha Hx. apply fneg_cases in Hx.
  destruct Ha as [->|[a [-> Ha]]], Hx as [->|[b [-> Hb]]];
    try reflexivity.
  simpl. apply fin_eq. rewrite !Qred_correct.
  rewrite !Qabs_neg; [ring| |exact Ha|].
  - now apply Qlt_le_weak.
  - apply Qle_trans with (a + 0).
    + apply Qplus_le_r. now apply Qlt_le_weak.
    + rewrite Qplus_0_r. exact Ha.
Qed.

Lemma fneg_not_nan (x : float) : (x <? f0)%float = true -> isnan x = false.
Proof. destruct x; simpl; congruence. Qed.

Lemma fabs_not_nan (x : float) : isnan (fabs x) = isnan x.
Proof. now destruct x. Qed.

Lemma fabs_nansum_neg (l : list float) :
  Forall (fun w => (w <? f0)%float = true) l ->
  forall acc, nonpos acc ->
    fabs (fold_left nansum_step l acc)
    = fold_left nansum_step (map fabs l) (fabs acc).
Proof.
  induction 1 as [|x l Hx Hl IH]; intros acc Hacc; [reflexivity|].
  simpl. unfold nansum_step at 2 4.
  rewrite fabs_not_nan, (fneg_not_nan _ Hx).
  rewrite <- (fabs_fadd_nonpos acc x Hacc Hx).
  apply IH. apply fneg_nonpos. now apply fadd_nonpos_neg.
Qed.

Lemma nansum_neg_from (l : list float) :
  Forall (fun w => (w <? f0)%float = true) l ->
  forall acc, (acc <? f0)%float = true ->
    (fold_left nansum_step l acc <? f0)%float = true.
Proof.
  induction 1 as [|x l Hx Hl IH]; intros acc Hacc; [exact Hacc|].
  simpl. apply IH. unfold nansum_step. rewrite (fneg_not_nan _ Hx).
  apply fadd_nonpos_neg; [now apply fneg_nonpos|exact Hx].
Qed.

Lemma nansum_neg (l : list float) :
  Forall (fun w => (w <? f0)%float = true) l -> l <> [] ->
  (nansum l <? f0)%float = true.
Proof.
  intros Hl Hne. destruct Hl as [|x l Hx Hl]; [congruence|].
  rewrite nansum_fold. simpl. apply nansum_neg_from; [exact Hl|].
  unfold nansum_step. rewrite (fneg_not_nan _ Hx).
  apply fadd_nonpos_neg; [|exact Hx].
  right. exists 0. split; [reflexivity|]. apply Qle_refl.
Qed.

Lemma fabs_neg_pos (x : float) :
  (x <? f0)%float = true -> (f0 <? fabs x)%float = true.
Proof.
  intro H. apply fneg_cases in H. apply fpos_cases.
  destruct H as [->|[q [-> H]]]; [now left|].
  right. exists (Qred (Qabs q)). split; [reflexivity|].
  rewrite Qred_correct, Qabs_neg by now apply Qlt_le_weak.
  now apply (Qopp_lt_compat q 0).
Qed.

Lemma fmul_pos (x y : float) :
  (f0 <? x)%float = true -> (f0 <? y)%float = true ->
  (f0 <? x * y)%float = true.
Proof.
  intros Hx Hy. apply fpos_cases in Hx, Hy. apply fpos_cases.
  destruct Hx as [->|[a [-> Ha]]], Hy as [->|[b [-> Hb]]]; simpl.
  - now left.
  - left. unfold inf_times. apply Qsgn_gt in Hb. now rewrite Hb.
  - left. unfold inf_times. apply Qsgn_gt in Ha. now rewrite Ha.
  - right. exists (Qred (a * b)). split; [reflexivity|].
    rewrite Qred_correct. now apply Qmult_lt_0_compat.
Qed.

Lemma fdiv_pos_days (x : float) (d : positive) :
  (f0 <? x)%float = true ->
  (f0 <? x / Fin (inject_Z (Zpos d)))%float = true.
Proof.
  intro Hx. apply fpos_cases in Hx. apply fpos_cases.
  destruct Hx as [->|[a [-> Ha]]]; simpl.
  - now left.
  - right. exists (Qred (a / inject_Z (Zpos d))). split; [reflexivity|].
    rewrite Qred_correct. apply Qlt_shift_div_l; [reflexivity|].
    now rewrite Qmult_0_l.
Qed.

Lemma filter_nil_of_Forall {A} (f : A -> bool) {l : list A} :
  Forall (fun x => f x = false) l -> filter f l = [].
Proof.
  induction 1 as [|x l Hx Hl IH]; [reflexivity|].
  simpl. now rewrite Hx.
Qed.

Lemma filter_Forall {A} (f : A -> bool) (l : list A) :
  Forall (fun x => f x = true) (filter f l).
Proof.
  induction l as [|x l IH]; simpl; [constructor|].
  destruct (f x) eqn:E; [constructor|]; assumption.
Qed.

Lemma filter_nonempty {A} (f : A -> bool) (l : list A) :
  Exists (fun x => f x = true) l -> filter f l <> [].
Proof.
  induction 1 as [x l Hx|x l Hl IH]; simpl.
  - now rewrite Hx.
  - destruct (f x); [discriminate|exact IH].
Qed.

Lemma fpos_not_negative (x : float) :
  (f0 <? x)%float = true -> (x <? f0)%float = false.
Proof.
  intro H. apply fpos_cases in H. destruct H as [->|[q [-> Hq]]];
    [reflexivity|].
  simpl. apply negb_false_iff, Qle_bool_iff. now apply Qlt_le_weak.
Qed.

Lemma leverage_cost_not_negative (annual : float) (w : Series asset)
  (days : positive) :
  (calculate_leverage_costs annual w days <? f0)%float = false.
Proof.
  unfold calculate_leverage_costs.
  destruct (f0 <? annual)%float eqn:Ea; [|reflexivity].
  destruct (f0 <? fabs _)%float eqn:Ed; [|reflexivity].
  apply fpos_not_negative.
  exact (fmul_pos _ _ (fdiv_pos_days _ days Ea) Ed).
Qed.

(** C6, as the code has it.  [calculate_leverage_costs] returns 0 when
    the annual rate is [<= 0] and when no weight is negative; with a rate
    [> 0] and a negative weight it returns
    [(rate / days_in_year) * exposure], the exposure being the sum of the
    absolute values of the negative weights, and that value is never
    negative.  It is not always [> 0]: see [leverage_cost_underflow]. *)
Theorem calculate_leverage_costs_spec
  (annual_rate : float) (weights : Series asset) (days_in_year : positive) :
  ((annual_rate <=? f0)%float = true ->
     calculate_leverage_costs annual_rate weights days_in_year = f0)
  /\ (Forall (fun w => (w <? f0)%float = false) (values weights) ->
        calculate_leverage_costs annual_rate weights days_in_year = f0)
  /\ ((f0 <? annual_rate)%float = true ->
      Exists (fun w => (w <? f0)%float = true) (values weights) ->
        calculate_leverage_costs annual_rate weights days_in_year
        = (annual_rate / Fin (inject_Z (Zpos days_in_year))
           * exposure weights)%float
        /\ (calculate_leverage_costs annual_rate weights days_in_year
            <? f0)%float = false).
Proof.
  split; [|split].
  - intro H. unfold calculate_leverage_costs.
    now rewrite (fleb_not_fltb _ H).
  - intro H. unfold calculate_leverage_costs.
    rewrite (filter_nil_of_Forall _ H).
    change (f0 <? fabs (nansum []))%float with false.
    now destruct (f0 <? annual_rate)%float.
  - intros Hrate Hneg. split; [|apply leverage_cost_not_negative].
    unfold calculate_leverage_costs, exposure. rewrite Hrate.
    set (negs := filter (fun w => (w <? f0)%float) (values weights)).
    assert (Hall : Forall (fun w => (w <? f0)%float = true) negs)
      by apply filter_Forall.
    assert (Hne : negs <> []) by now apply filter_nonempty.
    assert (Hsum : (nansum negs <? f0)%float = true) by now apply nansum_neg.
    rewrite (fabs_neg_pos _ Hsum).
    assert (Habs : fabs (nansum negs) = nansum (map fabs negs)).
    { rewrite !nansum_fold. rewrite fabs_nansum_neg; [reflexivity|exact Hall|].
      right. exists 0. split; [reflexivity|apply Qle_refl]. }
    now rewrite Habs.
Qed.

(** C6, counterexample.  On the program's numbers a rate [> 0] and a
    negative weight can give exactly 0: at the smallest positive rate the
    quotient [rate / 360] is below half the smallest positive double and
    is rounded to 0, and 0 times the exposure is 0. *)
Lemma leverage_cost_underflow :
  Binary64.ltb Binary64.zero Binary64.smallest_positive = true
  /\ Exists (fun w => Binary64.ltb w Binary64.zero = true)
            (map snd [(asset_A, Binary64.of_Z (- 1))])
  /\ Binary64.calculate_leverage_costs Binary64.smallest_positive
       [(asset_A, Binary64.of_Z (- 1))] 360
     = Binary64.zero
  /\ Binary64.ltb Binary64.zero
       (Binary64.calculate_leverage_costs Binary64.smallest_positive
          [(asset_A, Binary64.of_Z (- 1))] 360)
     = false.
Proof.
  split; [reflexivity|]. split; [left; reflexivity|].
  split; vm_compute; reflexivity.
Qed.

Lemma values_zip_align (f : float -> float -> float)
  (a b : Series asset) (idx : list asset) :
  values (zip_with f (fillna f0 (reindex idx a)) (fillna f0 (reindex idx b)))
  = map (fun k => f (aligned_weight a k) (aligned_weight b k)) idx.
Proof.
  unfold values, zip_with, fillna, reindex, aligned_weight.
  induction idx as [|k idx IH]; [reflexivity|].
  cbn [map combine fst snd]. f_equal; [|exact IH].
  now destruct (lookup a k), (lookup b k).
Qed.

Lemma inf_times_pos (s : bool) (q : Q) :
  0 < q -> inf_times s q = if s then PInf else NInf.
Proof. intro H. unfold inf_times. apply Qsgn_gt in H. now rewrite H. Qed.

Lemma lookup_unique (s : Series asset) (k : asset) (v : float) :
  NoDup (index s) -> In (k, v) s -> lookup s k = Some v.
Proof.
  unfold lookup. induction s as [|[k0 v0] s IH]; intros Hnd Hin;
    [destruct Hin|].
  cbn [index map fst] in Hnd.
  pose proof (NoDup_cons_iff k0 (map fst s)) as [Hc _].
  destruct (Hc Hnd) as [Hnotin Hnd'].
  cbn [find fst]. destruct (String.eqb k k0) eqn:E.
  - apply String.eqb_eq in E. subst k0. destruct Hin as [Heq|Hin].
    + now injection Heq as ->.
    + exfalso. apply Hnotin. now apply (in_map fst) in Hin.
  - destruct Hin as [Heq|Hin].
    + injection Heq as -> _. now rewrite String.eqb_refl in E.
    + now apply IH.
Qed.

Lemma aligned_weight_spec (s : Series asset) (k : asset) :
  aligned_weight s k = weight_or_zero s k.
Proof.
  unfold aligned_weight, lookup.
  induction s as [|[k0 v0] s IH]; [reflexivity|].
  cbn [find fst weight_or_zero]. rewrite (String.eqb_sym k0 k).
  destruct (String.eqb k k0); [now destruct v0|exact IH].
Qed.

Lemma aligned_weight_own (s : Series asset) (e : asset * float) :
  NoDup (index s) -> In e s ->
  aligned_weight s (fst e) = defined_or_zero (snd e).
Proof.
  intros Hnd Hin. destruct e as [k v]. unfold aligned_weight. cbn [fst snd].
  rewrite (lookup_unique s k v Hnd Hin). now destruct v.
Qed.

Lemma holds_asset_mem (s : Series asset) (k : asset) :
  mem_asset k (index s) = holds_asset s k.
Proof.
  unfold mem_asset, holds_asset, index.
  induction s as [|[k0 v0] s IH]; [reflexivity|].
  cbn [map existsb fst]. now rewrite IH, (String.eqb_sym k0 k).
Qed.

Lemma aligned_weight_missing (s : Series asset) (k : asset) :
  holds_asset s k = false -> aligned_weight s k = f0.
Proof.
  rewrite aligned_weight_spec. unfold holds_asset.
  induction s as [|[k0 v0] s IH]; [reflexivity|].
  cbn [existsb fst weight_or_zero]. intro H.
  apply orb_false_iff in H. destruct H as [H1 H2].
  rewrite H1. now apply IH.
Qed.

Lemma filter_index (p : asset -> bool) (s : Series asset) :
  filter p (index s) = index (filter (fun e => p (fst e)) s).
Proof.
  unfold index. induction s as [|[k v] s IH]; [reflexivity|].
  cbn [map filter fst]. destruct (p k); cbn [map fst]; now rewrite IH.
Qed.

(** What the code sums, label by label of the aligned vectors, is what
    the description sums, asset by asset. *)
Lemma aligned_differences (a b : Series asset) :
  NoDup (index a) -> NoDup (index b) ->
  map (fun k => fabs (aligned_weight a k - aligned_weight b k)%float)
      (union_index a b)
  = weight_differences a b.
Proof.
  intros Ha Hb. unfold union_index, weight_differences.
  rewrite map_app. f_equal.
  - unfold index. rewrite map_map. apply map_ext_in. intros e He.
    now rewrite (aligned_weight_own a e Ha He), aligned_weight_spec.
  - rewrite filter_index. unfold index. rewrite map_map.
    rewrite (filter_ext (fun e => negb (mem_asset (fst e) (map fst a)))
               (fun e => negb (holds_asset a (fst e)))).
    2:{ intro e. f_equal. apply holds_asset_mem. }
    apply map_ext_in. intros e He. apply filter_In in He.
    destruct He as [He Hno]. apply negb_true_iff in Hno.
    now rewrite (aligned_weight_missing a (fst e) Hno),
      (aligned_weight_own b e Hb He).
Qed.

(** C5. With a cost rate [<= 0] the rebalance cost of [get_costs] is 0
    whatever the weights.  With any other rate it is the sum, over the
    union of the asset identifiers of the two weight vectors, of the
    absolute weight differences, each times the rate, rounded to 6
    decimals; a weight that is missing or NaN counts as 0.  The asset
    identifiers of a weight vector are unique. *)
Theorem rebalance_cost_spec
  (current_weights previous_weights : Series asset)
  (cost_rate annual_kd : float) :
  NoDup (index current_weights) -> NoDup (index previous_weights) ->
  ((cost_rate <=? f0)%float = true ->
     fst (get_costs cost_rate current_weights previous_weights annual_kd)
     = f0)
  /\ ((cost_rate <=? f0)%float = false ->
        fst (get_costs cost_rate current_weights previous_weights annual_kd)
        = round
            (nansum
               (map (fun d => d * cost_rate)%float
                  (weight_differences current_weights previous_weights)))
            6).
Proof.
  intros Hc Hp. unfold get_costs. split; intro H; cbn [fst]; rewrite H.
  - reflexivity.
  - unfold calculate_rebalance_cost, align.
    rewrite values_zip_align.
    now rewrite (aligned_differences _ _ Hc Hp).
Qed.

(** Two assets held before and after, one of them at an undefined weight
    before, and one asset left: the differences are 1, 0.25 and 0.5, and
    1% of their sum is 0.0175.  The last scenario of the description:
    from all in A to all in B the turnover is 2 and the cost 0.02. *)
Lemma rebalance_cost_spec_witness :
  fst (get_costs f0 [(asset_A, f1); (asset_B, Fin (1 # 2))]
         [(asset_A, NaN); (asset_B, Fin (1 # 4)); ("C"%string, Fin (1 # 2))]
         f0) = f0
  /\ fst (get_costs (Fin (1 # 100)) [(asset_A, f1); (asset_B, Fin (1 # 2))]
            [(asset_A, NaN); (asset_B, Fin (1 # 4));
             ("C"%string, Fin (1 # 2))] f0)
     = Fin (7 # 400)
  /\ fst (get_costs (Fin (1 # 100)) [(asset_A, f0); (asset_B, f1)]
            long_only f0)
     = Fin (1 # 50).
Proof.
  assert (N2 : NoDup [asset_A; asset_B])
    by (repeat constructor; simpl; intuition discriminate).
  assert (N3 : NoDup [asset_A; asset_B; "C"%string])
    by (repeat constructor; simpl; intuition discriminate).
  assert (N1 : NoDup [asset_A])
    by (repeat constructor; simpl; intuition discriminate).
  split; [|split].
  - exact (proj1 (rebalance_cost_spec
                    [(asset_A, f1); (asset_B, Fin (1 # 2))]
                    [(asset_A, NaN); (asset_B, Fin (1 # 4));
                     ("C"%string, Fin (1 # 2))] f0 f0 N2 N3) eq_refl).
  - rewrite (proj2 (rebalance_cost_spec
                      [(asset_A, f1); (asset_B, Fin (1 # 2))]
                      [(asset_A, NaN); (asset_B, Fin (1 # 4));
                       ("C"%string, Fin (1 # 2))] (Fin (1 # 100)) f0 N2 N3)
               eq_refl).
    vm_compute. reflexivity.
  - rewrite (proj2 (rebalance_cost_spec [(asset_A, f0); (asset_B, f1)]
                      long_only (Fin (1 # 100)) f0 N2 N1) eq_refl).
    vm_compute. reflexivity.
Defined.

Lemma calculate_leverage_costs_spec_witness :
  calculate_leverage_costs (Fin (- (1))) long_short 360 = f0
  /\ calculate_leverage_costs (Fin (36 # 1000)) long_only 360 = f0
  /\ calculate_leverage_costs (Fin (36 # 1000)) long_short 360
     = Fin (1 # 20000).
Proof.
  split; [|split].
  - apply (proj1 (calculate_leverage_costs_spec (Fin (- (1))) long_short 360)).
    reflexivity.
  - apply (proj1 (proj2 (calculate_leverage_costs_spec
                           (Fin (36 # 1000)) long_only 360))).
    repeat constructor.
  - destruct (proj2 (proj2 (calculate_leverage_costs_spec
                              (Fin (36 # 1000)) long_short 360)))
      as [E _].
    + reflexivity.
    + apply Exists_cons_tl, Exists_cons_hd. reflexivity.
    + rewrite E. reflexivity.
Defined.

(** ** Balance depletion guard *)

Lemma store_get_set_same (h : Store) (r : ref) (s : Trajectory) :
  store_set h r s r = s.
Proof. unfold store_set. now rewrite Nat.eqb_refl. Qed.

Lemma store_get_set_other (h : Store) (r r' : ref) (s : Trajectory) :
  r' <> r -> store_set h r s r' = h r'.
Proof.
  intro H. unfold store_set. apply Nat.eqb_neq in H. now rewrite H.
Qed.

Lemma check_negative_balance_clean (series : ref) (h : Store) :
  snd (check_negative_balance series h) series = guard_clean (h series).
Proof.
  unfold check_negative_balance, guard_clean.
  destruct (filter _ (h series)) as [|[d x] rest]; simpl; [reflexivity|].
  apply store_get_set_same.
Qed.

Lemma check_negative_balance_other (series : ref) (h : Store) (r : ref) :
  r <> series -> snd (check_negative_balance series h) r = h r.
Proof.
  intro H. unfold check_negative_balance.
  destruct (filter _ (h series)) as [|[d x] rest]; simpl; [reflexivity|].
  now apply store_get_set_other.
Qed.

Lemma filter_nonpos_nil (s : Trajectory) :
  filter (fun e => snd e <=? f0)%float s = [] <->
  existsb (fun v => v <=? f0)%float (values s) = false.
Proof.
  induction s as [|[d x] s IH]; simpl; [tauto|].
  destruct (x <=? f0)%float; simpl; [split; discriminate|exact IH].
Qed.

Lemma check_negative_balance_flag (series : ref) (h : Store) :
  fst (check_negative_balance series h)
  = negb (existsb (fun v => v <=? f0)%float (values (h series))).
Proof.
  unfold check_negative_balance.
  destruct (filter _ (h series)) as [|[d x] rest] eqn:E; simpl.
  - apply filter_nonpos_nil in E. now rewrite E.
  - destruct (existsb _ (values (h series))) eqn:X; [reflexivity|].
    apply filter_nonpos_nil in X. congruence.
Qed.

Lemma filter_head_in {A} {f : A -> bool} {l : list A} {x : A} {rest : list A} :
  filter f l = x :: rest -> In x l.
Proof.
  intro H. assert (I : In x (filter f l)) by (rewrite H; now left).
  now apply filter_In in I.
Qed.

(** On an index without repeated dates the guard zeroes exactly from the
    first value [<= 0]. *)
Lemma guard_clean_unique (s : Trajectory) :
  NoDup (index s) -> guard_clean s = zero_from_first_nonpos s.
Proof.
  unfold guard_clean.
  induction s as [|[d x] s IH]; intro ND; [reflexivity|].
  simpl in ND. inversion ND as [|? ? Hnot ND']; subst.
  simpl. destruct (x <=? f0)%float eqn:E.
  - simpl. now rewrite Z.eqb_refl.
  - specialize (IH ND').
    destruct (filter _ s) as [|[d' x'] rest] eqn:F.
    + now rewrite <- IH.
    + simpl. assert (Hd : Z.eqb d d' = false).
      { apply Z.eqb_neq. intros ->. apply Hnot.
        apply filter_head_in in F. unfold index.
        now apply (in_map fst) in F. }
      rewrite Hd. now rewrite <- IH.
Qed.

Lemma zero_from_first_nonpos_id (s : Trajectory) :
  existsb (fun v => v <=? f0)%float (values s) = false ->
  zero_from_first_nonpos s = s.
Proof.
  induction s as [|[d x] s IH]; simpl; [reflexivity|].
  destruct (x <=? f0)%float; simpl; [discriminate|].
  intro H. now rewrite IH.
Qed.

Lemma all_pos_no_nonpos (l : list float) :
  Forall (fun v => (f0 <? v)%float = true) l ->
  existsb (fun v => v <=? f0)%float l = false.
Proof.
  induction 1 as [|x l Hx Hl IH]; [reflexivity|].
  simpl. rewrite IH, orb_false_r.
  destruct (x <=? f0)%float eqn:E; [|reflexivity].
  apply fleb_not_fltb in E. congruence.
Qed.

(** C10. [check_negative_balance] returns the flag alone and leaves its
    result in the Series it was given: after the call that Series is the
    trajectory zeroed from the first value [<= 0] onward, every other
    object is as before, the flag says that no value was [<= 0], and when
    every value is [> 0] nothing in the store has changed. *)
Theorem check_negative_balance_in_place (series : ref) (h : Store) :
  NoDup (index (h series)) ->
  let flag := fst (check_negative_balance series h) in
  let h' := snd (check_negative_balance series h) in
  h' series = zero_from_first_nonpos (h series)
  /\ (forall r, r <> series -> h' r = h r)
  /\ flag = negb (existsb (fun v => v <=? f0)%float (values (h series)))
  /\ (Forall (fun v => (f0 <? v)%float = true) (values (h series)) ->
        flag = true /\ forall r, h' r = h r).
Proof.
  intros ND flag h'. subst flag h'.
  split; [|split; [|split]].
  - rewrite check_negative_balance_clean. now apply guard_clean_unique.
  - intros r Hr. now apply check_negative_balance_other.
  - apply check_negative_balance_flag.
  - intro Hpos. apply all_pos_no_nonpos in Hpos.
    split; [now rewrite check_negative_balance_flag, Hpos|].
    intro r. destruct (Nat.eq_dec r series) as [->|Hr].
    + rewrite check_negative_balance_clean, (guard_clean_unique _ ND).
      now apply zero_from_first_nonpos_id.
    + now apply check_negative_balance_other.
Qed.

Lemma check_negative_balance_in_place_witness :
  snd (check_negative_balance 0%nat demo_store) 0%nat
  = [(1%Z, Fin 100); (2%Z, f0); (3%Z, f0)]
  /\ snd (check_negative_balance 0%nat demo_store) 1%nat = [(1%Z, Fin 5)]
  /\ fst (check_negative_balance 0%nat demo_store) = false
  /\ snd (check_negative_balance 1%nat demo_store) 1%nat = [(1%Z, Fin 5)].
Proof.
  assert (ND0 : NoDup (index (demo_store 0%nat))).
  { repeat constructor; simpl; intuition discriminate. }
  assert (ND1 : NoDup (index (demo_store 1%nat))).
  { repeat constructor; simpl; intuition discriminate. }
  destruct (check_negative_balance_in_place 0%nat demo_store ND0)
    as [H1 [H2 [H3 _]]].
  destruct (check_negative_balance_in_place 1%nat demo_store ND1)
    as [_ [_ [_ H4]]].
  split; [|split; [|split]].
  - rewrite H1. reflexivity.
  - rewrite H2; [reflexivity|discriminate].
  - rewrite H3. reflexivity.
  - destruct H4 as [_ H4]; [repeat constructor|]. rewrite H4. reflexivity.
Defined.

(** ** Period balance simulator *)

Lemma count_nan_all (l : list float) :
  Forall (fun w => isnan w = true) l <-> count_nan l = List.length l.
Proof.
  unfold count_nan. induction l as [|x l IH]; simpl.
  - split; [reflexivity|constructor].
  - destruct (isnan x) eqn:E; simpl.
    + split.
      * intro H. inversion H; subst. f_equal. now apply IH.
      * intro H. injection H as H. constructor; [exact E|now apply IH].
    + split.
      * intro H. inversion H; congruence.
      * intro H. pose proof (filter_length_le isnan l). lia.
Qed.

Lemma all_nan_test (w : Series asset) :
  all_nan w <-> Nat.eqb (List.length w) (count_nan (values w)) = true.
Proof.
  unfold all_nan. rewrite count_nan_all, Nat.eqb_eq.
  unfold values. rewrite length_map. split; congruence.
Qed.

Lemma not_all_nan_test (w : Series asset) :
  ~ all_nan w <-> Nat.eqb (List.length w) (count_nan (values w)) = false.
Proof.
  rewrite all_nan_test. now destruct (Nat.eqb _ _).
Qed.

Lemma iloc_last_nonempty {A} (x : A) (l : list A) :
  exists y, iloc_last (x :: l) = Some y.
Proof.
  unfold iloc_last. destruct (rev (x :: l)) as [|y r] eqn:E.
  - apply (f_equal (@List.length A)) in E.
    rewrite length_rev in E. discriminate.
  - now exists y.
Qed.

Lemma iloc_last_some_nonempty {A} (l : list A) (y : A) :
  iloc_last l = Some y -> l <> [].
Proof. intros H ->. discriminate. Qed.

Lemma iloc_last_in {A} (l : list A) (y : A) :
  iloc_last l = Some y -> In y l.
Proof.
  unfold iloc_last. destruct (rev l) as [|z r] eqn:E; [discriminate|].
  intro H. injection H as ->. apply in_rev. rewrite E. now left.
Qed.

Lemma fadd_nan_l (y : float) : (NaN + y)%float = NaN.
Proof. now destruct y. Qed.

Lemma fsub_nan_l (y : float) : (NaN - y)%float = NaN.
Proof. unfold fsub. apply fadd_nan_l. Qed.

Lemma fadd_nan_r (x : float) : (x + NaN)%float = NaN.
Proof. now destruct x. Qed.

Lemma fmul_nan_r (x : float) : (x * NaN)%float = NaN.
Proof. now destruct x. Qed.

Lemma fmul_nan_l (y : float) : (NaN * y)%float = NaN.
Proof. now destruct y. Qed.

Section PeriodSimulator.

Variables np_log np_exp : float -> float.

Lemma guarded_balance_eq (w : Series asset) (b : float) (fr : Frame) :
  guarded_balance np_log np_exp w b fr
  = (fst (check_negative_balance balance_ref
            (store_set empty_store balance_ref
               (sum_axis1 (position_NAV_of np_log np_exp w b fr)))),
     guard_clean (sum_axis1 (position_NAV_of np_log np_exp w b fr))).
Proof.
  unfold guarded_balance.
  pose proof (check_negative_balance_clean balance_ref
                (store_set empty_store balance_ref
                   (sum_axis1 (position_NAV_of np_log np_exp w b fr)))) as C.
  rewrite store_get_set_same in C.
  destruct (check_negative_balance _ _) as [flag h]. simpl in *.
  now rewrite C.
Qed.

(** The simulator on a weight vector that is not all NaN, in terms of the
    guard's output. *)
Lemma port_balance_calc_normal (w : Series asset) (b : float) (fr : Frame)
  (kd : float) :
  ~ all_nan w ->
  port_balance_calc np_log np_exp w b fr kd
  = let nav := position_NAV_of np_log np_exp w b fr in
    let g := guarded_balance np_log np_exp w b fr in
    let t := if (f0 <? kd)%float && fst g
             then leverage_adjust np_log np_exp b kd (snd g)
             else snd g in
    match iloc_last t with
    | None => None
    | Some (_, final_balance) =>
        match iloc_last (rows nav) with
        | None => None
        | Some (_, last_row) =>
            Some (t, combine (columns nav)
                       (map (fun v => v / final_balance)%float last_row))
        end
    end.
Proof.
  intro H. apply not_all_nan_test in H.
  unfold port_balance_calc, guarded_balance. rewrite H. simpl negb.
  cbv iota beta.
  destruct (check_negative_balance _ _) as [flag h]. reflexivity.
Qed.

Lemma guarded_never_ruined (w : Series asset) (b : float) (fr : Frame) :
  fst (guarded_balance np_log np_exp w b fr) = true ->
  snd (guarded_balance np_log np_exp w b fr)
  = sum_axis1 (position_NAV_of np_log np_exp w b fr).
Proof.
  rewrite guarded_balance_eq. cbn [fst snd].
  unfold check_negative_balance, guard_clean.
  rewrite store_get_set_same.
  destruct (filter _ _) as [|[d x] rest]; [reflexivity|discriminate].
Qed.

Lemma port_balance_calc_hold (w : Series asset) (b : float) (fr : Frame)
  (kd : float) :
  all_nan w ->
  port_balance_calc np_log np_exp w b fr kd
  = Some (constant b (dates fr), constant f0 (index w)).
Proof.
  intro H. apply all_nan_test in H.
  unfold port_balance_calc. now rewrite H.
Qed.

(** C8. When every entry of the weight vector is undefined the period is
    a hold: the simulator returns a trajectory over the dates of the
    returns table that is the starting balance at every date, and ending
    weights over the assets of the weight vector that are 0 for every
    asset. *)
Theorem all_nan_weights_hold (w : Series asset) (b : float) (fr : Frame)
  (kd : float) :
  all_nan w ->
  exists t ew,
    port_balance_calc np_log np_exp w b fr kd = Some (t, ew)
    /\ index t = dates fr
    /\ Forall (fun x => x = b) (values t)
    /\ index ew = index w
    /\ Forall (fun x => x = f0) (values ew).
Proof.
  intro H. exists (constant b (dates fr)), (constant f0 (index w)).
  split; [now apply port_balance_calc_hold|].
  unfold index, values, constant. rewrite !map_map. cbn [fst snd].
  rewrite !map_id.
  repeat split; try reflexivity; apply Forall_map, Forall_forall; reflexivity.
Qed.

Lemma cumsum_from_prefix (l : list float) :
  forall acc,
    cumsum_from acc l
    = map (fun i =>
             if isnan (nth i l NaN) then NaN
             else fold_left nansum_step (firstn (S i) l) acc)
          (seq 0 (List.length l)).
Proof.
  induction l as [|x l IH]; intro acc; [reflexivity|].
  cbn [cumsum_from List.length seq map]. rewrite <- seq_shift, map_map.
  cbn [nth firstn fold_left]. unfold nansum_step at 1 2.
  destruct (isnan x) eqn:E.
  - f_equal. rewrite IH. apply map_ext. intro i.
    cbn [nth firstn fold_left]. unfold nansum_step at 2. now rewrite E.
  - f_equal. rewrite IH. apply map_ext. intro i.
    cbn [nth firstn fold_left]. unfold nansum_step at 2. now rewrite E.
Qed.

Lemma pct_from_nth (l : list float) :
  forall prev,
    pct_from prev l
    = map (fun i => (nth i l NaN / nth i (prev :: l) NaN - f1)%float)
          (seq 0 (List.length l)).
Proof.
  induction l as [|x l IH]; intro prev; [reflexivity|].
  cbn [pct_from List.length seq map nth]. f_equal.
  rewrite <- seq_shift, map_map. rewrite IH. apply map_ext. intro i.
  reflexivity.
Qed.

(** The percent changes, less the cost, in log space, as the code
    computes them, are the net log returns of the description. *)
Lemma log_net_pct_spec (kd : float) (vs : list float) :
  map (fun p => np_log (f1 + p)%float)
    (map (fun p => p - kd)%float (pct_change vs))
  = net_log_returns np_log kd vs.
Proof.
  unfold net_log_returns. destruct vs as [|x l]; [reflexivity|].
  cbn [pct_change map List.length seq]. f_equal.
  rewrite <- seq_shift, !map_map, pct_from_nth, map_map.
  apply map_ext. intro i. reflexivity.
Qed.

Lemma leverage_adjust_recomputed (b kd : float) (g : Trajectory) :
  leverage_adjust np_log np_exp b kd g = recomputed np_log np_exp b kd g.
Proof.
  unfold leverage_adjust, recomputed, with_values. f_equal.
  rewrite log_net_pct_spec. unfold cumsum. rewrite cumsum_from_prefix.
  rewrite map_map. unfold net_log_returns at 3.
  rewrite length_map, length_seq.
  replace (List.length (values g)) with (List.length g)
    by (unfold values; now rewrite length_map).
  apply map_ext. intro i. reflexivity.
Qed.

(** C2. On a weight vector that is not all NaN, when the leverage cost is
    [> 0] and the guard reports no ruin, the trajectory returned is the
    guard's trajectory recomputed: at every date the starting balance
    times the exponential of the sum, up to that date, of the logs of one
    plus the percent change less the leverage cost.  When the cost is
    [<= 0] or the guard reports ruin, the trajectory returned is the
    guard's.  A guard that reports no ruin has left the row sums of the
    NAV table as they were. *)
Theorem leverage_adjustment_spec (w : Series asset) (b : float) (fr : Frame)
  (kd : float) (t : Trajectory) (ew : Series asset) :
  ~ all_nan w ->
  port_balance_calc np_log np_exp w b fr kd = Some (t, ew) ->
  let never_ruined := fst (guarded_balance np_log np_exp w b fr) in
  let guarded := snd (guarded_balance np_log np_exp w b fr) in
  ((f0 <? kd)%float = true -> never_ruined = true ->
     t = recomputed np_log np_exp b kd guarded)
  /\ ((kd <=? f0)%float = true \/ never_ruined = false -> t = guarded)
  /\ (never_ruined = true ->
        guarded = sum_axis1 (position_NAV_of np_log np_exp w b fr)).
Proof.
  intros Hw Hcalc never_ruined guarded.
  rewrite (port_balance_calc_normal _ _ _ _ Hw) in Hcalc.
  cbv zeta in Hcalc. fold never_ruined guarded in Hcalc.
  split; [|split; [|apply guarded_never_ruined]].
  - intros Hkd Hflag. rewrite Hkd, Hflag in Hcalc. simpl andb in Hcalc.
    cbv iota in Hcalc.
    destruct (iloc_last _) as [[d v]|]; [|discriminate].
    destruct (iloc_last (rows _)) as [[d' r]|]; [|discriminate].
    injection Hcalc as <- _. apply leverage_adjust_recomputed.
  - intro Hno.
    assert (E : (f0 <? kd)%float && never_ruined = false).
    { destruct Hno as [Hle| ->].
      - now rewrite (fleb_not_fltb _ Hle).
      - apply andb_false_r. }
    rewrite E in Hcalc.
    destruct (iloc_last _) as [[d v]|]; [|discriminate].
    destruct (iloc_last (rows _)) as [[d' r]|]; [|discriminate].
    injection Hcalc as <- _. reflexivity.
Qed.

Lemma dates_frame_map (f : float -> float) (fr : Frame) :
  dates (frame_map f fr) = dates fr.
Proof. unfold dates, frame_map. simpl. now rewrite map_map. Qed.

Lemma dates_cumsum_rows (rs : list (date * list float)) :
  forall acc, map fst (cumsum_rows acc rs) = map fst rs.
Proof.
  induction rs as [|[d r] rs IH]; intro acc; [reflexivity|].
  simpl. f_equal. apply IH.
Qed.

Lemma dates_frame_cumsum (fr : Frame) : dates (frame_cumsum fr) = dates fr.
Proof. unfold dates, frame_cumsum. simpl. apply dates_cumsum_rows. Qed.

Lemma dates_mul_columns (s : Series asset) (fr : Frame) :
  dates (mul_columns s fr) = dates fr.
Proof. unfold dates, mul_columns. simpl. now rewrite map_map. Qed.

Lemma dates_position_NAV (w : Series asset) (b : float) (fr : Frame) :
  dates (position_NAV_of np_log np_exp w b fr) = dates fr.
Proof.
  unfold position_NAV_of, frame_round.
  now rewrite dates_frame_map, dates_mul_columns, dates_frame_map,
    dates_frame_cumsum, dates_frame_map.
Qed.

Lemma index_sum_axis1 (fr : Frame) : index (sum_axis1 fr) = dates fr.
Proof. unfold index, sum_axis1, dates. now rewrite map_map. Qed.

Lemma index_constant {K} (v : float) (idx : list K) :
  index (constant v idx) = idx.
Proof.
  unfold index, constant. rewrite map_map. simpl. apply map_id.
Qed.

Lemma index_set_from_label (label : date) (v : float) (s : Trajectory) :
  index (set_from_label label v s) = index s.
Proof.
  induction s as [|[d x] s IH]; [reflexivity|].
  simpl. destruct (Z.eqb d label).
  - change (index (constant v (d :: index s)) = d :: index s).
    apply index_constant.
  - simpl. f_equal. exact IH.
Qed.

Lemma index_guard_clean (s : Trajectory) : index (guard_clean s) = index s.
Proof.
  unfold guard_clean. destruct (filter _ s) as [|[d x] rest]; [reflexivity|].
  apply index_set_from_label.
Qed.

Lemma index_guarded (w : Series asset) (b : float) (fr : Frame) :
  index (snd (guarded_balance np_log np_exp w b fr)) = dates fr.
Proof.
  rewrite guarded_balance_eq. cbn [snd].
  now rewrite index_guard_clean, index_sum_axis1, dates_position_NAV.
Qed.

Lemma leverage_adjust_cons (b kd : float) (d : date) (x : float)
  (rest : Trajectory) :
  np_log NaN = NaN -> np_exp NaN = NaN ->
  leverage_adjust np_log np_exp b kd ((d, x) :: rest)
  = (d, NaN)
    :: with_values rest
         (map (fun c => b * np_exp c)%float
            (cumsum
               (map (fun p => np_log (f1 + (p - kd))%float)
                  (pct_from x (values rest))))).
Proof.
  intros Hlog Hexp. unfold leverage_adjust, with_values, cumsum.
  change (values ((d, x) :: rest)) with (x :: values rest).
  change (index ((d, x) :: rest)) with (d :: index rest).
  cbn [pct_change map]. rewrite fsub_nan_l, fadd_nan_r, Hlog.
  cbn [cumsum_from isnan map]. rewrite Hexp, fmul_nan_r.
  cbn [combine]. now rewrite map_map.
Qed.

(** C9. When the leverage branch is taken (weights not all NaN, leverage
    cost [> 0], no ruin reported), on a returns table with at least one
    date, the simulator returns a trajectory whose first entry is NaN; the
    entries after it compound the net percent changes from the second
    date on, starting from an empty running sum. *)
Theorem leverage_first_entry_nan (w : Series asset) (b : float) (fr : Frame)
  (kd : float) :
  np_log NaN = NaN -> np_exp NaN = NaN ->
  ~ all_nan w -> rows fr <> [] ->
  (f0 <? kd)%float = true ->
  fst (guarded_balance np_log np_exp w b fr) = true ->
  exists d x rest ew,
    snd (guarded_balance np_log np_exp w b fr) = (d, x) :: rest
    /\ port_balance_calc np_log np_exp w b fr kd
       = Some ((d, NaN)
               :: with_values rest
                    (map (fun c => b * np_exp c)%float
                       (cumsum
                          (map (fun p => np_log (f1 + (p - kd))%float)
                             (pct_from x (values rest))))),
               ew).
Proof.
  intros Hlog Hexp Hw Hrows Hkd Hflag.
  rewrite (port_balance_calc_normal _ _ _ _ Hw). cbv zeta.
  rewrite Hkd, Hflag. simpl andb. cbv iota.
  pose proof (index_guarded w b fr) as Hidx.
  pose proof (dates_position_NAV w b fr) as Hnav.
  destruct (snd (guarded_balance np_log np_exp w b fr)) as [|[d x] rest].
  { unfold dates in Hidx. destruct (rows fr); [congruence|discriminate]. }
  rewrite (leverage_adjust_cons _ _ _ _ _ Hlog Hexp).
  destruct (iloc_last_nonempty (d, NaN)
              (with_values rest
                 (map (fun c => b * np_exp c)%float
                    (cumsum
                       (map (fun p => np_log (f1 + (p - kd))%float)
                          (pct_from x (values rest)))))))
    as [[dl vl] El].
  rewrite El.
  destruct (rows (position_NAV_of np_log np_exp w b fr)) as [|r0 rs] eqn:Er.
  { unfold dates in Hnav. rewrite Er in Hnav.
    destruct (rows fr); [congruence|discriminate]. }
  destruct (iloc_last_nonempty r0 rs) as [[dr lr] Elr]. rewrite Elr.
  eexists d, x, rest, _. split; reflexivity.
Qed.

End PeriodSimulator.

(** ** Ending weights *)

Lemma is_zero_sign (x : float) :
  is_zero x -> exists q, x = Fin q /\ Qsgn q = Eq.
Proof.
  unfold is_zero. destruct x as [q| | |]; simpl; try discriminate.
  intro H. exists q. split; [reflexivity|].
  apply Qsgn_eq. now apply Qeq_bool_iff.
Qed.

Lemma fdiv_by_zero_undefined (v final : float) :
  is_zero final -> undefined_weight (v / final) = true.
Proof.
  intro H. destruct (is_zero_sign _ H) as [q [-> Hq]].
  destruct v as [a| | |]; simpl; rewrite ?Hq; try reflexivity.
  unfold inf_times. now destruct (Qsgn a).
Qed.

Lemma forallb_values_combine {K} (P : float -> bool) (ks : list K)
  (vs : list float) :
  forallb P vs = true -> forallb P (values (combine ks vs)) = true.
Proof.
  revert vs. induction ks as [|k ks IH]; intros [|v vs]; simpl;
    try reflexivity.
  rewrite !andb_true_iff. intros [Hv Hvs]. split; [exact Hv|now apply IH].
Qed.

Lemma forallb_map_all {A} (P : float -> bool) (f : A -> float) (l : list A) :
  (forall a, P (f a) = true) -> forallb P (map f l) = true.
Proof.
  intro H. induction l as [|a l IH]; simpl; [reflexivity|].
  now rewrite H, IH.
Qed.

Section LoopBody.

Variables np_log np_exp : float -> float.
Variable portfolios : Portfolios.
Variable end_date : date.
Variable sim_price_data : Frame.
Variables trans_cost annual_kd : float.
Variable n_rebalances : nat.

Abbreviation body :=
  (loop_body np_log np_exp portfolios end_date sim_price_data trans_cost
     annual_kd n_rebalances).

(** What a pass through the loop body that reaches its end has done. *)
Lemma loop_body_next (reb_n : nat) (st st' : LoopState) :
  body reb_n st = Next st' ->
  exists col d fr t,
    nth_error portfolios reb_n = Some col
    /\ set_date_to portfolios end_date n_rebalances reb_n st = DateTo (Some d)
    /\ returns_between sim_price_data (index (target_weights col))
         (returns_start_date st) d = Some fr
    /\ port_balance_calc np_log np_exp (target_weights col)
         (get_net_balance (balance st)
            (fst (get_costs trans_cost (target_weights col)
                    (last_weights st) annual_kd)))
         fr
         (snd (get_costs trans_cost (target_weights col)
                 (last_weights st) annual_kd))
       = Some (t, last_weights st')
    /\ (exists dl, iloc_last t = Some (dl, balance st'))
    /\ all_dates_balance st' = dict_set (all_dates_balance st) reb_n t
    /\ returns_start_date st' = d.
Proof.
  rewrite loop_body_unfold. intro H.
  destruct (nth_error portfolios reb_n) as [col|]; [|discriminate].
  destruct (set_date_to _ _ _ _ _) as [|[d|]] eqn:Ed; try discriminate.
  destruct (returns_between _ _ _ _) as [fr|] eqn:Er; [|discriminate].
  destruct (get_costs _ _ _ _) as [reb_cost lev_cost] eqn:Eg.
  destruct (port_balance_calc _ _ _ _ _ _) as [[t ew]|] eqn:Ec;
    [|discriminate].
  destruct (iloc_last t) as [[dl v]|] eqn:El; [|discriminate].
  inversion H; subst; clear H. cbn [last_weights balance all_dates_balance
    returns_start_date].
  exists col, d, fr, t. rewrite Eg. cbn [fst snd].
  split; [reflexivity|]. split; [reflexivity|]. split; [exact Er|].
  split; [exact Ec|]. split; [now exists dl|]. split; reflexivity.
Qed.

Lemma loop_body_break (reb_n : nat) (st st' : LoopState) :
  body reb_n st = Break st' -> st' = st.
Proof.
  rewrite loop_body_unfold. intro H.
  destruct (nth_error portfolios reb_n) as [col|]; [|discriminate].
  destruct (set_date_to _ _ _ _ _) as [|[d|]]; try discriminate.
  - now inversion H.
  - destruct (returns_between _ _ _ _) as [fr|]; [|discriminate].
    destruct (get_costs _ _ _ _) as [reb_cost lev_cost].
    destruct (port_balance_calc _ _ _ _ _ _) as [[t ew]|]; [|discriminate].
    destruct (iloc_last t) as [[dl v]|]; discriminate.
Qed.

(** A pass that reaches its end, with its local variables. *)
Lemma loop_body_locals (reb_n : nat) (st st' : LoopState) :
  body reb_n st = Next st' ->
  exists col d v t,
    nth_error portfolios reb_n = Some col
    /\ set_date_to portfolios end_date n_rebalances reb_n st
       = DateTo (Some d)
    /\ pass_locals sim_price_data trans_cost annual_kd col d st = Some v
    /\ port_balance_calc np_log np_exp (pass_weights v)
         (pass_net_balance v) (pass_returns v) (pass_lev_cost v)
       = Some (t, last_weights st')
    /\ (exists dl, iloc_last t = Some (dl, balance st'))
    /\ all_dates_balance st' = dict_set (all_dates_balance st) reb_n t.
Proof.
  unfold loop_body. intro H.
  destruct (nth_error portfolios reb_n) as [col|]; [|discriminate].
  destruct (set_date_to _ _ _ _ _) as [|[d|]] eqn:Ed; try discriminate.
  destruct (pass_locals _ _ _ _ _ _) as [v|] eqn:Ev; [|discriminate].
  destruct (port_balance_calc _ _ _ _ _ _) as [[t ew]|] eqn:Ec;
    [|discriminate].
  destruct (iloc_last t) as [[dl x]|] eqn:El; [|discriminate].
  inversion H; subst; clear H.
  cbn [last_weights balance all_dates_balance].
  exists col, d, v, t. split; [reflexivity|]. split; [reflexivity|].
  split; [exact Ev|]. split; [exact Ec|]. split; [now exists dl|].
  reflexivity.
Qed.

(** The costs of a pass are those of the cost model on the target
    weights of the pass and the [last_weights] it starts with. *)
Lemma pass_locals_costs (col : date * Series asset) (d : date)
  (st : LoopState) (v : PassLocals) :
  pass_locals sim_price_data trans_cost annual_kd col d st = Some v ->
  pass_weights v = target_weights col
  /\ (pass_reb_cost v, pass_lev_cost v)
     = get_costs trans_cost (target_weights col) (last_weights st) annual_kd
  /\ pass_net_balance v = get_net_balance (balance st) (pass_reb_cost v).
Proof.
  unfold pass_locals. intro H.
  destruct (returns_between _ _ _ _) as [fr|]; [|discriminate].
  destruct (get_costs _ _ _ _) as [reb_cost lev_cost].
  injection H as <-. cbn. now split.
Qed.

(** C3. The ending weights of a period on weights that are not all NaN
    are the last row of the NAV table divided, entry by entry, by the last
    value of the trajectory; when that value is 0 the division is carried
    out all the same and every ending weight is NaN or an infinity.  In
    the loop the ending weights of the period simulated in one pass are
    the previous weights of the cost model in the next pass, as they are:
    the rebalance cost and the leverage cost of the next pass are those
    of [get_costs] on its target weights against these ending weights. *)
Theorem ending_weights_division :
  (forall w b fr kd t ew,
      ~ all_nan w ->
      port_balance_calc np_log np_exp w b fr kd = Some (t, ew) ->
      exists d final dr last_row,
        iloc_last t = Some (d, final)
        /\ iloc_last (rows (position_NAV_of np_log np_exp w b fr))
           = Some (dr, last_row)
        /\ ew = combine (columns (position_NAV_of np_log np_exp w b fr))
                  (map (fun v => v / final)%float last_row)
        /\ (is_zero final ->
              forallb undefined_weight (values ew) = true))
  /\ (forall reb_n st st' st'',
        body reb_n st = Next st' ->
        body (S reb_n) st' = Next st'' ->
        exists col d v t ew col' d' v' t',
          nth_error portfolios reb_n = Some col
          /\ set_date_to portfolios end_date n_rebalances reb_n st
             = DateTo (Some d)
          /\ pass_locals sim_price_data trans_cost annual_kd col d st
             = Some v
          /\ port_balance_calc np_log np_exp (pass_weights v)
               (pass_net_balance v) (pass_returns v) (pass_lev_cost v)
             = Some (t, ew)
          /\ last_weights st' = ew
          /\ nth_error portfolios (S reb_n) = Some col'
          /\ set_date_to portfolios end_date n_rebalances (S reb_n) st'
             = DateTo (Some d')
          /\ pass_locals sim_price_data trans_cost annual_kd col' d' st'
             = Some v'
          /\ (pass_reb_cost v', pass_lev_cost v')
             = get_costs trans_cost (target_weights col') ew annual_kd
          /\ pass_net_balance v'
             = get_net_balance (balance st') (pass_reb_cost v')
          /\ port_balance_calc np_log np_exp (target_weights col')
               (pass_net_balance v') (pass_returns v') (pass_lev_cost v')
             = Some (t', last_weights st'')
          /\ all_dates_balance st''
             = dict_set (all_dates_balance st') (S reb_n) t').
Proof.
  split.
  - intros w b fr kd t ew Hw Hcalc.
    rewrite (port_balance_calc_normal _ _ _ _ _ _ Hw) in Hcalc.
    cbv zeta in Hcalc.
    destruct (iloc_last _) as [[d final]|] eqn:Et; [|discriminate].
    destruct (iloc_last (rows _)) as [[dr last_row]|] eqn:Er; [|discriminate].
    injection Hcalc as Ht Hew. subst t.
    exists d, final, dr, last_row.
    split; [exact Et|]. split; [reflexivity|]. split; [now symmetry|].
    intro Hz. subst ew. apply forallb_values_combine.
    apply forallb_map_all. intro v. now apply fdiv_by_zero_undefined.
  - intros reb_n st st' st'' H1 H2.
    destruct (loop_body_locals _ _ _ H1)
      as (col & d & v & t & Hcol & Hd & Hv & Hc & _ & _).
    destruct (loop_body_locals _ _ _ H2)
      as (col' & d' & v' & t' & Hcol' & Hd' & Hv' & Hc' & _ & Hadb').
    destruct (pass_locals_costs _ _ _ _ Hv') as (Hw' & Hcosts & Hnet).
    exists col, d, v, t, (last_weights st'), col', d', v', t'.
    split; [exact Hcol|]. split; [exact Hd|]. split; [exact Hv|].
    split; [exact Hc|]. split; [reflexivity|]. split; [exact Hcol'|].
    split; [exact Hd'|]. split; [exact Hv'|].
    split; [exact Hcosts|]. split; [exact Hnet|].
    split; [rewrite <- Hw'; exact Hc'|exact Hadb'].
Qed.

End LoopBody.

(** ** The loop *)

Lemma dict_set_fresh {V} (d : list (nat * V)) (k : nat) (v : V) :
  ~ In k (map fst d) -> dict_set d k v = d ++ [(k, v)].
Proof.
  induction d as [|[k' v'] d IH]; simpl; intro H; [reflexivity|].
  destruct (Nat.eqb k' k) eqn:E.
  - apply Nat.eqb_eq in E. tauto.
  - f_equal. apply IH. tauto.
Qed.

Lemma dict_set_next {V} (d : list (nat * V)) (k : nat) (v : V) :
  map fst d = seq 0 k ->
  dict_set d k v = d ++ [(k, v)]
  /\ map fst (d ++ [(k, v)]) = seq 0 (S k).
Proof.
  intro H. split.
  - apply dict_set_fresh. rewrite H, in_seq. lia.
  - rewrite map_app, H, seq_S. reflexivity.
Qed.

Section Loop.

Variables np_log np_exp : float -> float.
Variable portfolios : Portfolios.
Variable end_date : date.
Variable sim_price_data : Frame.
Variables trans_cost annual_kd : float.
Variable n_rebalances : nat.

Abbreviation body' :=
  (loop_body np_log np_exp portfolios end_date sim_price_data trans_cost
     annual_kd n_rebalances).

Abbreviation loop :=
  (for_loop np_log np_exp portfolios end_date sim_price_data trans_cost
     annual_kd n_rebalances).

(** A property of the loop variables that every completed pass keeps
    holds when the loop is left. *)
Lemma for_loop_invariant (I : nat -> LoopState -> Prop) :
  (forall k st st', I k st -> body' k st = Next st' -> I (S k) st') ->
  forall m k st st_end,
    I k st -> loop (seq k m) st = Some st_end ->
    exists k', (k <= k' <= k + m)%nat /\ I k' st_end.
Proof.
  intros Hstep. induction m as [|m IH]; intros k st st_end HI Hloop.
  - injection Hloop as <-. exists k. split; [lia|exact HI].
  - simpl in Hloop. destruct (body' k st) as [st'|st'|] eqn:E.
    + destruct (IH (S k) st' st_end (Hstep _ _ _ HI E) Hloop)
        as [k' [Hk HI']].
      exists k'. split; [lia|exact HI'].
    + injection Hloop as <-. apply loop_body_break in E. subst st'.
      exists k. split; [lia|exact HI].
    + discriminate.
Qed.

Lemma keys_step (k : nat) (st st' : LoopState) :
  map fst (all_dates_balance st) = seq 0 k ->
  body' k st = Next st' ->
  map fst (all_dates_balance st') = seq 0 (S k).
Proof.
  intros Hk Hb.
  destruct (loop_body_next _ _ _ _ _ _ _ _ _ _ _ Hb)
    as (col & d & fr & t & _ & _ & _ & _ & _ & Hadb & _).
  rewrite Hadb. destruct (dict_set_next _ k t Hk) as [-> H]. exact H.
Qed.

End Loop.

Lemma fold_left_finished (f : Orch -> nat -> Orch) (l : list nat)
  (r : list (nat * Trajectory)) :
  (forall i, f (Finished r) i = Finished r) ->
  fold_left f l (Finished r) = Finished r.
Proof.
  intro H. induction l as [|i l IH]; simpl; [reflexivity|].
  now rewrite H.
Qed.

Lemma fold_left_failed (f : Orch -> nat -> Orch) (l : list nat) :
  (forall i, f Failed i = Failed) -> fold_left f l Failed = Failed.
Proof.
  intro H. induction l as [|i l IH]; simpl; [reflexivity|].
  now rewrite H.
Qed.

Section FoldRefinement.

Variables np_log np_exp : float -> float.
Variable rebalance_dates : list date.
Variable portfolios : Portfolios.
Variable end_date : date.
Variable sim_price_data : Frame.
Variables trans_cost annual_kd : float.

(** The columns of [portfolios] are the rebalances, in order. *)
Hypothesis well_formed : map fst portfolios = rebalance_dates.

Abbreviation n := (List.length rebalance_dates).

Abbreviation body_n :=
  (loop_body np_log np_exp portfolios end_date sim_price_data trans_cost
     annual_kd n).

Abbreviation step :=
  (transition np_log np_exp rebalance_dates portfolios end_date
     sim_price_data trans_cost annual_kd).

Lemma portfolios_length : List.length portfolios = n.
Proof. rewrite <- well_formed. now rewrite length_map. Qed.

Lemma set_date_to_well_formed (k : nat) (st : LoopState) :
  (k < n)%nat ->
  set_date_to portfolios end_date n k st
  = if is_final_period rebalance_dates k
       && Z.eqb (returns_start_date st)
                (period_end_date rebalance_dates end_date k)
    then DateBreak
    else DateTo (Some (period_end_date rebalance_dates end_date k)).
Proof.
  intro Hk. unfold set_date_to, is_final_period, period_end_date.
  rewrite Nat.add_1_r.
  destruct (S k <? n)%nat eqn:E.
  - apply Nat.ltb_lt in E.
    assert (Hne : Nat.eqb (S k) n = false) by (apply Nat.eqb_neq; lia).
    rewrite Hne. cbn [andb].
    rewrite <- well_formed at 1. rewrite nth_error_map.
    destruct (nth_error portfolios (S k)) as [p|] eqn:Ep; [reflexivity|].
    apply nth_error_None in Ep. rewrite portfolios_length in Ep. lia.
  - apply Nat.ltb_ge in E.
    assert (He : Nat.eqb (S k) n = true) by (apply Nat.eqb_eq; lia).
    assert (Hnone : nth_error rebalance_dates (S k) = None)
      by (apply nth_error_None; lia).
    rewrite He, Hnone. reflexivity.
Qed.

Lemma step_agrees (k : nat) (st : LoopState) (ost : OrchState)
  (res : list (nat * Trajectory)) :
  (k < n)%nat -> agrees st ost res k ->
  match body_n k st with
  | Next st' =>
      exists ost' res',
        step (Running ost res) k = Running ost' res'
        /\ agrees st' ost' res' (S k)
  | Break st' =>
      step (Running ost res) k = Finished res /\ all_dates_balance st' = res
  | Crash => step (Running ost res) k = Failed
  end.
Proof.
  intros Hk (Hb & Hw & Hd & Ha & Hkeys).
  rewrite loop_body_unfold. unfold transition.
  rewrite (set_date_to_well_formed k st Hk).
  destruct (nth_error portfolios k) as [col|] eqn:Ecol.
  2:{ apply nth_error_None in Ecol. rewrite portfolios_length in Ecol. lia. }
  rewrite Hb, Hw, Hd.
  destruct (is_final_period rebalance_dates k
            && Z.eqb (period_start_date ost)
                     (period_end_date rebalance_dates end_date k)).
  { split; [reflexivity|exact Ha]. }
  fold (target_weights col).
  destruct (returns_between _ _ _ _) as [fr|]; [|reflexivity].
  destruct (get_costs _ _ _ _) as [reb_cost lev_cost]. cbn [fst snd].
  destruct (port_balance_calc _ _ _ _ _ _) as [[t ew]|]; [|reflexivity].
  destruct (iloc_last t) as [[dl v]|]; [|reflexivity].
  eexists _, _. split; [reflexivity|].
  unfold agrees. cbn.
  rewrite Ha. destruct (dict_set_next _ k t Hkeys) as [-> Hk'].
  repeat split; try reflexivity. exact Hk'.
Qed.

Lemma for_loop_fold (m : nat) :
  forall k st ost res,
    (k + m = n)%nat -> agrees st ost res k ->
    option_map all_dates_balance
      (for_loop np_log np_exp portfolios end_date sim_price_data trans_cost
         annual_kd n (seq k m) st)
    = result_of (fold_left step (seq k m) (Running ost res)).
Proof.
  induction m as [|m IH]; intros k st ost res Hkm Hag.
  - simpl. destruct Hag as (_ & _ & _ & -> & _). reflexivity.
  - cbn [seq for_loop fold_left]. assert (Hk : (k < n)%nat) by lia.
    pose proof (step_agrees k st ost res Hk Hag) as Hs.
    destruct (body_n k st) as [st'|st'|].
    + destruct Hs as (ost' & res' & -> & Hag').
      apply IH; [lia|exact Hag'].
    + destruct Hs as [-> Hres]. cbn [option_map].
      rewrite Hres, fold_left_finished; reflexivity.
    + rewrite Hs. rewrite fold_left_failed; reflexivity.
Qed.

(** C4. On portfolios whose columns are the rebalances, [get_balance] is
    the fold of [transition] over the rebalance indexes from the state
    (starting balance, zero weights, first rebalance date): each period
    records its trajectory under its index and hands on the last value of
    the trajectory, the ending weights and the end date of the period.
    The keys of the result are [0, 1, ..., k-1], in this order. *)
Theorem get_balance_is_fold (starting_balance : float) :
  get_balance np_log np_exp starting_balance rebalance_dates portfolios
    end_date sim_price_data trans_cost annual_kd
  = orchestrate np_log np_exp rebalance_dates portfolios end_date
      sim_price_data trans_cost annual_kd starting_balance
  /\ (forall result,
        get_balance np_log np_exp starting_balance rebalance_dates portfolios
          end_date sim_price_data trans_cost annual_kd = Some result ->
        exists k, (k <= n)%nat /\ map fst result = seq 0 k).
Proof.
  assert (F : forall d,
             option_map all_dates_balance
               (for_loop np_log np_exp portfolios end_date sim_price_data
                  trans_cost annual_kd n (seq 0 n)
                  (mkLoopState [] starting_balance d
                     (constant f0 (columns sim_price_data)) None))
             = result_of
                 (fold_left step (seq 0 n)
                    (Running
                       (mkOrchState starting_balance
                          (constant f0 (columns sim_price_data)) d) []))).
  { intro d. apply (for_loop_fold n 0); [lia|].
    unfold agrees. cbn. repeat split; reflexivity. }
  assert (K : forall d st_end,
             for_loop np_log np_exp portfolios end_date sim_price_data
               trans_cost annual_kd n (seq 0 n)
               (mkLoopState [] starting_balance d
                  (constant f0 (columns sim_price_data)) None)
             = Some st_end ->
             exists k, (k <= n)%nat
                       /\ map fst (all_dates_balance st_end) = seq 0 k).
  { intros d st_end El.
    destruct (for_loop_invariant np_log np_exp portfolios end_date
                sim_price_data trans_cost annual_kd n
                (fun k st => map fst (all_dates_balance st) = seq 0 k)
                (keys_step np_log np_exp portfolios end_date sim_price_data
                   trans_cost annual_kd n)
                n 0%nat
                (mkLoopState [] starting_balance d
                   (constant f0 (columns sim_price_data)) None)
                st_end eq_refl El) as [k [Hk HI]].
    exists k. split; [lia|exact HI]. }
  unfold get_balance, orchestrate.
  destruct rebalance_dates as [|first_date rest].
  { split; [reflexivity|discriminate]. }
  split.
  - rewrite (F first_date).
    now destruct (fold_left _ _ _).
  - intros result H.
    destruct (for_loop _ _ _ _ _ _ _ _ _ _) as [st_end|] eqn:El;
      [|discriminate].
    injection H as <-. exact (K first_date st_end El).
Qed.

End FoldRefinement.

(** ** Ruin *)

Lemma is_zero_f0 : is_zero f0.
Proof. reflexivity. Qed.

Lemma ruin_permanent_rec_sound (l : list float) :
  ruin_permanent_rec l -> ruin_permanent l.
Proof.
  induction l as [|a l IH]; intros H i j x y Hi Hj Hlt Hx.
  - destruct i; discriminate.
  - destruct H as [Hhead Htail]. destruct j as [|j]; [lia|].
    simpl in Hj. destruct i as [|i].
    + injection Hi as <-. specialize (Hhead Hx).
      rewrite Forall_forall in Hhead. apply Hhead.
      now apply nth_error_In with j.
    + simpl in Hi. apply (IH Htail i j x y Hi Hj); [lia|exact Hx].
Qed.

Lemma ruin_permanent_rec_zeros (l : list float) :
  Forall is_zero l -> ruin_permanent_rec l.
Proof.
  induction 1 as [|x l Hx Hl IH]; simpl; [exact I|].
  split; [intros _; exact Hl|exact IH].
Qed.

Lemma ruin_permanent_rec_positive (l : list float) :
  existsb (fun v => v <=? f0)%float l = false -> ruin_permanent_rec l.
Proof.
  induction l as [|x l IH]; simpl; [intros _; exact I|].
  intro H. apply orb_false_iff in H. destruct H as [Hx Hl].
  split; [intro C; congruence|now apply IH].
Qed.

Lemma values_constant {K} (v : float) (idx : list K) :
  values (constant v idx) = map (fun _ => v) idx.
Proof. unfold values, constant. now rewrite map_map. Qed.

Lemma Forall_constant {K} (P : float -> Prop) (v : float) (idx : list K) :
  P v -> Forall P (values (constant v idx)).
Proof.
  intro H. rewrite values_constant.
  induction idx; simpl; constructor; assumption.
Qed.

Lemma set_from_label_permanent (s : Trajectory) :
  forall d x rest,
    filter (fun e => snd e <=? f0)%float s = (d, x) :: rest ->
    ruin_permanent_rec (values (set_from_label d f0 s)).
Proof.
  induction s as [|[d0 x0] s IH]; intros d x rest H; [discriminate|].
  simpl in H. simpl set_from_label.
  destruct (x0 <=? f0)%float eqn:E.
  - injection H as -> _ _. rewrite Z.eqb_refl.
    exact (ruin_permanent_rec_zeros _
             (Forall_constant is_zero f0 (d :: index s) is_zero_f0)).
  - destruct (Z.eqb d0 d).
    + exact (ruin_permanent_rec_zeros _
               (Forall_constant is_zero f0 (d0 :: index s) is_zero_f0)).
    + simpl. split; [intro C; congruence|].
      exact (IH d x rest H).
Qed.

(** What the guard leaves behind never recovers from a value [<= 0]. *)
Lemma guard_clean_permanent (s : Trajectory) :
  ruin_permanent_rec (values (guard_clean s)).
Proof.
  unfold guard_clean.
  destruct (filter _ s) as [|[d x] rest] eqn:E.
  - apply ruin_permanent_rec_positive. now apply filter_nonpos_nil.
  - exact (set_from_label_permanent s d x rest E).
Qed.

Lemma nonpos_not_neg_zero (b : float) :
  (b <=? f0)%float = true -> (b <? f0)%float = false -> is_zero b.
Proof.
  unfold is_zero. destruct b as [q| | |]; simpl; try discriminate.
  intros Hle Hlt. apply negb_false_iff in Hlt.
  apply Qle_bool_iff in Hle, Hlt. apply Qeq_bool_iff.
  now apply Qle_antisym.
Qed.

Lemma constant_permanent {K} (b : float) (idx : list K) :
  (b <? f0)%float = false ->
  ruin_permanent_rec (values (constant b idx)).
Proof.
  intro Hb. destruct (b <=? f0)%float eqn:E.
  - apply ruin_permanent_rec_zeros, Forall_constant.
    now apply nonpos_not_neg_zero.
  - apply ruin_permanent_rec_positive. rewrite values_constant.
    induction idx as [|k idx IH]; simpl; [reflexivity|].
    now rewrite E, IH.
Qed.

Lemma iloc_last_app {A} (l : list A) (y : A) :
  iloc_last l = Some y -> exists pre, l = pre ++ [y].
Proof.
  unfold iloc_last. destruct (rev l) as [|z r] eqn:E; [discriminate|].
  intro H. injection H as ->. exists (rev r).
  rewrite <- (rev_involutive l), E. reflexivity.
Qed.

Lemma is_zero_not_pos (v : float) : is_zero v -> (f0 <? v)%float = false.
Proof.
  unfold is_zero. destruct v as [q| | |]; simpl; try discriminate.
  intro H. apply Qeq_bool_iff in H. apply negb_false_iff, Qle_bool_iff.
  rewrite H. apply Qle_refl.
Qed.

(** A trajectory that never recovers and holds a value [<= 0] ends in a
    value that is not [> 0]. *)
Lemma ruin_permanent_ends (t : Trajectory) :
  ruin_permanent (values t) ->
  Exists (fun x => (x <=? f0)%float = true) (values t) ->
  ends_ruined t.
Proof.
  intros Hperm Hex. apply Exists_exists in Hex. destruct Hex as (x & Hin & Hx).
  apply In_nth_error in Hin. destruct Hin as [i Hi].
  destruct t as [|e t']; [destruct i; discriminate|].
  destruct (iloc_last_nonempty e t') as [[d v] Hlast].
  exists d, v. split; [exact Hlast|].
  destruct (iloc_last_app _ _ Hlast) as [pre Hpre].
  rewrite Hpre in Hi, Hperm. unfold values in Hi, Hperm.
  rewrite map_app in Hi, Hperm. cbn [map snd] in Hi, Hperm.
  assert (Hj : nth_error (map snd pre ++ [v]) (List.length (map snd pre))
               = Some v).
  { rewrite nth_error_app2 by lia. now rewrite Nat.sub_diag. }
  destruct (Nat.lt_ge_cases i (List.length (map snd pre))) as [Hlt|Hge].
  - apply is_zero_not_pos.
    exact (Hperm i _ x v Hi Hj Hlt Hx).
  - assert (Hlen : (i < List.length (map snd pre ++ [v]))%nat).
    { apply nth_error_Some. congruence. }
    rewrite length_app in Hlen. cbn in Hlen.
    assert (i = List.length (map snd pre)) by lia. subst i.
    rewrite Hj in Hi. injection Hi as <-. now apply fleb_not_fltb.
Qed.

(** *** A period that starts from a zero balance *)

Lemma fmul_zero_r (x : float) : zero_or_nan (x * f0).
Proof.
  destruct x as [a| | |]; simpl.
  - left. apply fin_zero. ring.
  - now right.
  - now right.
  - now right.
Qed.

Lemma fmul_zero_or_nan_l (x y : float) :
  zero_or_nan x -> zero_or_nan (x * y).
Proof.
  intros [->| ->].
  - destruct y as [b| | |]; simpl.
    + left. apply fin_zero. ring.
    + now right.
    + now right.
    + now right.
  - right. apply fmul_nan_l.
Qed.

Lemma round_zero_or_nan (x : float) (k : nat) :
  zero_or_nan x -> zero_or_nan (round x k).
Proof.
  intros [->| ->]; [left; apply round_zero|now right].
Qed.

Lemma nansum_zero_or_nan (l : list float) :
  Forall zero_or_nan l -> nansum l = f0.
Proof.
  rewrite nansum_fold. induction 1 as [|x l Hx Hl IH]; [reflexivity|].
  simpl. destruct Hx as [->| ->]; exact IH.
Qed.

Lemma lookup_map_values (f : float -> float) (s : Series asset) (a : asset) :
  lookup (map_values f s) a = option_map f (lookup s a).
Proof.
  unfold lookup, map_values.
  induction s as [|[k v] s IH]; [reflexivity|].
  simpl. destruct (String.eqb a k); [reflexivity|exact IH].
Qed.

Lemma weight_of_zero_balance (s : Series asset) (a : asset) :
  zero_or_nan (weight_of (map_values (fun w => w * f0)%float s) a).
Proof.
  unfold weight_of. rewrite lookup_map_values.
  destruct (lookup s a); simpl; [apply fmul_zero_r|now right].
Qed.

Section ZeroBalance.

Variables np_log np_exp : float -> float.

Lemma position_NAV_zero_balance (w : Series asset) (fr : Frame) :
  Forall (fun r => Forall zero_or_nan (snd r))
         (rows (position_NAV_of np_log np_exp w f0 fr)).
Proof.
  unfold position_NAV_of, frame_round, frame_map at 1, mul_columns.
  cbn [rows]. rewrite map_map. apply Forall_map.
  apply Forall_forall. intros r _. cbn [snd].
  apply Forall_map. apply Forall_app. split.
  - apply Forall_map. apply Forall_forall. intros p _.
    apply round_zero_or_nan, fmul_zero_or_nan_l, weight_of_zero_balance.
  - apply Forall_map. apply Forall_forall. intros k _. now right.
Qed.

Lemma sum_axis1_zero_balance (w : Series asset) (fr : Frame) :
  Forall (fun e => snd e = f0)
         (sum_axis1 (position_NAV_of np_log np_exp w f0 fr)).
Proof.
  unfold sum_axis1. apply Forall_map.
  pose proof (position_NAV_zero_balance w fr) as H.
  induction H as [|r rs Hr Hrs IH]; constructor; [|exact IH].
  cbn [snd]. now apply nansum_zero_or_nan.
Qed.

Lemma guard_all_zero (s : Trajectory) :
  Forall (fun e => snd e = f0) s ->
  Forall (fun x => x = f0) (values (guard_clean s))
  /\ (s <> [] ->
      filter (fun e => snd e <=? f0)%float s <> []).
Proof.
  intro H. unfold guard_clean. destruct H as [|[d x] s Hx Hs].
  - split; [constructor|congruence].
  - cbn [snd] in Hx. subst x. simpl. rewrite Z.eqb_refl. split.
    + apply (Forall_constant (fun x => x = f0) f0 (d :: index s) eq_refl).
    + discriminate.
Qed.

Lemma leverage_adjust_nil (b kd : float) :
  leverage_adjust np_log np_exp b kd [] = [].
Proof. reflexivity. Qed.

(** From a zero balance every value of the period is 0. *)
Lemma zero_balance_period (w : Series asset) (fr : Frame) (kd : float)
  (t : Trajectory) (ew : Series asset) :
  port_balance_calc np_log np_exp w f0 fr kd = Some (t, ew) ->
  Forall (fun x => x = f0) (values t).
Proof.
  intro H.
  destruct (Nat.eqb (List.length w) (count_nan (values w))) eqn:E.
  - apply all_nan_test in E.
    rewrite (port_balance_calc_hold np_log np_exp w f0 fr kd E) in H.
    injection H as <- _.
    apply (Forall_constant (fun x => x = f0) f0 (dates fr) eq_refl).
  - apply not_all_nan_test in E.
    rewrite (port_balance_calc_normal np_log np_exp w f0 fr kd E) in H.
    cbv zeta in H. rewrite guarded_balance_eq in H. cbn [fst snd] in H.
    set (s := sum_axis1 (position_NAV_of np_log np_exp w f0 fr)) in *.
    destruct (guard_all_zero s (sum_axis1_zero_balance w fr)) as [Hz Hne].
    unfold check_negative_balance in H. rewrite store_get_set_same in H.
    destruct s as [|e s'] eqn:Es.
    + change (guard_clean []) with (@nil (date * float)) in H.
      destruct ((f0 <? kd)%float && _) in H;
        rewrite ?leverage_adjust_nil in H; discriminate.
    + destruct (filter _ (e :: s')) as [|[d x] rest] eqn:F.
      { exfalso. now apply Hne. }
      cbn [fst] in H. rewrite andb_false_r in H.
      destruct (iloc_last _) as [[dl v]|]; [|discriminate].
      destruct (iloc_last (rows _)) as [[dr r]|]; [|discriminate].
      injection H as <- _. exact Hz.
Qed.

End ZeroBalance.

Lemma length_cumsum_from (l : list float) :
  forall acc, List.length (cumsum_from acc l) = List.length l.
Proof.
  induction l as [|x l IH]; intro acc; [reflexivity|].
  simpl. destruct (isnan x); simpl; now rewrite IH.
Qed.

Lemma length_pct_from (l : list float) :
  forall prev, List.length (pct_from prev l) = List.length l.
Proof.
  induction l as [|x l IH]; intro prev; [reflexivity|].
  simpl. now rewrite IH.
Qed.

Lemma length_pct_change (l : list float) :
  List.length (pct_change l) = List.length l.
Proof.
  destruct l as [|x l]; [reflexivity|]. simpl. now rewrite length_pct_from.
Qed.

Lemma values_combine_same_length {K} (ks : list K) (vs : list float) :
  List.length ks = List.length vs -> values (combine ks vs) = vs.
Proof.
  revert vs. induction ks as [|k ks IH]; intros [|v vs] H;
    try discriminate; [reflexivity|].
  simpl. f_equal. apply IH. now injection H.
Qed.

(** *** Ruin across periods *)

Lemma get_net_balance_ruined (b c : float) :
  (f0 <? b)%float = false -> get_net_balance b c = f0.
Proof. intro H. unfold get_net_balance. now rewrite H. Qed.

Lemma In_key {V} (k : nat) (v : V) (d : list (nat * V)) :
  In (k, v) d -> In k (map fst d).
Proof. intro H. now apply (in_map fst) in H. Qed.

Section RuinAcrossPeriods.

Variables np_log np_exp : float -> float.
Variable portfolios : Portfolios.
Variable end_date : date.
Variable sim_price_data : Frame.
Variables trans_cost annual_kd : float.
Variable n_rebalances : nat.

Lemma ruin_invariant_step (k : nat) (st st' : LoopState) :
  ruin_invariant k st ->
  loop_body np_log np_exp portfolios end_date sim_price_data trans_cost
    annual_kd n_rebalances k st = Next st' ->
  ruin_invariant (S k) st'.
Proof.
  intros (Hkeys & Hzero & Hbal) Hb.
  destruct (loop_body_next _ _ _ _ _ _ _ _ _ _ _ Hb)
    as (col & d & fr & t & _ & _ & _ & Hc & [dl Hlast] & Hadb & _).
  destruct (dict_set_next _ k t Hkeys) as [Hset Hkeys'].
  rewrite Hset in Hadb.
  assert (Hruined : (f0 <? balance st)%float = false ->
                    Forall (fun x => x = f0) (values t)).
  { intro Hnp. rewrite (get_net_balance_ruined _ _ Hnp) in Hc.
    exact (zero_balance_period _ _ _ _ _ _ _ Hc). }
  assert (Hold : forall i ti, In (i, ti) (all_dates_balance st) ->
                              (i < k)%nat).
  { intros i ti Hin. apply In_key in Hin. rewrite Hkeys in Hin.
    apply in_seq in Hin. lia. }
  unfold ruin_invariant. rewrite Hadb. split; [exact Hkeys'|]. split.
  - intros i j ti tj Hi Hj Hlt Hr.
    apply in_app_or in Hi, Hj.
    destruct Hi as [Hi|[Hi|[]]], Hj as [Hj|[Hj|[]]].
    + exact (Hzero i j ti tj Hi Hj Hlt Hr).
    + injection Hj as <- <-. apply Hruined. exact (Hbal i ti Hi Hr).
    + injection Hi as <- <-. apply Hold in Hj. lia.
    + injection Hi as <- <-. injection Hj as <- <-. lia.
  - intros i ti Hi Hr. apply in_app_or in Hi.
    destruct Hi as [Hi|[Hi|[]]].
    + specialize (Hruined (Hbal i ti Hi Hr)).
      apply iloc_last_in in Hlast. apply (in_map snd) in Hlast.
      cbn [snd] in Hlast. rewrite Forall_forall in Hruined.
      now rewrite (Hruined _ Hlast).
    + injection Hi as <- <-. destruct Hr as (d' & v & Hv & Hnp).
      rewrite Hlast in Hv. now injection Hv as _ <-.
Qed.

End RuinAcrossPeriods.

Lemma run_zero_after (np_log np_exp : float -> float)
  (starting_balance : float) (rebalance_dates : list date)
  (portfolios : Portfolios) (end_date : date) (sim_price_data : Frame)
  (trans_cost annual_kd : float) (result : list (nat * Trajectory)) :
  get_balance np_log np_exp starting_balance rebalance_dates portfolios
    end_date sim_price_data trans_cost annual_kd = Some result ->
  zero_after result.
Proof.
  intro Hrun. unfold get_balance in Hrun.
  destruct rebalance_dates as [|first_date rest]; [discriminate|].
  destruct (for_loop _ _ _ _ _ _ _ _ _ _) as [st_end|] eqn:El;
    [|discriminate].
  injection Hrun as <-.
  destruct (for_loop_invariant np_log np_exp portfolios end_date
              sim_price_data trans_cost annual_kd
              (List.length (first_date :: rest))
              ruin_invariant
              (ruin_invariant_step np_log np_exp portfolios end_date
                 sim_price_data trans_cost annual_kd
                 (List.length (first_date :: rest)))
              (List.length (first_date :: rest)) 0%nat
              (mkLoopState [] starting_balance first_date
                 (constant f0 (columns sim_price_data)) None)
              st_end) as [k [_ (_ & Hzero & _)]].
  - unfold ruin_invariant. cbn. split; [reflexivity|].
    split; [intros i j ti tj []|intros i ti []].
  - exact El.
  - exact Hzero.
Qed.

(** ** The theorems on concrete inputs *)

Lemma long_short_not_all_nan : ~ all_nan long_short.
Proof. apply not_all_nan_test. reflexivity. Qed.

Lemma long_only_not_all_nan : ~ all_nan long_only.
Proof. apply not_all_nan_test. reflexivity. Qed.

(** The first scenario of the description: 1000 in one asset over +10%
    and -50% gives 1100.00 and 550.00, and an ending weight of 1. *)
Example scenario_up_down :
  port_balance_calc log_model exp_model long_only (Fin 1000)
    returns_up_down f0
  = Some ([(1%Z, Fin 1100); (2%Z, Fin 550)], [(asset_A, f1)]).
Proof. vm_compute. reflexivity. Qed.

(** The second scenario: a total loss gives the trajectory [0.00] and an
    ending weight of NaN. *)
Example scenario_wipeout :
  port_balance_calc log_model exp_model long_only (Fin 1000)
    returns_wipeout f0
  = Some ([(1%Z, f0)], [(asset_A, NaN)]).
Proof. vm_compute. reflexivity. Qed.

(** A run over [crash_prices]: ruin in the first period, zeros after. *)
Example run_switch :
  get_balance log_model exp_model (Fin 1000) [0%Z; 2%Z] switch_portfolios
    4%Z crash_prices (Fin (1 # 100)) f0
  = Some [(0%nat, [(1%Z, Fin 495); (2%Z, f0)]);
          (1%nat, [(3%Z, f0); (4%Z, f0)])].
Proof. vm_compute. reflexivity. Qed.

(** A leveraged run at a transaction cost of 3.125%: unwinding the
    position at the second rebalance costs more than the balance, and the
    hold that follows carries a negative balance. *)
Example run_leveraged :
  get_balance log_model exp_model (Fin 1000) [0%Z; 2%Z]
    leveraged_portfolios 4%Z flat_prices (Fin (1 # 32)) f0
  = Some [(0%nat, [(1%Z, Fin (13281 # 100)); (2%Z, Fin (13281 # 100))]);
          (1%nat, [(2%Z, Fin (- (249 # 4))); (3%Z, Fin (- (249 # 4)));
                   (4%Z, Fin (- (249 # 4)))])].
Proof. vm_compute. reflexivity. Qed.

(** C1.  The claim fails on the code.  In the run [run_leveraged] the
    first period ends at 132.81 with ending weights 24 and -23; leaving
    these positions at a rate of 3.125% costs 1.46875 of the balance, so
    that [get_net_balance] returns 132.81 * (1 - 1.46875) = -62.25; the
    second period is a hold, which records that balance as it is, without
    the guard.  The trajectory recorded for the second period starts at
    -62.25 and stays there: a value [<= 0] followed by values that are
    not 0. *)
Theorem ruin_monotonicity_broken :
  get_balance log_model exp_model (Fin 1000) [0%Z; 2%Z]
    leveraged_portfolios 4%Z flat_prices (Fin (1 # 32)) f0
  = Some [(0%nat, [(1%Z, Fin (13281 # 100)); (2%Z, Fin (13281 # 100))]);
          (1%nat, [(2%Z, Fin (- (249 # 4))); (3%Z, Fin (- (249 # 4)));
                   (4%Z, Fin (- (249 # 4)))])]
  /\ ~ ruin_monotone
        [(0%nat, [(1%Z, Fin (13281 # 100)); (2%Z, Fin (13281 # 100))]);
         (1%nat, [(2%Z, Fin (- (249 # 4))); (3%Z, Fin (- (249 # 4)));
                  (4%Z, Fin (- (249 # 4)))])].
Proof.
  split; [vm_compute; reflexivity|].
  intros [H _].
  specialize (H 1%nat _ (or_intror (or_introl eq_refl))).
  specialize (H 0%nat 1%nat (Fin (- (249 # 4))) (Fin (- (249 # 4)))
                eq_refl eq_refl (Nat.lt_0_1) eq_refl).
  vm_compute in H. discriminate H.
Qed.

(** The leverage adjustment can itself produce a 0 followed by NaN: at a
    daily cost of one half a day that halves the balance gives
    [log 0 = -inf], and a worse day after it gives the log of a negative
    number. *)
Example leverage_adjusted_not_permanent :
  port_balance_calc log_model exp_model
    [(asset_A, Fin 2); (asset_B, Fin (- (1)))] (Fin 100) returns_falling
    (Fin (1 # 2))
  = Some ([(1%Z, NaN); (2%Z, f0); (3%Z, NaN)],
          [(asset_A, NaN); (asset_B, NaN)]).
Proof. vm_compute. reflexivity. Qed.

(** Long 1.5 and short 0.5 on a balance of 100, with the long asset at
    -25% and then -26.67%: the guard's trajectory is 100.00, 62.50, 32.50.
    At a daily leverage cost of 0.1% the percent changes -37.5% and -48%
    become -37.6% and -48.1%, and the trajectory returned is undefined at
    the first date, then 100 * 0.624 = 62.4 and 62.4 * 0.519 = 32.3856,
    to the last digits of the logarithm and the exponential.  At no
    leverage cost the trajectory returned is the guard's. *)
Lemma leverage_adjustment_spec_witness :
  (exists t ew,
      port_balance_calc log_model exp_model long_short (Fin 100)
        returns_falling (Fin (1 # 1000)) = Some (t, ew)
      /\ index t = [1%Z; 2%Z; 3%Z]
      /\ map (fun v => round v 9) (values t)
         = [NaN; Fin (312 # 5); Fin (20241 # 625)])
  /\ (exists t ew,
        port_balance_calc log_model exp_model long_short (Fin 100)
          returns_falling f0 = Some (t, ew)
        /\ t = [(1%Z, Fin 100); (2%Z, Fin (125 # 2)); (3%Z, Fin (65 # 2))]).
Proof.
  split.
  - destruct (port_balance_calc log_model exp_model long_short (Fin 100)
                returns_falling (Fin (1 # 1000))) as [[t ew]|] eqn:E.
    2:{ vm_compute in E. discriminate E. }
    exists t, ew. split; [reflexivity|].
    destruct (leverage_adjustment_spec log_model exp_model long_short
                (Fin 100) returns_falling (Fin (1 # 1000)) t ew
                long_short_not_all_nan E) as [H _].
    rewrite H; [|reflexivity|vm_compute; reflexivity].
    split; vm_compute; reflexivity.
  - destruct (port_balance_calc log_model exp_model long_short (Fin 100)
                returns_falling f0) as [[t ew]|] eqn:E.
    2:{ vm_compute in E. discriminate E. }
    exists t, ew. split; [reflexivity|].
    destruct (leverage_adjustment_spec log_model exp_model long_short
                (Fin 100) returns_falling f0 t ew
                long_short_not_all_nan E) as (_ & H & _).
    rewrite H; [|left; reflexivity]. vm_compute. reflexivity.
Defined.

Lemma all_nan_weights_hold_witness :
  exists t ew,
    port_balance_calc log_model exp_model
      [(asset_A, NaN); (asset_B, NaN)] (Fin 539) returns_falling
      (Fin (1 # 1000)) = Some (t, ew)
    /\ index t = [1%Z; 2%Z; 3%Z]
    /\ Forall (fun x => x = Fin 539) (values t)
    /\ index ew = [asset_A; asset_B]
    /\ Forall (fun x => x = f0) (values ew).
Proof.
  apply (all_nan_weights_hold log_model exp_model
           [(asset_A, NaN); (asset_B, NaN)] (Fin 539) returns_falling
           (Fin (1 # 1000))).
  repeat constructor.
Defined.

Lemma leverage_first_entry_nan_witness :
  exists d x rest ew,
    snd (guarded_balance log_model exp_model long_short (Fin 100)
           returns_falling) = (d, x) :: rest
    /\ port_balance_calc log_model exp_model long_short (Fin 100)
         returns_falling (Fin (1 # 1000))
       = Some ((d, NaN)
               :: with_values rest
                    (map (fun c => Fin 100 * exp_model c)%float
                       (cumsum
                          (map (fun p =>
                                  log_model (f1 + (p - Fin (1 # 1000)))%float)
                             (pct_from x (values rest))))),
               ew).
Proof.
  apply (leverage_first_entry_nan log_model exp_model long_short (Fin 100)
           returns_falling (Fin (1 # 1000))).
  - reflexivity.
  - reflexivity.
  - exact long_short_not_all_nan.
  - discriminate.
  - reflexivity.
  - vm_compute. reflexivity.
Defined.

(** The total loss of the description: the trajectory ends at 0.00 and
    the ending weight is 0 / 0.  And a run on [hedged_portfolios] at a
    rate of 1%: the positions of the first period, 980.00 and -980.00,
    add up to 0, the ending weights are 980 / 0 and -980 / 0, and the
    cost model of the second pass, given these weights, returns an
    infinite rebalance cost. *)
Lemma ending_weights_division_witness :
  (exists d final dr last_row,
      iloc_last [(1%Z, f0)] = Some (d, final)
      /\ iloc_last (rows (position_NAV_of log_model exp_model long_only
                            (Fin 1000) returns_wipeout))
         = Some (dr, last_row)
      /\ [(asset_A, NaN)]
         = combine (columns (position_NAV_of log_model exp_model long_only
                               (Fin 1000) returns_wipeout))
             (map (fun v => v / final)%float last_row)
      /\ (is_zero final ->
            forallb undefined_weight (values [(asset_A, NaN)]) = true))
  /\ (exists st' st'' v',
        loop_body log_model exp_model hedged_portfolios 4%Z flat_prices
          (Fin (1 # 100)) f0 2 0
          (mkLoopState [] (Fin 1000) 0%Z
             (constant f0 (columns flat_prices)) None) = Next st'
        /\ loop_body log_model exp_model hedged_portfolios 4%Z flat_prices
             (Fin (1 # 100)) f0 2 1 st' = Next st''
        /\ last_weights st' = [(asset_A, PInf); (asset_B, NInf)]
        /\ pass_locals flat_prices (Fin (1 # 100)) f0
             (2%Z, [(asset_A, f1); (asset_B, NaN)]) 4%Z st' = Some v'
        /\ (pass_reb_cost v', pass_lev_cost v') = (PInf, f0)
        /\ pass_net_balance v' = f0
        /\ all_dates_balance st''
           = [(0%nat, [(1%Z, f0); (2%Z, f0)]);
              (1%nat, [(3%Z, f0); (4%Z, f0)])]).
Proof.
  destruct (ending_weights_division log_model exp_model hedged_portfolios
              4%Z flat_prices (Fin (1 # 100)) f0 2%nat) as [Ha Hb].
  split.
  - exact (Ha long_only (Fin 1000) returns_wipeout f0 _ _
              long_only_not_all_nan scenario_wipeout).
  - exists (mkLoopState [(0%nat, [(1%Z, f0); (2%Z, f0)])] f0 2%Z
              [(asset_A, PInf); (asset_B, NInf)] (Some 2%Z)),
           (mkLoopState [(0%nat, [(1%Z, f0); (2%Z, f0)]);
                         (1%nat, [(3%Z, f0); (4%Z, f0)])] f0 4%Z
              [(asset_A, NaN)] (Some 4%Z)).
    assert (E1 : loop_body log_model exp_model hedged_portfolios 4%Z
                   flat_prices (Fin (1 # 100)) f0 2 0
                   (mkLoopState [] (Fin 1000) 0%Z
                      (constant f0 (columns flat_prices)) None)
                 = Next (mkLoopState [(0%nat, [(1%Z, f0); (2%Z, f0)])] f0 2%Z
                           [(asset_A, PInf); (asset_B, NInf)] (Some 2%Z)))
      by (vm_compute; reflexivity).
    assert (E2 : loop_body log_model exp_model hedged_portfolios 4%Z
                   flat_prices (Fin (1 # 100)) f0 2 1
                   (mkLoopState [(0%nat, [(1%Z, f0); (2%Z, f0)])] f0 2%Z
                      [(asset_A, PInf); (asset_B, NInf)] (Some 2%Z))
                 = Next (mkLoopState [(0%nat, [(1%Z, f0); (2%Z, f0)]);
                                      (1%nat, [(3%Z, f0); (4%Z, f0)])]
                           f0 4%Z [(asset_A, NaN)] (Some 4%Z)))
      by (vm_compute; reflexivity).
    destruct (Hb 0%nat _ _ _ E1 E2)
      as (col & d & v & t & ew & col' & d' & v' & t' & _ & _ & _ & _ & Hlw
          & Hcol' & Hd' & Hv' & Hcosts & Hnet & _ & _).
    exists v'. cbn in Hcol'. injection Hcol' as <-.
    vm_compute in Hd'. injection Hd' as <-.
    cbn [last_weights] in Hlw. subst ew.
    split; [exact E1|]. split; [exact E2|]. split; [reflexivity|].
    split; [exact Hv'|].
    split; [rewrite Hcosts; vm_compute; reflexivity|].
    split; [rewrite Hnet; reflexivity|reflexivity].
Defined.

Lemma get_balance_is_fold_witness :
  map fst switch_portfolios = [0%Z; 2%Z]
  /\ get_balance log_model exp_model (Fin 1000) [0%Z; 2%Z]
       switch_portfolios 4%Z crash_prices (Fin (1 # 100)) f0
     = orchestrate log_model exp_model [0%Z; 2%Z] switch_portfolios 4%Z
         crash_prices (Fin (1 # 100)) f0 (Fin 1000).
Proof.
  split; [reflexivity|].
  exact (proj1 (get_balance_is_fold log_model exp_model [0%Z; 2%Z]
                  switch_portfolios 4%Z crash_prices (Fin (1 # 100)) f0
                  eq_refl (Fin 1000))).
Defined.

(** * Further properties of the code *)

(** ** The guard *)

Lemma not_le_not_lt (x : float) :
  (x <=? f0)%float = false -> (x <? f0)%float = false.
Proof.
  destruct x as [q| | |]; simpl; try reflexivity; try discriminate.
  intro H. apply Qle_bool_false in H.
  apply negb_false_iff, Qle_bool_iff. now apply Qlt_le_weak.
Qed.

Lemma set_from_label_not_negative (s : Trajectory) :
  forall d x rest,
    filter (fun e => snd e <=? f0)%float s = (d, x) :: rest ->
    Forall (fun v => (v <? f0)%float = false)
           (values (set_from_label d f0 s)).
Proof.
  induction s as [|[d0 x0] s IH]; intros d x rest H; [discriminate|].
  simpl in H. simpl set_from_label.
  destruct (x0 <=? f0)%float eqn:E.
  - injection H as -> _ _. rewrite Z.eqb_refl.
    exact (Forall_constant (fun v => (v <? f0)%float = false) f0
             (d :: index s) eq_refl).
  - destruct (Z.eqb d0 d).
    + exact (Forall_constant (fun v => (v <? f0)%float = false) f0
               (d0 :: index s) eq_refl).
    + simpl. constructor; [now apply not_le_not_lt|].
      exact (IH d x rest H).
Qed.

Lemma guard_clean_not_negative (s : Trajectory) :
  Forall (fun v => (v <? f0)%float = false) (values (guard_clean s)).
Proof.
  unfold guard_clean.
  destruct (filter _ s) as [|[d x] rest] eqn:E.
  - apply filter_nonpos_nil in E. unfold values.
    induction s as [|[d0 x0] s IH]; [constructor|].
    simpl in E. apply orb_false_iff in E. destruct E as [E0 E].
    simpl. constructor; [now apply not_le_not_lt|now apply IH].
  - exact (set_from_label_not_negative s d x rest E).
Qed.

Lemma nan_not_nonpos (l : list float) :
  Forall (fun v => isnan v = true) l ->
  existsb (fun v => v <=? f0)%float l = false.
Proof.
  induction 1 as [|x l Hx Hl IH]; [reflexivity|].
  simpl. rewrite IH. now destruct x.
Qed.

(** X1. Whatever the Series, after [check_negative_balance] it has the
    index it had and holds no negative value.  A flag of [True] means that
    the store is as it was, and NaN never counts as ruin: a Series of NaN
    only gets the flag [True]. *)
Theorem guard_never_negative (series : ref) (h : Store) :
  let flag := fst (check_negative_balance series h) in
  let h' := snd (check_negative_balance series h) in
  index (h' series) = index (h series)
  /\ Forall (fun v => (v <? f0)%float = false) (values (h' series))
  /\ (flag = true -> forall r, h' r = h r)
  /\ (Forall (fun v => isnan v = true) (values (h series)) -> flag = true).
Proof.
  intros flag h'. subst flag h'.
  rewrite check_negative_balance_clean.
  split; [apply index_guard_clean|].
  split; [apply guard_clean_not_negative|]. split.
  - unfold check_negative_balance.
    destruct (filter _ (h series)) as [|[d x] rest]; [reflexivity|discriminate].
  - intro H. rewrite check_negative_balance_flag.
    now rewrite (nan_not_nonpos _ H).
Qed.

Lemma guard_never_negative_witness :
  values (snd (check_negative_balance 0%nat guard_store) 0%nat)
  = [Fin 3; NaN; f0; f0]
  /\ fst (check_negative_balance 1%nat guard_store) = true
  /\ snd (check_negative_balance 1%nat guard_store) 0%nat
     = guard_store 0%nat.
Proof.
  destruct (guard_never_negative 1%nat guard_store) as (_ & _ & Hsame & Hnan).
  assert (F : fst (check_negative_balance 1%nat guard_store) = true)
    by (apply Hnan; repeat constructor).
  split; [reflexivity|]. split; [exact F|]. exact (Hsame F 0%nat).
Defined.

Lemma set_from_label_idempotent (d : date) (v : float) (s : Trajectory) :
  set_from_label d v (set_from_label d v s) = set_from_label d v s.
Proof.
  induction s as [|[d0 x0] s IH]; [reflexivity|].
  simpl. destruct (Z.eqb d0 d) eqn:E.
  - change (constant v (d0 :: index s))
      with ((d0, v) :: constant v (index s)).
    simpl. rewrite E. now rewrite index_constant.
  - simpl. rewrite E. now rewrite IH.
Qed.

Lemma set_from_label_first (s : Trajectory) :
  forall d x rest,
    filter (fun e => snd e <=? f0)%float s = (d, x) :: rest ->
    exists rest',
      filter (fun e => snd e <=? f0)%float (set_from_label d f0 s)
      = (d, f0) :: rest'.
Proof.
  induction s as [|[d0 x0] s IH]; intros d x rest H; [discriminate|].
  simpl in H. simpl set_from_label.
  destruct (x0 <=? f0)%float eqn:E.
  - injection H as -> _ _. rewrite Z.eqb_refl.
    change (constant f0 (d :: index s)) with ((d, f0) :: constant f0 (index s)).
    simpl. eauto.
  - destruct (Z.eqb d0 d) eqn:Ed.
    + apply Z.eqb_eq in Ed. subst d0.
      change (constant f0 (d :: index s))
        with ((d, f0) :: constant f0 (index s)).
      simpl. eauto.
    + simpl. rewrite E. exact (IH d x rest H).
Qed.

Lemma guard_clean_idempotent (s : Trajectory) :
  guard_clean (guard_clean s) = guard_clean s.
Proof.
  unfold guard_clean at 2 3.
  destruct (filter _ s) as [|[d x] rest] eqn:E.
  - unfold guard_clean. now rewrite E.
  - destruct (set_from_label_first s d x rest E) as [rest' E'].
    unfold guard_clean. rewrite E'. apply set_from_label_idempotent.
Qed.

(** X2. The guard is idempotent: called a second time on the same Series
    it returns the same flag and leaves every object as the first call
    left it. *)
Theorem guard_idempotent (series : ref) (h : Store) :
  let once := check_negative_balance series h in
  let twice := check_negative_balance series (snd once) in
  fst twice = fst once /\ forall r, snd twice r = snd once r.
Proof.
  intros once twice. subst once twice. split.
  - rewrite !check_negative_balance_flag, check_negative_balance_clean.
    unfold check_negative_balance, guard_clean.
    destruct (filter _ (h series)) as [|[d x] rest] eqn:E.
    + reflexivity.
    + destruct (set_from_label_first _ d x rest E) as [rest' E'].
      destruct (existsb _ (values (h series))) eqn:X.
      * destruct (existsb _ (values (set_from_label d f0 (h series)))) eqn:Y;
          [reflexivity|].
        apply filter_nonpos_nil in Y. congruence.
      * apply filter_nonpos_nil in X. congruence.
  - intro r. destruct (Nat.eq_dec r series) as [->|Hr].
    + rewrite !check_negative_balance_clean. apply guard_clean_idempotent.
    + now rewrite check_negative_balance_other.
Qed.

(** ** Costs *)

Lemma scale10_pos (n : nat) : 0 < scale10 n.
Proof. destruct n; reflexivity. Qed.

Lemma round_half_even_bounds (q : Q) :
  (Qfloor q <= round_half_even q <= Qfloor q + 1)%Z.
Proof.
  unfold round_half_even.
  destruct (q - inject_Z (Qfloor q) ?= 1 # 2); [|lia|lia].
  destruct (Z.even (Qfloor q)); lia.
Qed.

Lemma round_half_even_monotone (a b : Q) :
  a <= b -> (round_half_even a <= round_half_even b)%Z.
Proof.
  intro Hab. pose proof (Qfloor_resp_le _ _ Hab) as Hf.
  pose proof (round_half_even_bounds a) as Ba.
  pose proof (round_half_even_bounds b) as Bb.
  destruct (Z.eq_dec (Qfloor a) (Qfloor b)) as [E|N]; [|lia].
  unfold round_half_even. rewrite <- E.
  destruct (a - inject_Z (Qfloor a) ?= 1 # 2) eqn:Ca;
    destruct (b - inject_Z (Qfloor a) ?= 1 # 2) eqn:Cb;
    try lia; try (destruct (Z.even (Qfloor a)); lia); exfalso.
  - apply Qeq_alt in Ca. apply Qlt_alt in Cb.
    apply (Qlt_irrefl (1 # 2)). rewrite <- Ca at 1.
    apply Qle_lt_trans with (b - inject_Z (Qfloor a)); [|exact Cb].
    apply Qplus_le_l. exact Hab.
  - apply Qgt_alt in Ca. apply Qeq_alt in Cb.
    apply (Qlt_irrefl (1 # 2)). rewrite <- Cb at 2.
    apply Qlt_le_trans with (a - inject_Z (Qfloor a)); [exact Ca|].
    apply Qplus_le_l. exact Hab.
  - apply Qgt_alt in Ca. apply Qlt_alt in Cb.
    apply (Qlt_irrefl (1 # 2)).
    apply Qlt_trans with (a - inject_Z (Qfloor a)); [exact Ca|].
    apply Qle_lt_trans with (b - inject_Z (Qfloor a)); [|exact Cb].
    apply Qplus_le_l. exact Hab.
Qed.

(** Rounding keeps the order of finite numbers. *)
Lemma round_monotone (a b : Q) (n : nat) :
  a <= b -> (round (Fin a) n <=? round (Fin b) n)%float = true.
Proof.
  intro Hab. unfold round, fin. apply fleb_fin. rewrite !Qred_correct.
  apply Qmult_le_compat_r.
  - rewrite <- Zle_Qle. apply round_half_even_monotone.
    apply Qmult_le_compat_r; [exact Hab|]. apply Qlt_le_weak, scale10_pos.
  - apply Qlt_le_weak, Qinv_lt_0_compat, scale10_pos.
Qed.

Lemma nonneg_num_cases (x : float) :
  nonneg_num x <-> x = PInf \/ exists q, x = Fin q /\ 0 <= q.
Proof.
  unfold nonneg_num. split.
  - destruct x as [q| | |]; simpl; intros [Hn Hl]; try discriminate.
    + right. exists q. split; [reflexivity|].
      apply negb_false_iff in Hl. now apply Qle_bool_iff.
    + now left.
  - intros [->|[q [-> Hq]]]; simpl; [now split|].
    split; [reflexivity|]. apply negb_false_iff. now apply Qle_bool_iff.
Qed.

Lemma round_nonneg (x : float) (n : nat) :
  nonneg_num x -> nonneg_num (round x n).
Proof.
  intro H. apply nonneg_num_cases in H. destruct H as [->|[q [-> Hq]]].
  - now split.
  - pose proof (round_monotone 0 q n Hq) as M.
    change (round (Fin 0) n) with (round f0 n) in M. rewrite round_zero in M.
    unfold round in *. unfold fin in *. split; [reflexivity|].
    simpl in M. simpl. now rewrite M.
Qed.

Lemma fabs_nonneg_or_nan (x : float) : fabs x = NaN \/ nonneg_num (fabs x).
Proof.
  destruct x as [q| | |]; simpl; [|right; now split|right; now split|now left].
  right. apply nonneg_num_cases. right. exists (Qred (Qabs q)).
  split; [reflexivity|]. rewrite Qred_correct. apply Qabs_nonneg.
Qed.

Lemma fmul_rate_nonneg (d rate : float) :
  d = NaN \/ nonneg_num d -> (rate <=? f0)%float = false ->
  (d * rate)%float = NaN \/ nonneg_num (d * rate).
Proof.
  intros [->|Hd] Hr; [left; apply fmul_nan_l|].
  apply nonneg_num_cases in Hd.
  destruct rate as [t| | |]; try discriminate;
    [| |left; apply fmul_nan_r].
  - simpl in Hr. apply Qle_bool_false in Hr.
    destruct Hd as [->|[a [-> Ha]]].
    + right. simpl. rewrite (inf_times_pos _ _ Hr). now split.
    + right. apply nonneg_num_cases. right. exists (Qred (a * t)).
      split; [reflexivity|]. rewrite Qred_correct.
      apply Qmult_le_0_compat; [exact Ha|now apply Qlt_le_weak].
  - destruct Hd as [->|[a [-> Ha]]]; [right; now split|].
    simpl. unfold inf_times. destruct (Qsgn a) eqn:S.
    + now left.
    + apply Qsgn_lt in S. exfalso. exact (Qlt_not_le _ _ S Ha).
    + right. now split.
Qed.

Lemma fadd_nonneg (x y : float) :
  nonneg_num x -> nonneg_num y -> nonneg_num (x + y).
Proof.
  intros Hx Hy. apply nonneg_num_cases in Hx, Hy. apply nonneg_num_cases.
  destruct Hx as [->|[a [-> Ha]]], Hy as [->|[b [-> Hb]]];
    try (now left).
  right. exists (Qred (a + b)). split; [reflexivity|].
  rewrite Qred_correct. rewrite <- (Qplus_0_r 0).
  now apply Qplus_le_compat.
Qed.

Lemma nansum_nonneg_from (l : list float) :
  Forall (fun d => d = NaN \/ nonneg_num d) l ->
  forall acc, nonneg_num acc -> nonneg_num (fold_left nansum_step l acc).
Proof.
  induction 1 as [|x l Hx Hl IH]; intros acc Hacc; [exact Hacc|].
  simpl. apply IH. unfold nansum_step.
  destruct Hx as [->|Hx]; [exact Hacc|].
  destruct Hx as [Hn Hl']. rewrite Hn. apply fadd_nonneg; [exact Hacc|].
  now split.
Qed.

Lemma nansum_nonneg (l : list float) :
  Forall (fun d => d = NaN \/ nonneg_num d) l -> nonneg_num (nansum l).
Proof.
  intro H. rewrite nansum_fold. apply nansum_nonneg_from; [exact H|].
  now split.
Qed.

(** X3. Whatever the weights and the rates (NaN and infinities
    included), the rebalance cost of [get_costs] is a number that is not
    negative, neither NaN nor [< 0], and the leverage cost is never
    [< 0]. *)
Theorem get_costs_not_negative (trans_cost : float)
  (portfolio_weights last_weights : Series asset) (annual_kd : float) :
  nonneg_num
    (fst (get_costs trans_cost portfolio_weights last_weights annual_kd))
  /\ (snd (get_costs trans_cost portfolio_weights last_weights annual_kd)
      <? f0)%float = false.
Proof.
  unfold get_costs. cbn [fst snd].
  split; [|apply leverage_cost_not_negative].
  destruct (trans_cost <=? f0)%float eqn:E; [now split|].
  unfold calculate_rebalance_cost, align.
  rewrite values_zip_align, map_map.
  apply round_nonneg, nansum_nonneg.
  apply Forall_map, Forall_forall. intros a _.
  apply fmul_rate_nonneg; [apply fabs_nonneg_or_nan|exact E].
Qed.

Lemma fsub_self (x : float) : zero_or_nan (x - x).
Proof.
  destruct x as [q| | |]; simpl; try (now right).
  left. apply fin_zero. rewrite Qred_correct. ring.
Qed.

Lemma fabs_zero_or_nan (x : float) : zero_or_nan x -> zero_or_nan (fabs x).
Proof. intros [->| ->]; [now left|now right]. Qed.

(** X4. Rebalancing a portfolio into itself costs nothing: for every
    weight vector (NaN and infinite weights included) and every rate the
    rebalance cost of [get_costs] against the same vector is 0. *)
Theorem rebalance_into_itself_is_free (trans_cost : float)
  (weights : Series asset) (annual_kd : float) :
  fst (get_costs trans_cost weights weights annual_kd) = f0.
Proof.
  unfold get_costs. cbn [fst].
  destruct (trans_cost <=? f0)%float; [reflexivity|].
  unfold calculate_rebalance_cost, align.
  rewrite values_zip_align, map_map.
  rewrite nansum_zero_or_nan; [apply round_zero|].
  apply Forall_map, Forall_forall. intros a _.
  apply fmul_zero_or_nan_l, fabs_zero_or_nan, fsub_self.
Qed.

(** X5. With a finite balance and a cost fraction between 0 and 1 the net
    balance is never negative and never above the rounded balance. *)
Theorem net_balance_bounds (b c : Q) :
  0 <= c -> c <= 1 ->
  (f0 <=? get_net_balance (Fin b) (Fin c))%float = true
  /\ (0 < b ->
      (get_net_balance (Fin b) (Fin c) <=? round (Fin b) 2)%float = true).
Proof.
  intros Hc0 Hc1. unfold get_net_balance.
  destruct (f0 <? Fin b)%float eqn:E.
  - apply fltb_fin in E.
    assert (Hlo : 0 <= Qred (b * Qred (1 + Qred (- c)))).
    { rewrite !Qred_correct. apply Qmult_le_0_compat.
      - now apply Qlt_le_weak.
      - rewrite <- (Qplus_opp_r c). apply Qplus_le_l. exact Hc1. }
    assert (Hhi : Qred (b * Qred (1 + Qred (- c))) <= b).
    { rewrite !Qred_correct. rewrite <- (Qmult_1_r b) at 2.
      apply Qmult_le_l; [exact E|].
      rewrite <- (Qplus_0_r 1) at 2. apply Qplus_le_r.
      apply (Qopp_le_compat 0 c). exact Hc0. }
    split.
    + pose proof (round_monotone _ _ 2 Hlo) as M.
      change (round (Fin 0) 2) with (round f0 2) in M.
      now rewrite round_zero in M.
    + intros _. exact (round_monotone _ _ 2 Hhi).
  - split; [reflexivity|]. intro Hb. apply fltb_fin in Hb.
    unfold f0 in E. congruence.
Qed.

Lemma net_balance_bounds_witness :
  (f0 <=? get_net_balance (Fin 550) (Fin (1 # 50)))%float = true
  /\ (get_net_balance (Fin 550) (Fin (1 # 50)) <=? round (Fin 550) 2)%float
     = true.
Proof.
  destruct (net_balance_bounds 550 (1 # 50)) as [H1 H2];
    [discriminate|discriminate|].
  split; [exact H1|apply H2; reflexivity].
Defined.

(** ** The period simulator *)

Lemma index_combine_same_length {K} (ks : list K) (vs : list float) :
  List.length ks = List.length vs -> index (combine ks vs) = ks.
Proof.
  revert vs. induction ks as [|k ks IH]; intros [|v vs] H;
    try discriminate; [reflexivity|].
  simpl. f_equal. apply IH. now injection H.
Qed.

Lemma iloc_last_cons {A} (x : A) (l : list A) :
  l <> [] -> iloc_last (x :: l) = iloc_last l.
Proof.
  intro H. unfold iloc_last. simpl.
  destruct (rev l) as [|y r] eqn:E; [|reflexivity].
  apply (f_equal (@rev A)) in E. rewrite rev_involutive in E. contradiction.
Qed.

Lemma iloc_last_constant {K} (v : float) (idx : list K) :
  idx <> [] -> exists k, iloc_last (constant v idx) = Some (k, v).
Proof.
  intro H. destruct idx as [|k0 idx]; [congruence|].
  destruct (iloc_last_nonempty (k0, v) (constant v idx)) as [[k x] E].
  change ((k0, v) :: constant v idx) with (constant v (k0 :: idx)) in E.
  exists k. rewrite E. apply iloc_last_in in E.
  unfold constant in E. apply in_map_iff in E.
  destruct E as (k' & Hk & _). now injection Hk as _ <-.
Qed.

Lemma set_from_label_last (d : date) (v : float) (s : Trajectory) :
  In d (index s) -> exists dl, iloc_last (set_from_label d v s) = Some (dl, v).
Proof.
  induction s as [|[d0 x0] s IH]; intro H; [destruct H|].
  simpl. destruct (Z.eqb d0 d) eqn:E.
  - apply (iloc_last_constant v (d0 :: index s)). discriminate.
  - destruct H as [H|H]; [apply Z.eqb_neq in E; simpl in H; congruence|].
    destruct (IH H) as [dl Hl]. exists dl.
    rewrite iloc_last_cons; [exact Hl|].
    intro Hnil. rewrite Hnil in Hl. discriminate.
Qed.

Lemma Forall_values_combine {K} (P : float -> Prop) (ks : list K)
  (vs : list float) :
  Forall P vs -> Forall P (values (combine ks vs)).
Proof.
  revert vs. induction ks as [|k ks IH]; intros [|v vs] H;
    try constructor.
  - now inversion H.
  - apply IH. now inversion H.
Qed.

Section SimulatorProperties.

Variables np_log np_exp : float -> float.

Lemma index_leverage_adjust (b kd : float) (g : Trajectory) :
  index (leverage_adjust np_log np_exp b kd g) = index g.
Proof.
  unfold leverage_adjust, with_values. apply index_combine_same_length.
  unfold cumsum, index, values.
  now rewrite !length_map, length_cumsum_from, !length_map,
    length_pct_change, length_map.
Qed.

(** The trajectory of a period, before [iloc[-1]] is read off it. *)
Lemma period_trajectory_dates (w : Series asset) (b : float) (fr : Frame)
  (kd : float) (t : Trajectory) (ew : Series asset) :
  port_balance_calc np_log np_exp w b fr kd = Some (t, ew) ->
  index t = dates fr.
Proof.
  intro H.
  destruct (Nat.eqb (List.length w) (count_nan (values w))) eqn:E.
  - apply all_nan_test in E.
    rewrite (port_balance_calc_hold np_log np_exp w b fr kd E) in H.
    injection H as <- _. apply index_constant.
  - apply not_all_nan_test in E.
    rewrite (port_balance_calc_normal np_log np_exp w b fr kd E) in H.
    cbv zeta in H.
    destruct ((f0 <? kd)%float && fst (guarded_balance np_log np_exp w b fr));
      (destruct (iloc_last _) as [[dl v]|]; [|discriminate]);
      (destruct (iloc_last (rows _)) as [[dr r]|]; [|discriminate]);
      injection H as <- _.
    + rewrite index_leverage_adjust. apply index_guarded.
    + apply index_guarded.
Qed.

Lemma period_returns (w : Series asset) (b : float) (fr : Frame)
  (kd : float) :
  rows fr <> [] -> port_balance_calc np_log np_exp w b fr kd <> None.
Proof.
  intro Hrows.
  destruct (Nat.eqb (List.length w) (count_nan (values w))) eqn:E.
  - apply all_nan_test in E.
    now rewrite (port_balance_calc_hold np_log np_exp w b fr kd E).
  - apply not_all_nan_test in E.
    rewrite (port_balance_calc_normal np_log np_exp w b fr kd E).
    cbv zeta.
    set (t := if (f0 <? kd)%float && fst (guarded_balance np_log np_exp w b fr)
              then leverage_adjust np_log np_exp b kd
                     (snd (guarded_balance np_log np_exp w b fr))
              else snd (guarded_balance np_log np_exp w b fr)).
    assert (Ht : index t = dates fr).
    { unfold t. destruct (_ && _).
      - rewrite index_leverage_adjust. apply index_guarded.
      - apply index_guarded. }
    pose proof (dates_position_NAV np_log np_exp w b fr) as Hnav.
    unfold dates in Ht, Hnav.
    destruct (rows fr) as [|r0 rs]; [congruence|].
    destruct t as [|e t']; [discriminate|].
    destruct (iloc_last_nonempty e t') as [[dl v] ->].
    destruct (rows (position_NAV_of np_log np_exp w b fr)) as [|n0 ns];
      [discriminate|].
    destruct (iloc_last_nonempty n0 ns) as [[dr r] ->]. discriminate.
Qed.

(** X6. On a returns table with unique dates and unique column labels,
    and weights with unique asset labels, [port_balance_calc] ends in its
    [except] branch, returning nothing, exactly when the weights are not
    all NaN and the returns table has no date; with all-NaN weights an
    empty table gives an empty trajectory instead. *)
Theorem period_fails_iff (w : Series asset) (b : float) (fr : Frame)
  (kd : float) :
  NoDup (dates fr) -> NoDup (columns fr) -> NoDup (index w) ->
  (port_balance_calc np_log np_exp w b fr kd = None
   <-> ~ all_nan w /\ rows fr = []).
Proof.
  intros _ _ _. split.
  - intro H. split.
    + intro Hall.
      rewrite (port_balance_calc_hold np_log np_exp w b fr kd Hall) in H.
      discriminate.
    + destruct (rows fr) as [|r0 rs] eqn:E; [reflexivity|].
      exfalso. apply (period_returns w b fr kd); [|exact H].
      rewrite E. discriminate.
  - intros [Hw Hrows].
    rewrite (port_balance_calc_normal np_log np_exp w b fr kd Hw). cbv zeta.
    pose proof (index_guarded np_log np_exp w b fr) as Hidx.
    unfold dates in Hidx. rewrite Hrows in Hidx. apply map_eq_nil in Hidx.
    rewrite Hidx, leverage_adjust_nil.
    now destruct (_ && _).
Qed.

(** X7. A trajectory that [port_balance_calc] returns carries exactly the
    dates of the returns table, in the same order, whichever branch
    produced it; so it has one value per date. *)
Theorem trajectory_dates (w : Series asset) (b : float) (fr : Frame)
  (kd : float) (t : Trajectory) (ew : Series asset) :
  port_balance_calc np_log np_exp w b fr kd = Some (t, ew) ->
  index t = dates fr /\ List.length t = List.length (rows fr).
Proof.
  intro H. pose proof (period_trajectory_dates _ _ _ _ _ _ H) as Hd.
  split; [exact Hd|].
  apply (f_equal (@List.length date)) in Hd.
  unfold index, dates in Hd. now rewrite !length_map in Hd.
Qed.

(** X8. When the guard reports ruin (weights not all NaN), the period
    still returns: its trajectory is the guard's, whatever the leverage
    cost, its final balance is exactly 0, and every ending weight is NaN
    or an infinity. *)
Theorem ruined_period (w : Series asset) (b : float) (fr : Frame)
  (kd : float) :
  ~ all_nan w ->
  fst (guarded_balance np_log np_exp w b fr) = false ->
  exists ew d,
    port_balance_calc np_log np_exp w b fr kd
    = Some (snd (guarded_balance np_log np_exp w b fr), ew)
    /\ iloc_last (snd (guarded_balance np_log np_exp w b fr)) = Some (d, f0)
    /\ forallb undefined_weight (values ew) = true.
Proof.
  intros Hw Hflag.
  rewrite (port_balance_calc_normal np_log np_exp w b fr kd Hw). cbv zeta.
  rewrite Hflag, andb_false_r.
  assert (Hlast : exists d,
             iloc_last (snd (guarded_balance np_log np_exp w b fr))
             = Some (d, f0)).
  { rewrite guarded_balance_eq in Hflag |- *. cbn [fst snd] in *.
    unfold check_negative_balance in Hflag.
    rewrite store_get_set_same in Hflag. unfold guard_clean.
    destruct (filter _ _) as [|[d x] rest] eqn:F; [discriminate|].
    apply set_from_label_last. apply filter_head_in in F.
    now apply (in_map fst) in F. }
  destruct Hlast as [d Hlast]. rewrite Hlast.
  pose proof (index_guarded np_log np_exp w b fr) as Hidx.
  pose proof (dates_position_NAV np_log np_exp w b fr) as Hnav.
  destruct (rows (position_NAV_of np_log np_exp w b fr)) as [|n0 ns] eqn:En.
  { exfalso. unfold dates in Hnav, Hidx. rewrite En in Hnav.
    rewrite <- Hnav in Hidx.
    destruct (snd (guarded_balance np_log np_exp w b fr)); discriminate. }
  destruct (iloc_last_nonempty n0 ns) as [[dr r] ->].
  eexists _, d. split; [reflexivity|]. split; [reflexivity|].
  apply forallb_values_combine, forallb_map_all.
  intro v. now apply fdiv_by_zero_undefined.
Qed.

Lemma zero_or_nan_div_zero (v : float) :
  zero_or_nan v -> (v / f0)%float = NaN.
Proof. intros [->| ->]; reflexivity. Qed.

(** X9. A period that starts from a balance of exactly 0 on weights that
    are not all NaN returns zeros at every date and an ending weight of
    NaN for every asset. *)
Theorem zero_balance_in_zero_out (w : Series asset) (fr : Frame)
  (kd : float) (t : Trajectory) (ew : Series asset) :
  ~ all_nan w ->
  port_balance_calc np_log np_exp w f0 fr kd = Some (t, ew) ->
  Forall (fun x => x = f0) (values t)
  /\ Forall (fun x => x = NaN) (values ew).
Proof.
  intros Hw H.
  pose proof (zero_balance_period np_log np_exp w fr kd t ew H) as Hz.
  split; [exact Hz|].
  rewrite (port_balance_calc_normal np_log np_exp w f0 fr kd Hw) in H.
  cbv zeta in H.
  destruct (iloc_last _) as [[dl v]|] eqn:El; [|discriminate].
  destruct (iloc_last (rows _)) as [[dr r]|] eqn:Er; [|discriminate].
  injection H as Ht <-. subst t.
  assert (Hv : v = f0).
  { apply iloc_last_in in El. apply (in_map snd) in El.
    rewrite Forall_forall in Hz. exact (Hz _ El). }
  subst v.
  pose proof (position_NAV_zero_balance np_log np_exp w fr) as Hnav.
  apply iloc_last_in in Er. rewrite Forall_forall in Hnav.
  specialize (Hnav _ Er). cbn [snd] in Hnav.
  assert (Hall : Forall (fun x => x = NaN) (map (fun v => v / f0)%float r)).
  { apply Forall_map. rewrite Forall_forall in Hnav |- *.
    intros x Hx. apply zero_or_nan_div_zero. now apply Hnav. }
  now apply Forall_values_combine.
Qed.

Lemma fdiv_nan_r (x : float) : (x / NaN)%float = NaN.
Proof. now destruct x. Qed.

(** X10. A leverage-adjusted period over a single date loses the whole
    balance: the trajectory is NaN at that date, every ending weight is
    NaN, and [get_net_balance] turns the NaN carried on into 0. *)
Theorem single_date_leverage (w : Series asset) (b : float) (fr : Frame)
  (kd : float) (d : date) (r : list float) :
  np_log NaN = NaN -> np_exp NaN = NaN ->
  ~ all_nan w -> rows fr = [(d, r)] ->
  (f0 <? kd)%float = true ->
  fst (guarded_balance np_log np_exp w b fr) = true ->
  exists ew,
    port_balance_calc np_log np_exp w b fr kd = Some ([(d, NaN)], ew)
    /\ Forall (fun x => x = NaN) (values ew)
    /\ forall cost, get_net_balance NaN cost = f0.
Proof.
  intros Hlog Hexp Hw Hrows Hkd Hflag.
  rewrite (port_balance_calc_normal np_log np_exp w b fr kd Hw). cbv zeta.
  rewrite Hkd, Hflag. cbn [andb].
  pose proof (index_guarded np_log np_exp w b fr) as Hidx.
  pose proof (dates_position_NAV np_log np_exp w b fr) as Hnav.
  unfold dates in Hidx, Hnav. rewrite Hrows in Hidx, Hnav.
  destruct (snd (guarded_balance np_log np_exp w b fr)) as [|[d0 x] rest];
    [discriminate|].
  destruct rest; [|discriminate]. injection Hidx as ->.
  rewrite (leverage_adjust_cons np_log np_exp b kd d x [] Hlog Hexp).
  change (with_values [] _) with (@nil (date * float)).
  change (iloc_last [(d, NaN)]) with (Some (d, NaN)).
  destruct (rows (position_NAV_of np_log np_exp w b fr)) as [|n0 ns];
    [discriminate|].
  destruct (iloc_last_nonempty n0 ns) as [[dr lr] ->].
  eexists. split; [reflexivity|]. split; [|reflexivity].
  apply Forall_values_combine, Forall_map, Forall_forall.
  intros x0 _. apply fdiv_nan_r.
Qed.

End SimulatorProperties.

Lemma period_fails_iff_witness :
  port_balance_calc log_model exp_model long_short (Fin 100)
    returns_no_date f0 = None
  /\ port_balance_calc log_model exp_model long_short (Fin 100)
       returns_falling f0 <> None.
Proof.
  assert (N2 : NoDup [asset_A; asset_B])
    by (repeat constructor; simpl; intuition discriminate).
  assert (N3 : NoDup [1%Z; 2%Z; 3%Z])
    by (repeat constructor; simpl; intuition discriminate).
  split.
  - apply (proj2 (period_fails_iff log_model exp_model long_short (Fin 100)
                    returns_no_date f0 (NoDup_nil _) N2 N2)).
    split; [exact long_short_not_all_nan|reflexivity].
  - intro H.
    apply (proj1 (period_fails_iff log_model exp_model long_short (Fin 100)
                    returns_falling f0 N3 N2 N2)) in H.
    destruct H as [_ H]. discriminate H.
Defined.

Lemma trajectory_dates_witness :
  index [(1%Z, Fin 1100); (2%Z, Fin 550)] = dates returns_up_down
  /\ List.length [(1%Z, Fin 1100); (2%Z, Fin 550)]
     = List.length (rows returns_up_down).
Proof.
  exact (trajectory_dates log_model exp_model long_only (Fin 1000)
           returns_up_down f0 _ _ scenario_up_down).
Defined.

Lemma ruined_period_witness :
  exists ew d,
    port_balance_calc log_model exp_model long_only (Fin 1000)
      returns_wipeout (Fin (1 # 1000))
    = Some (snd (guarded_balance log_model exp_model long_only (Fin 1000)
                   returns_wipeout), ew)
    /\ iloc_last (snd (guarded_balance log_model exp_model long_only
                         (Fin 1000) returns_wipeout)) = Some (d, f0)
    /\ forallb undefined_weight (values ew) = true.
Proof.
  apply (ruined_period log_model exp_model long_only (Fin 1000)
           returns_wipeout (Fin (1 # 1000)) long_only_not_all_nan).
  vm_compute. reflexivity.
Defined.

Lemma zero_balance_in_zero_out_witness :
  exists t ew,
    port_balance_calc log_model exp_model long_only f0 returns_up_down f0
    = Some (t, ew)
    /\ Forall (fun x => x = f0) (values t)
    /\ Forall (fun x => x = NaN) (values ew).
Proof.
  eexists. eexists. split; [vm_compute; reflexivity|].
  apply (zero_balance_in_zero_out log_model exp_model long_only
           returns_up_down f0);
    [exact long_only_not_all_nan|vm_compute; reflexivity].
Defined.

Lemma single_date_leverage_witness :
  exists ew,
    port_balance_calc log_model exp_model long_short (Fin 100)
      returns_one_day (Fin (1 # 1000)) = Some ([(1%Z, NaN)], ew)
    /\ Forall (fun x => x = NaN) (values ew)
    /\ forall cost, get_net_balance NaN cost = f0.
Proof.
  apply (single_date_leverage log_model exp_model long_short (Fin 100)
           returns_one_day (Fin (1 # 1000)) 1%Z [f0; f0]);
    [reflexivity|reflexivity|exact long_short_not_all_nan|reflexivity
    |reflexivity|vm_compute; reflexivity].
Defined.

(** *** Ending weights of a period that is not ruined *)

Lemma values_combine_short {K} (ks : list K) (vs : list float) :
  (List.length vs <= List.length ks)%nat -> values (combine ks vs) = vs.
Proof.
  revert vs. induction ks as [|k ks IH]; intros [|v vs] H;
    try reflexivity; simpl in H; [lia|].
  simpl. f_equal. apply IH. lia.
Qed.

Lemma iloc_last_map {A B} (f : A -> B) (l : list A) :
  iloc_last (map f l) = option_map f (iloc_last l).
Proof.
  unfold iloc_last. rewrite <- map_rev. now destruct (rev l).
Qed.

Section EndingWeights.

Variables np_log np_exp : float -> float.

Lemma position_NAV_row_width (w : Series asset) (b : float) (fr : Frame) :
  Forall (fun r =>
            (List.length (snd r)
             <= List.length (columns (position_NAV_of np_log np_exp w b fr)))%nat)
         (rows (position_NAV_of np_log np_exp w b fr)).
Proof.
  unfold position_NAV_of, frame_round.
  set (F := frame_map np_exp _). set (s := map_values _ w).
  unfold frame_map, mul_columns. cbn [rows columns].
  rewrite map_map. apply Forall_map.
  apply Forall_forall. intros r _. cbn [snd fst].
  rewrite length_map, !length_app, !length_map, length_combine.
  lia.
Qed.

(** X11. In a period that is neither ruined nor leverage-adjusted, each
    ending weight is the final value of its position divided by the sum
    of the final values of all positions, NaN left out of the sum; and
    that sum is not [<= 0]. *)
Theorem ending_weights_are_shares (w : Series asset) (b : float)
  (fr : Frame) (kd : float) (t : Trajectory) (ew : Series asset) :
  ~ all_nan w ->
  port_balance_calc np_log np_exp w b fr kd = Some (t, ew) ->
  (f0 <? kd)%float = false ->
  fst (guarded_balance np_log np_exp w b fr) = true ->
  exists dr last_row,
    iloc_last (rows (position_NAV_of np_log np_exp w b fr))
    = Some (dr, last_row)
    /\ values ew = map (fun v => v / nansum last_row)%float last_row
    /\ (nansum last_row <=? f0)%float = false.
Proof.
  intros Hw Hcalc Hkd Hflag.
  rewrite (port_balance_calc_normal np_log np_exp w b fr kd Hw) in Hcalc.
  cbv zeta in Hcalc. rewrite Hkd in Hcalc. cbn [andb] in Hcalc.
  pose proof (guarded_never_ruined np_log np_exp w b fr Hflag) as Hg.
  assert (Hnone : existsb (fun v => v <=? f0)%float
                    (values (snd (guarded_balance np_log np_exp w b fr)))
                  = false).
  { rewrite guarded_balance_eq in Hflag. cbn [fst] in Hflag.
    rewrite check_negative_balance_flag, store_get_set_same in Hflag.
    rewrite Hg. now apply negb_true_iff in Hflag. }
  rewrite Hg in Hcalc, Hnone. unfold sum_axis1 in Hcalc, Hnone.
  rewrite iloc_last_map in Hcalc.
  destruct (iloc_last (rows (position_NAV_of np_log np_exp w b fr)))
    as [[dr r]|] eqn:Er; [|discriminate].
  cbn [option_map fst snd] in Hcalc. injection Hcalc as _ <-.
  exists dr, r. split; [reflexivity|].
  pose proof (position_NAV_row_width w b fr) as Hwid.
  pose proof (iloc_last_in _ _ Er) as Hin.
  rewrite Forall_forall in Hwid. specialize (Hwid _ Hin). cbn [snd] in Hwid.
  split; [apply values_combine_short; now rewrite length_map|].
  destruct (nansum r <=? f0)%float eqn:E; [|reflexivity].
  unfold values in Hnone. rewrite map_map in Hnone. cbn [snd] in Hnone.
  assert (X : existsb (fun v => v <=? f0)%float
                (map (fun x => nansum (snd x))
                   (rows (position_NAV_of np_log np_exp w b fr))) = true).
  { apply existsb_exists. exists (nansum r). split; [|exact E].
    apply in_map_iff. now exists (dr, r). }
  congruence.
Qed.

End EndingWeights.

(** Long 1.5 and short 0.5 on a balance of 100: the positions end at
    82.50 and -50.00, and the ending weights are 82.5 / 32.5 and
    -50 / 32.5. *)
Lemma ending_weights_are_shares_witness :
  exists t ew,
    port_balance_calc log_model exp_model long_short (Fin 100)
      returns_falling f0 = Some (t, ew)
    /\ exists dr,
        iloc_last (rows (position_NAV_of log_model exp_model long_short
                           (Fin 100) returns_falling))
        = Some (dr, [Fin (165 # 2); Fin (- (50))])
        /\ values ew = [Fin (33 # 13); Fin (- (20 # 13))].
Proof.
  destruct (port_balance_calc log_model exp_model long_short (Fin 100)
              returns_falling f0) as [[t ew]|] eqn:E.
  2:{ vm_compute in E. discriminate E. }
  exists t, ew. split; [reflexivity|].
  destruct (ending_weights_are_shares log_model exp_model long_short
              (Fin 100) returns_falling f0 t ew long_short_not_all_nan E)
    as (dr & r & Hr & Hv & _).
  - reflexivity.
  - vm_compute. reflexivity.
  - exists dr. vm_compute in Hr. injection Hr as <- <-.
    split; [reflexivity|]. rewrite Hv. vm_compute. reflexivity.
Defined.

(** ** Tables *)

Lemma mem_asset_in (a : asset) (l : list asset) :
  In a l -> mem_asset a l = true.
Proof.
  intro H. unfold mem_asset. apply existsb_exists.
  exists a. split; [exact H|apply String.eqb_refl].
Qed.

Lemma mem_asset_true (a : asset) (l : list asset) :
  mem_asset a l = true -> In a l.
Proof.
  unfold mem_asset. intro H. apply existsb_exists in H.
  destruct H as (b & Hb & E). apply String.eqb_eq in E. now subst.
Qed.

Lemma position_none (a : asset) (cols : list asset) :
  position a cols = None <-> ~ In a cols.
Proof.
  induction cols as [|c cols IH]; simpl; [tauto|].
  destruct (String.eqb a c) eqn:E.
  - apply String.eqb_eq in E. subst. split; [discriminate|tauto].
  - apply String.eqb_neq in E.
    destruct (position a cols); simpl.
    + split; [discriminate|]. intro H. exfalso. apply H. right.
      apply Decidable.not_not; [|intro N; apply IH in N; discriminate].
      unfold Decidable.decidable. destruct (in_dec string_dec a cols); tauto.
    + split; [|reflexivity]. intros _ [H|H]; [congruence|].
      now apply IH.
Qed.

Lemma positions_length (labels cols : list asset) (ps : list nat) :
  positions labels cols = Some ps -> List.length ps = List.length labels.
Proof.
  revert ps. induction labels as [|a labels IH]; intros ps H.
  - injection H as <-. reflexivity.
  - simpl in H. destruct (position a cols); [|discriminate].
    destruct (positions labels cols) as [ps'|]; [|discriminate].
    injection H as <-. simpl. f_equal. now apply IH.
Qed.

Lemma positions_missing (labels cols : list asset) (a : asset) :
  In a labels -> ~ In a cols -> positions labels cols = None.
Proof.
  intros Hin Hno. induction labels as [|l labels IH]; [destruct Hin|].
  simpl. destruct Hin as [->|Hin].
  - apply position_none in Hno. now rewrite Hno.
  - rewrite (IH Hin). now destruct (position l cols).
Qed.

Lemma select_columns_shape (labels : list asset) (fr sel : Frame) :
  select_columns labels fr = Some sel ->
  columns sel = labels /\ well_shaped sel /\ dates sel = dates fr.
Proof.
  unfold select_columns. intro H.
  destruct (positions labels (columns fr)) as [ps|] eqn:E; [|discriminate].
  injection H as <-. split; [reflexivity|]. split.
  - unfold well_shaped. cbn [rows columns]. apply Forall_map.
    apply Forall_forall. intros r _. cbn [snd].
    rewrite length_map. now apply positions_length with (columns fr).
  - unfold dates. cbn [rows]. now rewrite map_map.
Qed.

Lemma pct_rows_shape (n : nat) (rs : list (date * list float)) :
  forall prev,
    List.length prev = n ->
    Forall (fun r => List.length (snd r) = n) rs ->
    Forall (fun r => List.length (snd r) = n) (pct_rows prev rs)
    /\ map fst (pct_rows prev rs) = map fst rs.
Proof.
  induction rs as [|[d r] rs IH]; intros prev Hp Hrs; [split; constructor|].
  inversion Hrs as [|? ? Hr Hrs']; subst. cbn [snd] in Hr.
  destruct (IH r Hr Hrs') as [IH1 IH2]. simpl. split.
  - constructor; [|exact IH1]. cbn [snd].
    rewrite length_map, length_combine. lia.
  - now rewrite IH2.
Qed.

Lemma frame_pct_change_shape (fr : Frame) :
  well_shaped fr ->
  well_shaped (frame_pct_change fr)
  /\ dates (frame_pct_change fr) = dates fr.
Proof.
  unfold well_shaped, frame_pct_change, dates. cbn [rows columns].
  intro H. destruct (rows fr) as [|[d r] rs]; [split; constructor|].
  inversion H as [|? ? Hr Hrs]; subst. cbn [snd] in Hr.
  destruct (pct_rows_shape _ rs r Hr Hrs) as [H1 H2]. split.
  - constructor; [cbn [snd]; now rewrite length_map|exact H1].
  - simpl. now rewrite H2.
Qed.

Lemma Forall_filter {A} (P : A -> Prop) (f : A -> bool) (l : list A) :
  Forall P l -> Forall P (filter f l).
Proof.
  induction 1 as [|x l Hx Hl IH]; simpl; [constructor|].
  destruct (f x); [constructor|]; assumption.
Qed.

Lemma map_fst_filter {A B} (f : A -> bool) (l : list (A * B)) :
  map fst (filter (fun r => f (fst r)) l) = filter f (map fst l).
Proof.
  induction l as [|[a b] l IH]; [reflexivity|].
  simpl. destruct (f a); simpl; now rewrite IH.
Qed.

(** The tables of line 126: the columns asked for, one cell per column
    in every row. *)
Lemma returns_between_shape (prices : Frame) (labels : list asset)
  (a b : date) (fr : Frame) :
  returns_between prices labels a b = Some fr ->
  columns fr = labels /\ well_shaped fr.
Proof.
  unfold returns_between. intro H.
  destruct (select_columns labels prices) as [sel|] eqn:E; [|discriminate].
  injection H as <-.
  destruct (select_columns_shape _ _ _ E) as (Hc & Hs & _).
  split; [exact Hc|].
  assert (Hl : well_shaped (loc_dates a b sel)).
  { unfold well_shaped, loc_dates. cbn [rows columns].
    now apply Forall_filter. }
  destruct (frame_pct_change_shape _ Hl) as [Hp _].
  unfold well_shaped, frame_dropna. cbn [rows columns].
  now apply Forall_filter.
Qed.

Lemma cumsum_rows_shape (n : nat) (rs : list (date * list float)) :
  forall acc,
    List.length acc = n ->
    Forall (fun r => List.length (snd r) = n) rs ->
    Forall (fun r => List.length (snd r) = n) (cumsum_rows acc rs).
Proof.
  induction rs as [|[d r] rs IH]; intros acc Ha Hrs; [constructor|].
  inversion Hrs as [|? ? Hr Hrs']; subst. cbn [snd] in Hr.
  simpl. constructor.
  - cbn [snd]. rewrite !length_map, length_combine. lia.
  - apply IH; [|exact Hrs'].
    rewrite !length_map, length_combine. lia.
Qed.

Section EndingWeightAssets.

Variables np_log np_exp : float -> float.

Lemma position_NAV_shape (w : Series asset) (b : float) (fr : Frame) :
  columns fr = index w -> well_shaped fr ->
  columns (position_NAV_of np_log np_exp w b fr) = index w
  /\ well_shaped (position_NAV_of np_log np_exp w b fr).
Proof.
  intros Hc Hs.
  assert (Hextra : filter (fun k => negb (mem_asset k (columns fr)))
                     (index w) = []).
  { rewrite Hc. apply filter_nil_of_Forall. apply Forall_forall.
    intros k Hk. now rewrite (mem_asset_in _ _ Hk). }
  assert (Hcum : Forall (fun r => List.length (snd r)
                                  = List.length (columns fr))
                   (cumsum_rows (map (fun _ => f0) (columns fr))
                      (map (fun r => (fst r,
                                      map (fun x => np_log (f1 + x)%float)
                                          (snd r)))
                           (rows fr)))).
  { apply cumsum_rows_shape; [apply length_map|].
    apply Forall_map. unfold well_shaped in Hs.
    rewrite Forall_forall in Hs |- *. intros r Hr. cbn [snd].
    rewrite length_map. now apply Hs. }
  unfold position_NAV_of, frame_round, well_shaped.
  unfold frame_map, mul_columns, frame_cumsum, map_values. cbn [rows columns].
  assert (Hidx : index (map (fun e => (fst e, (snd e * b)%float)) w)
                 = index w).
  { unfold index. rewrite map_map. reflexivity. }
  rewrite Hidx, Hextra, app_nil_r. split; [exact Hc|].
  rewrite !map_map. apply Forall_map. cbn [fst snd].
  rewrite Forall_forall in Hcum |- *. intros r Hr.
  rewrite app_nil_r, !length_map, length_combine, length_map.
  specialize (Hcum r Hr). lia.
Qed.

Lemma period_ending_assets (w : Series asset) (b : float) (fr : Frame)
  (kd : float) (t : Trajectory) (ew : Series asset) :
  columns fr = index w -> well_shaped fr ->
  port_balance_calc np_log np_exp w b fr kd = Some (t, ew) ->
  index ew = index w.
Proof.
  intros Hc Hs H.
  destruct (Nat.eqb (List.length w) (count_nan (values w))) eqn:E.
  - apply all_nan_test in E.
    rewrite (port_balance_calc_hold np_log np_exp w b fr kd E) in H.
    injection H as _ <-. apply index_constant.
  - apply not_all_nan_test in E.
    rewrite (port_balance_calc_normal np_log np_exp w b fr kd E) in H.
    cbv zeta in H.
    destruct (iloc_last _) as [[dl v]|]; [|discriminate].
    destruct (iloc_last (rows _)) as [[dr r]|] eqn:Er; [|discriminate].
    injection H as _ <-.
    destruct (position_NAV_shape w b fr Hc Hs) as [Hcols Hshape].
    apply iloc_last_in in Er. unfold well_shaped in Hshape.
    rewrite Forall_forall in Hshape. specialize (Hshape _ Er).
    cbn [snd] in Hshape.
    rewrite index_combine_same_length; [exact Hcols|].
    now rewrite length_map.
Qed.

(** X12. After every pass of the loop that reaches its end,
    [last_weights] carries exactly the assets of the target weights of
    that pass, in their order: the ending weights never gain or lose an
    asset. *)
Theorem last_weights_assets (portfolios : Portfolios) (end_date : date)
  (sim_price_data : Frame) (trans_cost annual_kd : float)
  (n_rebalances reb_n : nat) (st st' : LoopState) :
  loop_body np_log np_exp portfolios end_date sim_price_data trans_cost
    annual_kd n_rebalances reb_n st = Next st' ->
  exists col,
    nth_error portfolios reb_n = Some col
    /\ index (last_weights st') = index (target_weights col).
Proof.
  intro H.
  destruct (loop_body_next _ _ _ _ _ _ _ _ _ _ _ H)
    as (col & d & fr & t & Hcol & _ & Hfr & Hc & _).
  exists col. split; [exact Hcol|].
  destruct (returns_between_shape _ _ _ _ _ Hfr) as [Hcols Hshape].
  exact (period_ending_assets _ _ _ _ _ _ Hcols Hshape Hc).
Qed.

End EndingWeightAssets.

Lemma last_weights_assets_witness :
  exists col,
    nth_error switch_portfolios 0 = Some col
    /\ index [(asset_A, NaN)] = index (target_weights col).
Proof.
  apply (last_weights_assets log_model exp_model switch_portfolios 4%Z
           crash_prices (Fin (1 # 100)) f0 2%nat 0%nat
           (mkLoopState [] (Fin 1000) 0%Z
              (constant f0 (columns crash_prices)) None)
           (mkLoopState [(0%nat, [(1%Z, Fin 495); (2%Z, f0)])] f0 2%Z
              [(asset_A, NaN)] (Some 2%Z))).
  vm_compute. reflexivity.
Defined.

(** ** The window of a period *)


Lemma incl_filter {A} (f : A -> bool) (l : list A) : incl (filter f l) l.
Proof. intros x H. now apply filter_In in H. Qed.

Lemma dates_loc_dates (a b : date) (fr : Frame) :
  dates (loc_dates a b fr) = window fr a b.
Proof.
  unfold dates, loc_dates, window. cbn [rows].
  exact (map_fst_filter (fun d => (a <=? d)%Z && (d <=? b)%Z) (rows fr)).
Qed.

Lemma window_select (labels : list asset) (prices sel : Frame) (a b : date) :
  select_columns labels prices = Some sel ->
  window sel a b = window prices a b.
Proof.
  intro H. destruct (select_columns_shape _ _ _ H) as (_ & _ & Hd).
  unfold window. now rewrite Hd.
Qed.

Lemma returns_between_dates (prices : Frame) (labels : list asset)
  (a b : date) (fr : Frame) :
  returns_between prices labels a b = Some fr ->
  incl (dates fr) (window prices a b).
Proof.
  unfold returns_between. intro H.
  destruct (select_columns labels prices) as [sel|] eqn:E; [|discriminate].
  injection H as <-.
  destruct (select_columns_shape _ _ _ E) as (_ & Hs & _).
  assert (Hl : well_shaped (loc_dates a b sel)).
  { unfold well_shaped, loc_dates. cbn [rows columns].
    now apply Forall_filter. }
  destruct (frame_pct_change_shape _ Hl) as [_ Hd].
  rewrite <- (window_select _ _ _ a b E), <- dates_loc_dates, <- Hd.
  unfold dates, frame_dropna. cbn [rows].
  intros d Hin. apply in_map_iff in Hin. destruct Hin as (r & <- & Hr).
  apply filter_In in Hr. apply in_map. tauto.
Qed.




(** ** The run as a whole *)

Lemma dict_set_In {V} (d : list (nat * V)) (k : nat) (v : V) (i : nat)
  (x : V) :
  In (i, x) (dict_set d k v) -> (i = k /\ x = v) \/ In (i, x) d.
Proof.
  induction d as [|[k' v'] d IH]; simpl.
  - intros [H|[]]. inversion H. now left.
  - destruct (Nat.eqb k' k).
    + intros [H|H]; [inversion H; now left|right; now right].
    + intros [H|H]; [right; now left|].
      destruct (IH H) as [?|?]; [now left|right; now right].
Qed.

Lemma window_In (prices : Frame) (a b d : date) :
  In d (window prices a b) -> In d (dates prices) /\ (a <= d <= b)%Z.
Proof.
  unfold window. intro H. apply filter_In in H. destruct H as [Hin H].
  apply andb_true_iff in H. destruct H as [H1 H2].
  apply Z.leb_le in H1, H2. now split.
Qed.

Section LoopControl.

Variables np_log np_exp : float -> float.
Variable portfolios : Portfolios.
Variable end_date : date.
Variable sim_price_data : Frame.
Variables trans_cost annual_kd : float.
Variable n_rebalances : nat.

Abbreviation pass :=
  (loop_body np_log np_exp portfolios end_date sim_price_data trans_cost
     annual_kd n_rebalances).

Abbreviation passes :=
  (for_loop np_log np_exp portfolios end_date sim_price_data trans_cost
     annual_kd n_rebalances).

(** Line 119 is reached in the last pass only, and [break]s when the
    period would start at [end_date]. *)
Lemma set_date_to_break (k : nat) (st : LoopState) :
  set_date_to portfolios end_date n_rebalances k st = DateBreak ->
  (k + 1 <? n_rebalances)%nat = false /\ returns_start_date st = end_date.
Proof.
  unfold set_date_to. destruct (k + 1 <? n_rebalances)%nat.
  - destruct (nth_error portfolios (k + 1)); discriminate.
  - destruct (Z.eqb (returns_start_date st) end_date) eqn:E; [|discriminate].
    intros _. split; [reflexivity|now apply Z.eqb_eq].
Qed.

Lemma loop_body_break_date (k : nat) (st st' : LoopState) :
  pass k st = Break st' ->
  set_date_to portfolios end_date n_rebalances k st = DateBreak.
Proof.
  rewrite loop_body_unfold. intro H.
  destruct (nth_error portfolios k) as [col|]; [|discriminate].
  destruct (set_date_to _ _ _ _ _) as [|[d|]]; try discriminate.
  - reflexivity.
  - destruct (returns_between _ _ _ _) as [fr|]; [|discriminate].
    destruct (get_costs _ _ _ _) as [reb_cost lev_cost].
    destruct (port_balance_calc _ _ _ _ _ _) as [[t ew]|]; [|discriminate].
    destruct (iloc_last t) as [[dl v]|]; discriminate.
Qed.

(** A pass that always raises, before the last one, ends the run. *)
Lemma for_loop_crash (m : nat) :
  (forall st, pass m st = Crash) -> (m < n_rebalances)%nat ->
  forall len k st, (k <= m < k + len)%nat -> passes (seq k len) st = None.
Proof.
  intros Hm Hn. induction len as [|len IH]; intros k st Hk; [lia|].
  cbn [seq for_loop]. destruct (Nat.eq_dec k m) as [->|Hne].
  - now rewrite Hm.
  - destruct (pass k st) as [st'|st'|] eqn:E; [|exfalso|reflexivity].
    + apply IH. lia.
    + apply loop_body_break_date, set_date_to_break in E.
      destruct E as [E _]. apply Nat.ltb_ge in E. lia.
Qed.

Lemma loop_body_no_column (k : nat) (st : LoopState) :
  nth_error portfolios k = None -> pass k st = Crash.
Proof. intro H. rewrite loop_body_unfold. now rewrite H. Qed.

Lemma loop_body_unknown_asset (m : nat) (col : date * Series asset)
  (a : asset) (st : LoopState) :
  nth_error portfolios m = Some col ->
  (m + 1 < n_rebalances)%nat ->
  In a (index (target_weights col)) ->
  ~ In a (columns sim_price_data) ->
  pass m st = Crash.
Proof.
  intros Hc Hm Ha Hno. rewrite loop_body_unfold. rewrite Hc.
  assert (R : forall x y,
             returns_between sim_price_data (index (target_weights col)) x y
             = None).
  { intros. unfold returns_between, select_columns.
    now rewrite (positions_missing _ _ a Ha Hno). }
  unfold set_date_to. apply Nat.ltb_lt in Hm. rewrite Hm.
  destruct (nth_error portfolios (m + 1)) as [c|]; [now rewrite R|].
  destruct (date_to st); [now rewrite R|reflexivity].
Qed.

End LoopControl.

Lemma too_few_columns_aux (np_log np_exp : float -> float)
  (starting_balance : float) (rebalance_dates : list date)
  (portfolios : Portfolios) (end_date : date) (sim_price_data : Frame)
  (trans_cost annual_kd : float) :
  (List.length portfolios < List.length rebalance_dates)%nat ->
  get_balance np_log np_exp starting_balance rebalance_dates portfolios
    end_date sim_price_data trans_cost annual_kd = None.
Proof.
  intro H. unfold get_balance.
  destruct rebalance_dates as [|first_date rest]; [reflexivity|].
  cbv zeta.
  rewrite (for_loop_crash np_log np_exp portfolios end_date sim_price_data
             trans_cost annual_kd (List.length (first_date :: rest))
             (List.length portfolios)); [reflexivity| |exact H|lia].
  intro st. apply loop_body_no_column. now apply nth_error_None.
Qed.

(** X14. With fewer portfolio columns than rebalance dates the run ends
    in an exception, whatever the other inputs: column [reb_n] is read
    outside the [try] of lines 110-122, and no [break] comes before the
    last pass. *)
Theorem too_few_columns (np_log np_exp : float -> float)
  (starting_balance : float) (rebalance_dates : list date)
  (portfolios : Portfolios) (end_date : date) (sim_price_data : Frame)
  (trans_cost annual_kd : float) :
  (List.length portfolios < List.length rebalance_dates)%nat ->
  get_balance np_log np_exp starting_balance rebalance_dates portfolios
    end_date sim_price_data trans_cost annual_kd = None.
Proof.
  intro H. unfold get_balance.
  destruct rebalance_dates as [|first_date rest]; [reflexivity|].
  cbv zeta.
  rewrite (for_loop_crash np_log np_exp portfolios end_date sim_price_data
             trans_cost annual_kd (List.length (first_date :: rest))
             (List.length portfolios)); [reflexivity| |exact H|lia].
  intro st. apply loop_body_no_column. now apply nth_error_None.
Qed.

Lemma too_few_columns_witness :
  get_balance log_model exp_model (Fin 1000) [0%Z; 2%Z; 3%Z]
    switch_portfolios 4%Z crash_prices (Fin (1 # 100)) f0 = None.
Proof.
  apply (too_few_columns log_model exp_model (Fin 1000) [0%Z; 2%Z; 3%Z]
           switch_portfolios 4%Z crash_prices (Fin (1 # 100)) f0).
  simpl. lia.
Defined.

(** X15. A column of a period before the last one that gives a weight,
    neither NaN nor 0, to an asset the price table has no column for ends
    the run in an exception. *)
Theorem unknown_asset_fails (np_log np_exp : float -> float)
  (starting_balance : float) (rebalance_dates : list date)
  (portfolios : Portfolios) (end_date : date) (sim_price_data : Frame)
  (trans_cost annual_kd : float) (m : nat) (col : date * Series asset)
  (a : asset) :
  nth_error portfolios m = Some col ->
  (m + 1 < List.length rebalance_dates)%nat ->
  In a (index (target_weights col)) ->
  ~ In a (columns sim_price_data) ->
  get_balance np_log np_exp starting_balance rebalance_dates portfolios
    end_date sim_price_data trans_cost annual_kd = None.
Proof.
  intros Hc Hm Ha Hno. unfold get_balance.
  destruct rebalance_dates as [|first_date rest]; [reflexivity|].
  cbv zeta.
  rewrite (for_loop_crash np_log np_exp portfolios end_date sim_price_data
             trans_cost annual_kd (List.length (first_date :: rest)) m);
    [reflexivity| |lia|lia].
  intro st.
  exact (loop_body_unknown_asset np_log np_exp portfolios end_date
           sim_price_data trans_cost annual_kd _ m col a st Hc Hm Ha Hno).
Qed.

Lemma unknown_asset_fails_witness :
  get_balance log_model exp_model (Fin 1000) [0%Z; 2%Z]
    unknown_asset_portfolios 4%Z flat_prices (Fin (1 # 100)) f0 = None.
Proof.
  apply (unknown_asset_fails log_model exp_model (Fin 1000) [0%Z; 2%Z]
           unknown_asset_portfolios 4%Z flat_prices (Fin (1 # 100)) f0
           0%nat (0%Z, [(asset_A, f1); ("C"%string, f1)]) "C"%string).
  - reflexivity.
  - simpl. lia.
  - simpl. right. left. reflexivity.
  - simpl. intros [H|[H|[]]]; discriminate.
Defined.

Section RunShape.

Variables np_log np_exp : float -> float.
Variable rebalance_dates : list date.
Variable portfolios : Portfolios.
Variable end_date : date.
Variable sim_price_data : Frame.
Variables trans_cost annual_kd : float.

Hypothesis enough_columns :
  (List.length rebalance_dates <= List.length portfolios)%nat.

Abbreviation periods := (List.length rebalance_dates).

Abbreviation shape :=
  (run_shape rebalance_dates portfolios end_date sim_price_data).

Lemma run_shape_step (k : nat) (st st' : LoopState) :
  (k < periods)%nat ->
  shape k st ->
  loop_body np_log np_exp portfolios end_date sim_price_data trans_cost
    annual_kd periods k st = Next st' ->
  shape (S k) st'.
Proof.
  intros Hk (Hkeys & Hstart & _ & Hrec) Hb.
  specialize (Hstart Hk).
  destruct (loop_body_next _ _ _ _ _ _ _ _ _ _ _ Hb)
    as (col & d & fr & t & Hcol & Hd & Hr & Hc & [dl Hlast] & Hadb & Hrsd).
  assert (Hend : period_end rebalance_dates portfolios end_date k = Some d
                 /\ ((S k < periods)%nat ->
                     period_start rebalance_dates portfolios (S k) = Some d)
                 /\ (S k = periods -> returns_start_date st <> end_date)).
  { unfold set_date_to in Hd. unfold period_end.
    destruct (k + 1 <? periods)%nat eqn:E.
    - apply Nat.ltb_lt in E.
      destruct (nth_error portfolios (k + 1)) as [c|] eqn:Ec.
      + injection Hd as <-. split; [reflexivity|]. split; [|lia].
        intros _. cbn [period_start]. rewrite <- Nat.add_1_r, Ec.
        reflexivity.
      + apply nth_error_None in Ec. lia.
    - apply Nat.ltb_ge in E.
      destruct (Z.eqb (returns_start_date st) end_date) eqn:Ez;
        [discriminate|].
      injection Hd as <-. split; [reflexivity|]. split; [lia|].
      intros _. now apply Z.eqb_neq. }
  destruct Hend as (Hpe & Hps & Hne).
  split; [exact (keys_step _ _ _ _ _ _ _ _ _ _ _ Hkeys Hb)|].
  split; [intro H; rewrite Hrsd; now apply Hps|].
  split.
  - intros Hn. replace (periods - 1)%nat with k by lia. rewrite Hstart.
    intro H. injection H as H. now apply Hne.
  - intros i t' Hin. rewrite Hadb in Hin. apply dict_set_In in Hin.
    destruct Hin as [[-> ->]|Hin]; [|now apply Hrec].
    split.
    + intro Ht. rewrite Ht in Hlast. discriminate.
    + exists (returns_start_date st), d.
      split; [exact Hstart|]. split; [exact Hpe|].
      intros d0 Hd0.
      rewrite (period_trajectory_dates _ _ _ _ _ _ _ _ Hc) in Hd0.
      apply (returns_between_dates _ _ _ _ _ Hr) in Hd0.
      now apply window_In in Hd0.
Qed.

Lemma run_shape_end :
  forall len k st st_end,
    (k + len = periods)%nat ->
    shape k st ->
    for_loop np_log np_exp portfolios end_date sim_price_data trans_cost
      annual_kd periods (seq k len) st = Some st_end ->
    (forall i t, In (i, t) (all_dates_balance st_end) ->
       t <> []
       /\ within_period rebalance_dates portfolios end_date sim_price_data
            i t)
    /\ (period_start rebalance_dates portfolios (periods - 1)
        = Some end_date ->
        map fst (all_dates_balance st_end) = seq 0 (periods - 1))
    /\ (period_start rebalance_dates portfolios (periods - 1)
        <> Some end_date ->
        map fst (all_dates_balance st_end) = seq 0 periods).
Proof.
  induction len as [|len IH]; intros k st st_end Hk Hs Hl.
  - injection Hl as <-. destruct Hs as (Hkeys & _ & Hfin & Hrec).
    assert (Hkn : k = periods) by lia.
    split; [exact Hrec|]. split.
    + intro H. now destruct (Hfin Hkn).
    + intros _. now rewrite <- Hkn.
  - cbn [seq for_loop] in Hl.
    destruct (loop_body _ _ _ _ _ _ _ _ k st) as [st'|st'|] eqn:E;
      [| |discriminate].
    + apply (IH (S k) st' st_end); [lia| |exact Hl].
      apply (run_shape_step k st st'); [lia|exact Hs|exact E].
    + injection Hl as <-.
      pose proof (loop_body_break _ _ _ _ _ _ _ _ _ _ _ E) as ->.
      apply loop_body_break_date, set_date_to_break in E.
      destruct E as [E1 E2]. apply Nat.ltb_ge in E1.
      assert (Hk' : k = (periods - 1)%nat) by lia.
      destruct Hs as (Hkeys & Hstart & _ & Hrec).
      assert (Hps : period_start rebalance_dates portfolios (periods - 1)
                    = Some end_date).
      { rewrite <- Hk', Hstart by lia. now rewrite E2. }
      split; [exact Hrec|]. split.
      * intros _. now rewrite <- Hk'.
      * intro H. now destruct H.
Qed.

End RunShape.

(** What a completed run has recorded. *)
Lemma run_shape_of_run (np_log np_exp : float -> float)
  (starting_balance : float) (rebalance_dates : list date)
  (portfolios : Portfolios) (end_date : date) (sim_price_data : Frame)
  (trans_cost annual_kd : float) (result : list (nat * Trajectory)) :
  get_balance np_log np_exp starting_balance rebalance_dates portfolios
    end_date sim_price_data trans_cost annual_kd = Some result ->
  (List.length rebalance_dates <= List.length portfolios)%nat
  /\ (forall i t, In (i, t) result ->
        t <> []
        /\ within_period rebalance_dates portfolios end_date sim_price_data
             i t)
  /\ (period_start rebalance_dates portfolios
        (List.length rebalance_dates - 1) = Some end_date ->
      map fst result = seq 0 (List.length rebalance_dates - 1))
  /\ (period_start rebalance_dates portfolios
        (List.length rebalance_dates - 1) <> Some end_date ->
      map fst result = seq 0 (List.length rebalance_dates)).
Proof.
  intro Hrun.
  assert (Hcols : (List.length rebalance_dates <= List.length portfolios)%nat).
  { destruct (le_lt_dec (List.length rebalance_dates)
                (List.length portfolios)) as [H|H]; [exact H|].
    rewrite (too_few_columns_aux np_log np_exp starting_balance
               rebalance_dates portfolios end_date sim_price_data
               trans_cost annual_kd H) in Hrun.
    discriminate. }
  split; [exact Hcols|].
  unfold get_balance in Hrun.
  destruct rebalance_dates as [|first_date rest] eqn:Erd; [discriminate|].
  cbv zeta in Hrun.
  destruct (for_loop _ _ _ _ _ _ _ _ _ _) as [st_end|] eqn:El;
    [|discriminate].
  injection Hrun as <-.
  refine (run_shape_end np_log np_exp (first_date :: rest) portfolios
            end_date sim_price_data trans_cost annual_kd Hcols
            (List.length (first_date :: rest)) 0%nat
            (mkLoopState [] starting_balance first_date
               (constant f0 (columns sim_price_data)) None)
            st_end eq_refl _ El).
  split; [reflexivity|]. split; [reflexivity|].
  split; [discriminate|]. intros i t [].
Qed.

(** X16. A run that completes has found a column for every rebalance
    date, and has recorded the periods [0 .. n-1] in this order, [n] the
    number of rebalance dates; unless the last period would start at
    [end_date], the first rebalance date when [n = 1] and the name of the
    last of the [n] columns otherwise: then the [break] of line 119 leaves
    the last period out and the periods recorded are [0 .. n-2]. *)
Theorem recorded_periods (np_log np_exp : float -> float)
  (starting_balance : float) (rebalance_dates : list date)
  (portfolios : Portfolios) (end_date : date) (sim_price_data : Frame)
  (trans_cost annual_kd : float) (result : list (nat * Trajectory)) :
  get_balance np_log np_exp starting_balance rebalance_dates portfolios
    end_date sim_price_data trans_cost annual_kd = Some result ->
  (List.length rebalance_dates <= List.length portfolios)%nat
  /\ (period_start rebalance_dates portfolios
        (List.length rebalance_dates - 1) = Some end_date ->
      map fst result = seq 0 (List.length rebalance_dates - 1))
  /\ (period_start rebalance_dates portfolios
        (List.length rebalance_dates - 1) <> Some end_date ->
      map fst result = seq 0 (List.length rebalance_dates)).
Proof.
  intro Hrun.
  destruct (run_shape_of_run _ _ _ _ _ _ _ _ _ _ Hrun)
    as (Hcols & _ & Hbreak & Hfull).
  split; [exact Hcols|]. split; [exact Hbreak|exact Hfull].
Qed.

Lemma recorded_periods_witness :
  (exists result,
      get_balance log_model exp_model (Fin 1000) [0%Z; 2%Z]
        switch_portfolios 2%Z crash_prices (Fin (1 # 100)) f0 = Some result
      /\ map fst result = [0%nat])
  /\ map fst [(0%nat, [(1%Z, Fin 495); (2%Z, f0)]);
              (1%nat, [(3%Z, f0); (4%Z, f0)])] = [0%nat; 1%nat].
Proof.
  split.
  - eexists. split; [vm_compute; reflexivity|].
    refine (proj1 (proj2 (recorded_periods log_model exp_model (Fin 1000)
                            [0%Z; 2%Z] switch_portfolios 2%Z crash_prices
                            (Fin (1 # 100)) f0 _ _)) _);
      [vm_compute; reflexivity|reflexivity].
  - refine (proj2 (proj2 (recorded_periods _ _ _ _ _ _ _ _ _ _ run_switch))
              _).
    simpl. discriminate.
Defined.



(** ** A period in cash *)




(** ** Ruin without costs *)

Lemma period_ruin_permanent (np_log np_exp : float -> float)
  (w : Series asset) (b : float) (fr : Frame) (kd : float)
  (t : Trajectory) (ew : Series asset) :
  port_balance_calc np_log np_exp w b fr kd = Some (t, ew) ->
  (b <? f0)%float = false ->
  (f0 <? kd)%float = false ->
  ruin_permanent (values t).
Proof.
  intros Hcalc Hb Hkd. apply ruin_permanent_rec_sound.
  destruct (Nat.eqb (List.length w) (count_nan (values w))) eqn:E.
  - apply all_nan_test in E.
    rewrite (port_balance_calc_hold np_log np_exp w b fr kd E) in Hcalc.
    injection Hcalc as <- _. now apply constant_permanent.
  - apply not_all_nan_test in E.
    rewrite (port_balance_calc_normal np_log np_exp w b fr kd E) in Hcalc.
    cbv zeta in Hcalc. rewrite Hkd in Hcalc. cbn [andb] in Hcalc.
    destruct (iloc_last _) as [[dl v]|]; [|discriminate].
    destruct (iloc_last (rows _)) as [[dr r]|]; [|discriminate].
    injection Hcalc as <- _.
    rewrite guarded_balance_eq. cbn [snd]. apply guard_clean_permanent.
Qed.

Lemma net_balance_free (b : float) :
  (get_net_balance b f0 <? f0)%float = false.
Proof.
  unfold get_net_balance. destruct (f0 <? b)%float eqn:E; [|reflexivity].
  assert (H : nonneg_num (round (b * (f1 - f0)) 2)); [|exact (proj2 H)].
  apply round_nonneg, nonneg_num_cases.
  apply fpos_cases in E. destruct E as [->|[q [-> Hq]]]; [now left|].
  right. exists (Qred (q * Qred (1 + Qred (- 0)))). split; [reflexivity|].
  rewrite Qred_correct.
  assert (Q1 : Qred (1 + Qred (- 0)) == 1) by reflexivity.
  rewrite Q1, Qmult_1_r. now apply Qlt_le_weak.
Qed.

Lemma leverage_cost_free (annual_kd : float) (w : Series asset)
  (days : positive) :
  (f0 <? annual_kd)%float = false ->
  calculate_leverage_costs annual_kd w days = f0.
Proof. intro H. unfold calculate_leverage_costs. now rewrite H. Qed.

(** X19. With no transaction cost ([trans_cost <= 0]) and no charge on
    debt ([annual_kd] not [> 0]) a run that completes is ruin-monotone:
    in every recorded trajectory a value [<= 0] is followed by zeros only,
    and every trajectory recorded after a trajectory that holds a value
    [<= 0] is zero at every date. *)
Theorem costless_run_ruin_monotone (np_log np_exp : float -> float)
  (starting_balance : float) (rebalance_dates : list date)
  (portfolios : Portfolios) (end_date : date) (sim_price_data : Frame)
  (trans_cost annual_kd : float) (result : list (nat * Trajectory)) :
  (trans_cost <=? f0)%float = true ->
  (f0 <? annual_kd)%float = false ->
  get_balance np_log np_exp starting_balance rebalance_dates portfolios
    end_date sim_price_data trans_cost annual_kd = Some result ->
  ruin_monotone result.
Proof.
  intros Ht Hk Hrun.
  assert (Hperm : forall i t, In (i, t) result -> ruin_permanent (values t)).
  { unfold get_balance in Hrun.
    destruct rebalance_dates as [|first_date rest]; [discriminate|].
    cbv zeta in Hrun.
    destruct (for_loop _ _ _ _ _ _ _ _ _ _) as [st_end|] eqn:El;
      [|discriminate].
    injection Hrun as <-.
    destruct (for_loop_invariant np_log np_exp portfolios end_date
                sim_price_data trans_cost annual_kd
                (List.length (first_date :: rest))
                (fun _ st =>
                   forall i t, In (i, t) (all_dates_balance st) ->
                               ruin_permanent (values t)))
      with (m := List.length (first_date :: rest)) (k := 0%nat)
           (st := mkLoopState [] starting_balance first_date
                    (constant f0 (columns sim_price_data)) None)
           (st_end := st_end) as [k [_ H]].
    - intros k st st' HI Hb.
      destruct (loop_body_next _ _ _ _ _ _ _ _ _ _ _ Hb)
        as (col & d & fr & t & _ & _ & _ & Hc & _ & Hadb & _).
      cbv beta zeta delta [get_costs] in Hc. cbn [fst snd] in Hc.
      rewrite Ht in Hc. rewrite (leverage_cost_free _ _ _ Hk) in Hc.
      intros i t' Hin. rewrite Hadb in Hin. apply dict_set_In in Hin.
      destruct Hin as [[_ ->]|Hin]; [|exact (HI i t' Hin)].
      exact (period_ruin_permanent _ _ _ _ _ _ _ _ Hc
               (net_balance_free _) eq_refl).
    - intros i t [].
    - exact El.
    - exact H. }
  split; [exact Hperm|].
  intros i j ti tj Hi Hj Hlt Hex.
  pose proof (run_zero_after _ _ _ _ _ _ _ _ _ _ Hrun i j ti tj Hi Hj Hlt
                (ruin_permanent_ends ti (Hperm i ti Hi) Hex)) as Hz.
  eapply Forall_impl; [|exact Hz].
  intros x ->. reflexivity.
Qed.

Lemma costless_run_ruin_monotone_witness :
  exists result,
    get_balance log_model exp_model (Fin 1000) [0%Z; 2%Z] switch_portfolios
      4%Z crash_prices f0 f0 = Some result
    /\ ruin_monotone result.
Proof.
  eexists. split; [vm_compute; reflexivity|].
  apply (costless_run_ruin_monotone log_model exp_model (Fin 1000)
           [0%Z; 2%Z] switch_portfolios 4%Z crash_prices f0 f0);
    [reflexivity|reflexivity|vm_compute; reflexivity].
Defined.

(** ** Ruin, where it is permanent *)

(** X20. In a run that completes, after a period whose trajectory ends in
    a value that is not [> 0] (a value [<= 0], or NaN), the trajectory of
    every later period is 0 at every date. *)
Theorem ruin_after_period_end (np_log np_exp : float -> float)
  (starting_balance : float) (rebalance_dates : list date)
  (portfolios : Portfolios) (end_date : date) (sim_price_data : Frame)
  (trans_cost annual_kd : float) (result : list (nat * Trajectory))
  (i j : nat) (ti tj : Trajectory) :
  get_balance np_log np_exp starting_balance rebalance_dates portfolios
    end_date sim_price_data trans_cost annual_kd = Some result ->
  In (i, ti) result -> In (j, tj) result -> (i < j)%nat ->
  ends_ruined ti ->
  Forall (fun x => x = f0) (values tj).
Proof.
  intros Hrun Hi Hj Hlt Hr.
  exact (run_zero_after _ _ _ _ _ _ _ _ _ _ Hrun i j ti tj Hi Hj Hlt Hr).
Qed.

Lemma ruin_after_period_end_witness :
  Forall (fun x => x = f0) (values [(3%Z, f0); (4%Z, f0)]).
Proof.
  apply (ruin_after_period_end _ _ _ _ _ _ _ _ _ _ 0%nat 1%nat
           [(1%Z, Fin 495); (2%Z, f0)] [(3%Z, f0); (4%Z, f0)] run_switch).
  - now left.
  - right. now left.
  - exact Nat.lt_0_1.
  - exists 2%Z, f0. split; reflexivity.
Defined.

(** X21. A period that is not leverage-adjusted, and that is not a hold
    from a negative balance, returns a trajectory in which every value
    after a value [<= 0] is exactly 0. *)
Theorem period_ruin_permanence (np_log np_exp : float -> float)
  (w : Series asset) (b : float) (fr : Frame) (kd : float)
  (t : Trajectory) (ew : Series asset) :
  port_balance_calc np_log np_exp w b fr kd = Some (t, ew) ->
  leverage_adjusted np_log np_exp w b fr kd = false ->
  (all_nan w -> (b <? f0)%float = false) ->
  ruin_permanent (values t).
Proof.
  intros Hcalc Hlev Hb. apply ruin_permanent_rec_sound.
  unfold leverage_adjusted in Hlev.
  destruct (Nat.eqb (List.length w) (count_nan (values w))) eqn:E.
  - apply all_nan_test in E.
    rewrite (port_balance_calc_hold np_log np_exp w b fr kd E) in Hcalc.
    injection Hcalc as <- _. apply constant_permanent. now apply Hb.
  - apply not_all_nan_test in E.
    rewrite (port_balance_calc_normal np_log np_exp w b fr kd E) in Hcalc.
    cbv zeta in Hcalc. cbn [negb andb] in Hlev. rewrite Hlev in Hcalc.
    destruct (iloc_last _) as [[dl v]|]; [|discriminate].
    destruct (iloc_last (rows _)) as [[dr r]|]; [|discriminate].
    injection Hcalc as <- _.
    rewrite guarded_balance_eq. cbn [snd]. apply guard_clean_permanent.
Qed.

(** A position that loses half and then everything, from a balance of
    -990: the guard clears the period, and the trajectory is 0.00, 0.00. *)
Lemma period_ruin_permanence_witness :
  exists t ew,
    port_balance_calc log_model exp_model long_only (Fin (- (990)))
      (mkFrame [asset_A]
         [(1%Z, [Fin (- (1 # 2))]); (2%Z, [Fin (- (1))])]) f0
    = Some (t, ew)
    /\ t = [(1%Z, f0); (2%Z, f0)]
    /\ ruin_permanent (values t).
Proof.
  eexists. eexists. split; [vm_compute; reflexivity|].
  split; [reflexivity|].
  apply (period_ruin_permanence log_model exp_model long_only
           (Fin (- (990)))
           (mkFrame [asset_A]
              [(1%Z, [Fin (- (1 # 2))]); (2%Z, [Fin (- (1))])])
           f0 _ [(asset_A, NaN)]).
  - vm_compute. reflexivity.
  - vm_compute. reflexivity.
  - intro H. exfalso. exact (long_only_not_all_nan H).
Defined.
